(** * Arto: class-name resolution pipeline

    A shallow embedding of the TypeScript sources of the [arto] package
    (normalizer, boolean logic evaluator, [ClassNameBuilder], the four
    built-in plugins and the [arto] entry point) together with the
    properties its specification states about them.

    Conventions of the embedding.
    - A JavaScript object used as a record of named entries is an
      association list in own-property order.  The names of variants, of
      states and of buckets are ordinary names: neither canonical array
      indices, which the language enumerates before the other names, nor
      names of members of [Object.prototype]; for these, insertion order and
      own-property lookup are what the code does.  The value a caller
      selects for a variant is not held to this: it is looked up through
      the prototype chain ([lookup_entry]).
    - A JavaScript [Set] is a duplicate-free list in insertion order.
    - A class callback is a function reference [fnid]; what calling it
      with the context yields is given by a table [call].  Reference
      identity (what [seenCallbacks] compares) is equality of [fnid].
    - An array is written out with its elements ([VArr]); arrays as
      objects, which may hold themselves, are the items of a store
      ([Normalize.item]), over which the normalizer's loop is given again.
    - A plugin is a record; the defaults the builder's constructor writes
      into the plugin objects it is given are [with_defaults], and
      [after_construction] is what another holder of these objects sees.
    - Numbers are integers ([Z]), below 10^21 in absolute value where they
      are printed; strings are sequences of code units below 256.
    - A loop whose number of iterations is not bounded by its input carries
      fuel; running out of it is the outcome [OutOfFuel]. *)

From Stdlib Require Import List String Ascii ZArith Lia Bool Arith.
From Stdlib Require Import Permutation Sorted DecimalString.
Import ListNotations.
Open Scope string_scope.
Open Scope list_scope.

Set Implicit Arguments.
Set Warnings "-register-all".

(* ====================================================================== *)
(** ** JavaScript containers *)

Module Js.

(** An object used as a map: own properties in enumeration order. *)
Definition obj (V : Type) := list (string * V).

(** [o[k]]: [None] is [undefined]. *)
Fixpoint get {V} (o : obj V) (k : string) : option V :=
  match o with
  | [] => None
  | (k', v) :: r => if String.eqb k' k then Some v else get r k
  end.

(** [o[k] = v]: an existing property keeps its place, a new one goes last. *)
Fixpoint set {V} (o : obj V) (k : string) (v : V) : obj V :=
  match o with
  | [] => [(k, v)]
  | (k', v') :: r =>
      if String.eqb k' k then (k', v) :: r else (k', v') :: set r k v
  end.

(** [Object.keys(o)], [Object.values(o)]. *)
Definition keys {V} (o : obj V) : list string := map fst o.
Definition values {V} (o : obj V) : list V := map snd o.

(** [Set<string>]: membership and insertion. *)
Definition jsset := list string.

Definition has (s : jsset) (x : string) : bool := existsb (String.eqb x) s.

Definition add (s : jsset) (x : string) : jsset :=
  if has s x then s else s ++ [x].

(** [new Set(xs)] *)
Definition of_list (xs : list string) : jsset := fold_left add xs [].

End Js.

(* ====================================================================== *)
(** ** Errors (errors.ts) *)

Record error := MkError { name : string; message : string }.

(** [new ArtoError(message)]: the message is prefixed. *)
Definition ArtoError (msg : string) : error :=
  {| name := "ArtoError"; message := ("[Arto Error]: " ++ msg)%string |}.

(** Result of a computation that may throw, or exhaust its fuel. *)
Inductive outcome (A : Type) : Type :=
| Done (a : A)
| Thrown (e : error)
| OutOfFuel.

Arguments Done {A} a.
Arguments Thrown {A} e.
Arguments OutOfFuel {A}.

Definition throwError {A} (msg : string) : outcome A := Thrown (ArtoError msg).

Definition bind {A B} (m : outcome A) (k : A -> outcome B) : outcome B :=
  match m with
  | Done a => k a
  | Thrown e => Thrown e
  | OutOfFuel => OutOfFuel
  end.

Notation "'let*' x ':=' m 'in' k" := (bind m (fun x => k))
  (at level 10, x pattern, m at level 100, k at level 200).

(* ====================================================================== *)
(** ** Class expressions (types/class-name.ts) as runtime values *)

Definition fnid := nat.

Inductive value : Type :=
| VUndefined
| VNull
| VBool (b : bool)
| VNum (n : Z)
| VStr (s : string)
| VArr (items : list value)
| VFun (f : fnid)
| VObj.                         (* any other object *)

(** What a call of a callback produces. *)
Inductive completion : Type :=
| Returns (v : value)
| Throws (msg : string).        (* [error.message] or [String(error)] *)

(** JavaScript truthiness. *)
Definition truthy (v : value) : bool :=
  match v with
  | VUndefined | VNull => false
  | VBool b => b
  | VNum n => negb (n =? 0)%Z
  | VStr s => negb (s =? "")
  | VArr _ | VFun _ | VObj => true
  end.

(** [isClassNameType] (utils/type-guards). *)
Definition isClassNameType (v : value) : bool :=
  match v with
  | VStr _ | VArr _ | VFun _ => true
  | _ => false
  end.

(* ====================================================================== *)
(** ** normalizeClassName (utils/normalize-class-name.ts) *)

Module Normalize.

(** The class [\s] on code units below 256. *)
Definition is_space (c : ascii) : bool :=
  let n := nat_of_ascii c in
  (((9 <=? n) && (n <=? 13)) || (n =? 32) || (n =? 160))%nat.

(** [s.split(/\s+/)]: the fragments between maximal runs of whitespace.
    [frag] is the fragment being read, [in_sep] tells that the previous
    code unit belonged to a separator. *)
Fixpoint split_runs (s : string) (frag : string) (in_sep : bool) : list string :=
  match s with
  | EmptyString => [frag]
  | String c r =>
      if is_space c
      then if in_sep then split_runs r "" true
           else frag :: split_runs r "" true
      else split_runs r (frag ++ String c "")%string false
  end.

Definition split (s : string) : list string := split_runs s "" false.

(** [.filter(Boolean)] on strings. *)
Definition nonempty (s : string) : bool := negb (s =? "").

Definition fragments (s : string) : list string := filter nonempty (split s).

(** [for (i = item.length - 1; i >= 0; i--) stack.push(item[i])], the top of
    the stack being the head of the list. *)
Definition push_reversed (items : list value) (stack : list value) : list value :=
  fold_left (fun st x => x :: st) (rev items) stack.

Definition seen_has (seen : list fnid) (f : fnid) : bool :=
  existsb (Nat.eqb f) seen.

(** State at the end of the [while] loop: the [result] set and the
    callbacks that were invoked, in invocation order. *)
Record final := MkFinal { tokens : list string; invoked : list fnid }.

Section WithCallbacks.
Variable Ctx : Type.
Variable call : fnid -> option Ctx -> completion.
Variable context : option Ctx.

(** The [while (stack.length > 0)] loop; one unit of fuel per iteration. *)
Fixpoint loop (fuel : nat) (stack : list value) (seen : list fnid)
         (result : Js.jsset) : outcome final :=
  match stack with
  | [] => Done (MkFinal result seen)
  | item :: stack =>
      match fuel with
      | O => OutOfFuel
      | S fuel =>
          match item with
          | VUndefined | VNull => loop fuel stack seen result
          | VStr s =>
              loop fuel stack seen (fold_left Js.add (fragments s) result)
          | VArr items =>
              loop fuel (push_reversed items stack) seen result
          | VFun f =>
              if seen_has seen f then loop fuel stack seen result
              else
                match call f context with
                | Returns resolved =>
                    if truthy resolved
                    then loop fuel (resolved :: stack) (seen ++ [f]) result
                    else loop fuel stack (seen ++ [f]) result
                | Throws msg =>
                    throwError ("Error resolving class function: " ++ msg)%string
                end
          | VBool _ | VNum _ | VObj => loop fuel stack seen result
          end
      end
  end.

Definition run (fuel : nat) (classInput : value) : outcome final :=
  loop fuel [classInput] [] [].

Definition normalizeClassName (fuel : nat) (classInput : value)
  : outcome (list string) :=
  let* r := run fuel classInput in Done (tokens r).

End WithCallbacks.

(** *** Arrays as objects

    In [value] an array is written out with its elements: it is finite and
    holds no array that holds it.  In the language an array is an object, and
    [a.push(a)] makes [a] an element of itself.  An [item] is a value written
    out or the address of an array object; a [store] gives the elements of the
    array object at each address.  The loop is the same loop. *)

Inductive item : Type :=
| Val (v : value)
| Ref (a : nat).

Definition store := nat -> list item.

Definition push_items (items : list item) (stack : list item) : list item :=
  fold_left (fun st x => x :: st) (rev items) stack.

Section WithStore.
Variable Ctx : Type.
Variable call : fnid -> option Ctx -> completion.
Variable context : option Ctx.
Variable heap : store.

Fixpoint loop_in (fuel : nat) (stack : list item) (seen : list fnid)
         (result : Js.jsset) : outcome final :=
  match stack with
  | [] => Done (MkFinal result seen)
  | it :: stack =>
      match fuel with
      | O => OutOfFuel
      | S fuel =>
          match it with
          | Ref a => loop_in fuel (push_items (heap a) stack) seen result
          | Val VUndefined | Val VNull => loop_in fuel stack seen result
          | Val (VStr s) =>
              loop_in fuel stack seen (fold_left Js.add (fragments s) result)
          | Val (VArr items) =>
              loop_in fuel (push_items (map Val items) stack) seen result
          | Val (VFun f) =>
              if seen_has seen f then loop_in fuel stack seen result
              else
                match call f context with
                | Returns resolved =>
                    if truthy resolved
                    then loop_in fuel (Val resolved :: stack) (seen ++ [f]) result
                    else loop_in fuel stack (seen ++ [f]) result
                | Throws msg =>
                    throwError ("Error resolving class function: " ++ msg)%string
                end
          | Val (VBool _) | Val (VNum _) | Val VObj =>
              loop_in fuel stack seen result
          end
      end
  end.

Definition run_in (fuel : nat) (classInput : item) : outcome final :=
  loop_in fuel [classInput] [] [].

Definition normalizeClassName_in (fuel : nat) (classInput : item)
  : outcome (list string) :=
  let* r := run_in fuel classInput in Done (tokens r).

End WithStore.

End Normalize.

(* ====================================================================== *)
(** ** Boolean logic evaluator (plugins/rules-plugin.ts) *)

Inductive LogicOperator := AND | OR | NOT | XOR | IMPLIES.

(** [conditions[i]]; the only reads are guarded by the length test. *)
Definition at_index (conditions : list bool) (i : nat) : bool :=
  nth i conditions false.

Definition evaluateSimpleLogic (conditions : list bool) (op : option LogicOperator)
  : bool :=
  let logic := match op with Some o => o | None => AND end in
  match logic with
  | AND => forallb (fun c => c) conditions
  | OR => existsb (fun c => c) conditions
  | NOT => forallb (fun c => negb c) conditions
  | XOR => (List.length (filter (fun c => c) conditions) =? 1)%nat
  | IMPLIES =>
      if (List.length conditions <? 2)%nat then true
      else negb (at_index conditions 0) || at_index conditions 1
  end.

Record ArtoLogicObject := {
  lo_variants : option LogicOperator;
  lo_states : option LogicOperator;
  lo_combine : option LogicOperator
}.

Definition is_AND (o : LogicOperator) : bool :=
  match o with AND => true | _ => false end.

Definition evaluateObjectLogic (variantBooleans stateBooleans : list bool)
           (logicObj : ArtoLogicObject) : bool :=
  let variants := match lo_variants logicObj with Some o => o | None => AND end in
  let states := match lo_states logicObj with Some o => o | None => AND end in
  let combine := match lo_combine logicObj with Some o => o | None => AND end in
  let variantsPassed :=
    if is_AND variants then forallb (fun c => c) variantBooleans
    else existsb (fun c => c) variantBooleans in
  let statesPassed :=
    if is_AND states then forallb (fun c => c) stateBooleans
    else existsb (fun c => c) stateBooleans in
  if is_AND combine then variantsPassed && statesPassed
  else variantsPassed || statesPassed.

(* ====================================================================== *)
(** ** Configuration types (types/*.ts) *)

(** [VariantValue = string | number] *)
Inductive VariantValue := VVStr (s : string) | VVNum (n : Z).

(** [String(v)], also the property key [v] is converted to. *)
Definition String_of (v : VariantValue) : string :=
  match v with
  | VVStr s => s
  | VVNum n => DecimalString.NilZero.string_of_int (Z.to_int n)
  end.

(** Strict equality, as used by [Array.prototype.includes]. *)
Definition VariantValue_eqb (a b : VariantValue) : bool :=
  match a, b with
  | VVStr x, VVStr y => String.eqb x y
  | VVNum x, VVNum y => Z.eqb x y
  | _, _ => false
  end.

(** A selection [TVariants] or [Partial<TVariants>]: [None] stands for a
    property holding [null] or [undefined]. *)
Definition Variants := Js.obj (option VariantValue).

(** An entry of a [dependsOn] array: a state name or [{ not: [...] }]. *)
Inductive DependencyItem :=
| Requires (st : string)
| NotAny (not : option (list string)).

Section Config.
Variable Ctx : Type.

Inductive StateDependency :=
| DependsOnList (l : list DependencyItem)
| DependsOnFn (f : Js.jsset -> option Ctx -> bool).

Record StateConfig := {
  sc_className : value;
  sc_dependsOn : option StateDependency
}.

(** An entry of a states map: an object that has a [className] property
    ([StateCfg]), or any other value. *)
Inductive StateInput :=
| StateClass (c : value)
| StateCfg (c : StateConfig).

Definition StatesOptions := Js.obj StateInput.

Record VariantConfig := {
  vc_className : option value;
  vc_states : option StatesOptions
}.

(** An entry of a variant's value map: an object that has a [className] or a
    [states] property ([VariantCfg]), or any other value. *)
Inductive VariantInput :=
| VariantClass (c : value)
| VariantCfg (c : VariantConfig).

Definition VariantOptions := Js.obj (option (Js.obj VariantInput)).

Record RuleEvalMeta := {
  variantMatches : Js.obj bool;
  stateMatches : Js.obj bool;
  meta_selectedVariants : Variants;
  meta_activeStates : Js.jsset
}.

Inductive ArtoLogic :=
| LogicOp (op : LogicOperator)
| LogicObj (o : ArtoLogicObject)
| LogicFn (f : RuleEvalMeta -> option Ctx -> bool).

Record ArtoRuleWhen := {
  when_variants : option (Js.obj (option (list VariantValue)));
  when_states : option (list string);
  when_logic : option ArtoLogic
}.

Inductive StatesScope := scope_global | scope_variant | scope_all.

Record ArtoRuleRemove := {
  remove_variants : option (list string);
  remove_states : option (list string);
  remove_statesScope : option StatesScope;
  remove_base : bool
}.

Record ArtoRule := {
  when : ArtoRuleWhen;
  remove : option ArtoRuleRemove;
  add : option value
}.

Record ArtoConfig := {
  cfg_className : option value;
  cfg_variants : option VariantOptions;
  cfg_states : option StatesOptions;
  cfg_rules : option (list ArtoRule);
  cfg_defaultVariants : option Variants
}.

End Config.

Arguments DependsOnList {Ctx} l.
Arguments StateClass {Ctx} c.
Arguments VariantClass {Ctx} c.
Arguments LogicOp {Ctx} op.
Arguments LogicObj {Ctx} o.

(** Truthiness of the entries above (objects are truthy). *)
Definition truthy_opt (v : option value) : bool :=
  match v with Some v => truthy v | None => false end.

Definition StateInput_truthy {Ctx} (s : StateInput Ctx) : bool :=
  match s with StateClass c => truthy c | StateCfg _ => true end.

Definition VariantInput_truthy {Ctx} (v : VariantInput Ctx) : bool :=
  match v with VariantClass c => truthy c | VariantCfg _ => true end.

(* ====================================================================== *)
(** ** Properties a plain object inherits *)

(** The methods of [Object.prototype].  They are function values like any
    callback; the references from [builtin_refs] on are kept for them, the
    method at position [i] of the list having the reference
    [builtin_refs + i]. *)
Definition prototype_methods : list string :=
  ["constructor"; "__defineGetter__"; "__defineSetter__"; "hasOwnProperty";
   "__lookupGetter__"; "__lookupSetter__"; "isPrototypeOf";
   "propertyIsEnumerable"; "toString"; "valueOf"; "toLocaleString"].

Definition builtin_refs : fnid := 1000.

Fixpoint position (wanted : string) (names : list string) : option nat :=
  match names with
  | [] => None
  | n :: rest =>
      if String.eqb n wanted then Some 0
      else option_map S (position wanted rest)
  end.

(** [Object.prototype[key]]: one of the methods, for the accessor [__proto__]
    the prototype object itself, or [undefined]. *)
Definition inherited (key : string) : option value :=
  if String.eqb key "__proto__" then Some VObj
  else option_map (fun i => VFun (builtin_refs + i))
                  (position key prototype_methods).

(** [variantOptions[key]], [variantOptions] being a plain object: its own
    property, else what it inherits. *)
Definition lookup_entry {Ctx} (variantOptions : Js.obj (VariantInput Ctx))
           (key : string) : option (VariantInput Ctx) :=
  match Js.get variantOptions key with
  | Some entry => Some entry
  | None => option_map (fun v => VariantClass v) (inherited key)
  end.

(* ====================================================================== *)
(** ** ClassNameBuilder (classname-builder.ts) *)

Inductive PluginStage := before | core | after.

Definition PluginStage_eqb (a b : PluginStage) : bool :=
  match a, b with
  | before, before | core, core | after, after => true
  | _, _ => false
  end.

(** [ClassNameBuilder.stagePriority] *)
Definition stagePriority (s : PluginStage) : Z :=
  match s with before => 0 | core => 1 | after => 2 end.

(** [Array.prototype.sort(compare)], which the language defines to be stable:
    insertion from the right, an element going before the first one it does
    not exceed. *)
Section Sort.
Variable A : Type.
Variable compare : A -> A -> Z.

Fixpoint insert (x : A) (l : list A) : list A :=
  match l with
  | [] => [x]
  | y :: r => if (compare x y <=? 0)%Z then x :: y :: r else y :: insert x r
  end.

Fixpoint sort (l : list A) : list A :=
  match l with
  | [] => []
  | x :: r => insert x (sort r)
  end.
End Sort.

Section Builder.
Variable Ctx : Type.

(** The data fields of the builder. *)
Record Fields := {
  baseClassNames : list string;
  variantClassNames : Js.obj (list string);
  variantStateClassNames : Js.obj (Js.obj (list string));
  globalStateClassNames : Js.obj (list string);
  artoConfig : ArtoConfig Ctx;
  selectedVariants : Variants;
  activeStates : Js.jsset;
  context : option Ctx
}.

(** A queued callback [() => void] closes over the builder: it reads and
    rewrites the builder's data fields, or throws.  (A callback that itself
    queues callbacks is not represented.) *)
Definition Callback := Fields -> outcome Fields.

Record ClassNameBuilder := {
  fields : Fields;
  postCoreCallbacks : list Callback;
  finalBuildCallbacks : list Callback
}.

(** plugin-interface.ts.  [apply] is the synchronous effect of the plugin on
    the builder; [build] discards what [apply] returns. *)
Record Plugin := {
  id : string;
  stage : option PluginStage;
  order : option Z;
  apply : ClassNameBuilder -> outcome ClassNameBuilder
}.

(** *** Field updates *)

Definition set_baseClassNames (v : list string) (f : Fields) : Fields :=
  {| baseClassNames := v;
     variantClassNames := variantClassNames f;
     variantStateClassNames := variantStateClassNames f;
     globalStateClassNames := globalStateClassNames f;
     artoConfig := artoConfig f;
     selectedVariants := selectedVariants f;
     activeStates := activeStates f;
     context := context f |}.

Definition set_variantClassNames (v : Js.obj (list string)) (f : Fields) : Fields :=
  {| baseClassNames := baseClassNames f;
     variantClassNames := v;
     variantStateClassNames := variantStateClassNames f;
     globalStateClassNames := globalStateClassNames f;
     artoConfig := artoConfig f;
     selectedVariants := selectedVariants f;
     activeStates := activeStates f;
     context := context f |}.

Definition set_variantStateClassNames (v : Js.obj (Js.obj (list string)))
           (f : Fields) : Fields :=
  {| baseClassNames := baseClassNames f;
     variantClassNames := variantClassNames f;
     variantStateClassNames := v;
     globalStateClassNames := globalStateClassNames f;
     artoConfig := artoConfig f;
     selectedVariants := selectedVariants f;
     activeStates := activeStates f;
     context := context f |}.

Definition set_globalStateClassNames (v : Js.obj (list string)) (f : Fields) : Fields :=
  {| baseClassNames := baseClassNames f;
     variantClassNames := variantClassNames f;
     variantStateClassNames := variantStateClassNames f;
     globalStateClassNames := v;
     artoConfig := artoConfig f;
     selectedVariants := selectedVariants f;
     activeStates := activeStates f;
     context := context f |}.

Definition set_selectedVariants (v : Variants) (f : Fields) : Fields :=
  {| baseClassNames := baseClassNames f;
     variantClassNames := variantClassNames f;
     variantStateClassNames := variantStateClassNames f;
     globalStateClassNames := globalStateClassNames f;
     artoConfig := artoConfig f;
     selectedVariants := v;
     activeStates := activeStates f;
     context := context f |}.

Definition set_activeStates (v : Js.jsset) (f : Fields) : Fields :=
  {| baseClassNames := baseClassNames f;
     variantClassNames := variantClassNames f;
     variantStateClassNames := variantStateClassNames f;
     globalStateClassNames := globalStateClassNames f;
     artoConfig := artoConfig f;
     selectedVariants := selectedVariants f;
     activeStates := v;
     context := context f |}.

Definition with_fields (g : Fields -> Fields) (b : ClassNameBuilder)
  : ClassNameBuilder :=
  {| fields := g (fields b);
     postCoreCallbacks := postCoreCallbacks b;
     finalBuildCallbacks := finalBuildCallbacks b |}.

(** [o[k]] for a bucket, an absent one read as empty. *)
Definition bucket (o : Js.obj (list string)) (k : string) : list string :=
  match Js.get o k with Some l => l | None => [] end.

(** *** Callbacks *)

Definition addPostCoreCallback (callback : Callback) (b : ClassNameBuilder)
  : ClassNameBuilder :=
  {| fields := fields b;
     postCoreCallbacks := postCoreCallbacks b ++ [callback];
     finalBuildCallbacks := finalBuildCallbacks b |}.

Definition addFinalBuildCallback (callback : Callback) (b : ClassNameBuilder)
  : ClassNameBuilder :=
  {| fields := fields b;
     postCoreCallbacks := postCoreCallbacks b;
     finalBuildCallbacks := finalBuildCallbacks b ++ [callback] |}.

(** *** Base classes *)

Definition addBaseClasses (classNames : list string) :=
  with_fields (fun f => set_baseClassNames (baseClassNames f ++ classNames) f).

Definition clearBaseClasses :=
  with_fields (set_baseClassNames []).

Definition getBaseClasses (b : ClassNameBuilder) : list string :=
  baseClassNames (fields b).

(** *** Variant classes *)

Definition addVariantClasses (variantKey : string) (classNames : list string) :=
  with_fields (fun f =>
    set_variantClassNames
      (Js.set (variantClassNames f) variantKey
              (bucket (variantClassNames f) variantKey ++ classNames)) f).

Definition replaceVariantClasses (variantKey : string) (classNames : list string) :=
  with_fields (fun f =>
    set_variantClassNames (Js.set (variantClassNames f) variantKey classNames) f).

Definition clearVariantClasses (variantKey : string) :=
  with_fields (fun f =>
    set_variantClassNames (Js.set (variantClassNames f) variantKey []) f).

Definition getVariantClassMap (b : ClassNameBuilder) : Js.obj (list string) :=
  variantClassNames (fields b).

(** *** Global state classes *)

Definition addGlobalStateClasses (state : string) (classNames : list string) :=
  with_fields (fun f =>
    set_globalStateClassNames
      (Js.set (globalStateClassNames f) state
              (bucket (globalStateClassNames f) state ++ classNames)) f).

Definition replaceGlobalStateClasses (state : string) (classNames : list string) :=
  with_fields (fun f =>
    set_globalStateClassNames (Js.set (globalStateClassNames f) state classNames) f).

Definition clearGlobalStateClasses (state : string) :=
  with_fields (fun f =>
    set_globalStateClassNames (Js.set (globalStateClassNames f) state []) f).

Definition getGlobalStateClassesFor (state : string) (b : ClassNameBuilder)
  : list string :=
  bucket (globalStateClassNames (fields b)) state.

(** *** Variant-level state classes *)

Definition stateMapOf (o : Js.obj (Js.obj (list string))) (variantKey : string)
  : Js.obj (list string) :=
  match Js.get o variantKey with Some m => m | None => [] end.

Definition addVariantStateClasses (variantKey state : string)
           (classNames : list string) :=
  with_fields (fun f =>
    let m := stateMapOf (variantStateClassNames f) variantKey in
    set_variantStateClassNames
      (Js.set (variantStateClassNames f) variantKey
              (Js.set m state (bucket m state ++ classNames))) f).

Definition replaceVariantStateClasses (variantKey state : string)
           (classNames : list string) :=
  with_fields (fun f =>
    let m := stateMapOf (variantStateClassNames f) variantKey in
    set_variantStateClassNames
      (Js.set (variantStateClassNames f) variantKey (Js.set m state classNames)) f).

Definition clearVariantStateClasses (variantKey state : string) :=
  with_fields (fun f =>
    match Js.get (variantStateClassNames f) variantKey with
    | Some m =>
        set_variantStateClassNames
          (Js.set (variantStateClassNames f) variantKey (Js.set m state [])) f
    | None => f
    end).

Definition getVariantStateClasses (variantKey state : string)
           (b : ClassNameBuilder) : list string :=
  bucket (stateMapOf (variantStateClassNames (fields b)) variantKey) state.

(** *** Getters and setters *)

Definition getArtoConfig (b : ClassNameBuilder) := artoConfig (fields b).
Definition getSelectedVariants (b : ClassNameBuilder) := selectedVariants (fields b).
Definition setSelectedVariants (variants : Variants) := with_fields (set_selectedVariants variants).
Definition getActiveStates (b : ClassNameBuilder) := activeStates (fields b).
Definition setActiveStates (states : Js.jsset) := with_fields (set_activeStates states).
Definition getContext (b : ClassNameBuilder) := context (fields b).

Definition getAllClasses (b : ClassNameBuilder) : list string :=
  baseClassNames (fields b)
  ++ flat_map (fun kv => snd kv) (variantClassNames (fields b))
  ++ flat_map (fun st => getGlobalStateClassesFor st b) (activeStates (fields b))
  ++ flat_map (fun variantKey =>
                 flat_map (fun st => getVariantStateClasses variantKey st b)
                          (activeStates (fields b)))
              (Js.keys (selectedVariants (fields b))).

(** *** Constructor *)

(** The defaults written into each plugin. *)
Definition with_defaults (p : Plugin) : Plugin :=
  {| id := id p;
     stage := Some (match stage p with Some s => s | None => core end);
     order := Some (match order p with Some n => n | None => 0%Z end);
     apply := apply p |}.

Definition stage_of (p : Plugin) : PluginStage :=
  match stage p with Some s => s | None => core end.

Definition order_of (p : Plugin) : Z :=
  match order p with Some n => n | None => 0%Z end.

(** The comparator given to [rawPlugins.sort]. *)
Definition compare_plugins (a b : Plugin) : Z :=
  let stageDiff := (stagePriority (stage_of a) - stagePriority (stage_of b))%Z in
  if negb (stageDiff =? 0)%Z then stageDiff
  else (order_of a - order_of b)%Z.

(** A constructed builder: its state and its sorted plugin list. *)
Record Instance := {
  builder : ClassNameBuilder;
  allPlugins : list Plugin
}.

Definition new_ClassNameBuilder (artoConfig : ArtoConfig Ctx)
           (selectedVariants : Variants) (activeStates : Js.jsset)
           (context : option Ctx) (plugins : option (list Plugin)) : Instance :=
  let rawPlugins := match plugins with Some ps => ps | None => [] end in
  let rawPlugins := map with_defaults rawPlugins in
  let rawPlugins := sort compare_plugins rawPlugins in
  {| builder :=
       {| fields :=
            {| baseClassNames := [];
               variantClassNames := [];
               variantStateClassNames := [];
               globalStateClassNames := [];
               artoConfig := artoConfig;
               selectedVariants := selectedVariants;
               activeStates := activeStates;
               context := context |};
          postCoreCallbacks := [];
          finalBuildCallbacks := [] |};
     allPlugins := rawPlugins |}.

(** *** build() *)

(** [for (const plugin of this.allPlugins) if (plugin.stage === s) plugin.apply(this)] *)
Fixpoint run_stage (s : PluginStage) (plugins : list Plugin) (b : ClassNameBuilder)
  : outcome ClassNameBuilder :=
  match plugins with
  | [] => Done b
  | plugin :: rest =>
      match stage plugin with
      | Some s' =>
          if PluginStage_eqb s' s
          then let* b' := apply plugin b in run_stage s rest b'
          else run_stage s rest b
      | None => run_stage s rest b
      end
  end.

(** [for (const cb of callbacks) cb()] *)
Fixpoint run_callbacks (callbacks : list Callback) (f : Fields) : outcome Fields :=
  match callbacks with
  | [] => Done f
  | cb :: rest => let* f' := cb f in run_callbacks rest f'
  end.

Definition flush (queue : ClassNameBuilder -> list Callback) (b : ClassNameBuilder)
  : outcome ClassNameBuilder :=
  let* f := run_callbacks (queue b) (fields b) in
  Done (with_fields (fun _ => f) b).

(** The concatenation that ends [build()]. *)
Definition finalList (f : Fields) : list string :=
  baseClassNames f
  ++ flat_map (fun kv => snd kv) (variantClassNames f)
  ++ flat_map (fun kv =>
                 let stateMap := snd kv in
                 flat_map (fun st =>
                             match Js.get stateMap st with
                             | Some classes => classes
                             | None => []
                             end)
                          (activeStates f))
              (variantStateClassNames f)
  ++ flat_map (fun kv => snd kv) (globalStateClassNames f).

(** The five loops that precede it. *)
Definition run_plugins (this : Instance) : outcome ClassNameBuilder :=
  let* b := run_stage before (allPlugins this) (builder this) in
  let* b := run_stage core (allPlugins this) b in
  let* b := flush postCoreCallbacks b in
  let* b := run_stage after (allPlugins this) b in
  flush finalBuildCallbacks b.

Definition build (this : Instance) : outcome (list string) :=
  let* b := run_plugins this in
  Done (finalList (fields b)).

End Builder.

(* ====================================================================== *)
(** ** Built-in plugins (plugins/*.ts) *)

Section Plugins.
Variable Ctx : Type.
Variable call : fnid -> option Ctx -> completion.
Variable fuel : nat.

Let Builder := ClassNameBuilder Ctx.

Definition normalizeClassName (classInput : value) (context : option Ctx)
  : outcome (list string) :=
  Normalize.normalizeClassName call context fuel classInput.

(** *** base-classname-plugin.ts *)

Definition BaseClassNamePlugin_apply (builder : Builder) : outcome Builder :=
  let artoConfig := getArtoConfig builder in
  let context := getContext builder in
  match cfg_className artoConfig with
  | Some className =>
      if truthy className then
        let* baseClassList := normalizeClassName className context in
        Done (addBaseClasses baseClassList builder)
      else Done builder
  | None => Done builder
  end.

Definition BaseClassNamePlugin (order : Z) : Plugin Ctx :=
  {| id := "arto/Internal/AddBaseClassesPlugin";
     stage := Some core;
     order := Some order;
     apply := BaseClassNamePlugin_apply |}.

(** *** states-plugin.ts *)

Definition isStateConfig (config : StateInput Ctx) : bool :=
  match config with StateCfg _ => true | StateClass _ => false end.

Definition StateInput_isClassNameType (config : StateInput Ctx) : bool :=
  match config with StateClass c => isClassNameType c | StateCfg _ => false end.

Definition extractStateClassName (config : StateInput Ctx) : outcome value :=
  match config with
  | StateCfg c => Done (sc_className c)
  | StateClass c =>
      if isClassNameType c then Done c
      else throwError
             "Invalid configuration for className. Expected ClassName or StateConfig."
  end.

Definition dependency_holds (activeStates : Js.jsset) (dependency : DependencyItem)
  : bool :=
  match dependency with
  | Requires st => Js.has activeStates st
  | NotAny (Some sts) => negb (existsb (fun st => Js.has activeStates st) sts)
  | NotAny None => true
  end.

Definition checkStateDependencies (dependsOn : option (StateDependency Ctx))
           (activeStates : Js.jsset) (context : option Ctx) : bool :=
  match dependsOn with
  | None => true
  | Some (DependsOnFn f) => f activeStates context
  | Some (DependsOnList l) => forallb (dependency_holds activeStates) l
  end.

Definition dependsOn_of (config : StateInput Ctx) : option (StateDependency Ctx) :=
  match config with StateCfg c => sc_dependsOn c | StateClass _ => None end.

(** The body of [for (const state of activeStates)]. *)
Definition StatesPlugin_step (stateConfigs : StatesOptions Ctx)
           (activeStates : Js.jsset) (context : option Ctx)
           (state : string) (builder : Builder) : outcome Builder :=
  match Js.get stateConfigs state with
  | None => Done builder
  | Some stateConfig =>
      if negb (StateInput_truthy stateConfig) then Done builder
      else if isStateConfig stateConfig
              && negb (checkStateDependencies (dependsOn_of stateConfig)
                                              activeStates context)
      then Done builder
      else
        let* className := extractStateClassName stateConfig in
        let* newClassNames := normalizeClassName className context in
        Done (addGlobalStateClasses state newClassNames builder)
  end.

Fixpoint StatesPlugin_loop (stateConfigs : StatesOptions Ctx)
         (activeStates : Js.jsset) (context : option Ctx)
         (states : list string) (builder : Builder) : outcome Builder :=
  match states with
  | [] => Done builder
  | state :: rest =>
      let* builder := StatesPlugin_step stateConfigs activeStates context
                                        state builder in
      StatesPlugin_loop stateConfigs activeStates context rest builder
  end.

Definition StatesPlugin_apply (stateConfigs : StatesOptions Ctx)
           (builder : Builder) : outcome Builder :=
  let activeStates := getActiveStates builder in
  let context := getContext builder in
  StatesPlugin_loop stateConfigs activeStates context activeStates builder.

Definition StatesPlugin (stateConfigs : StatesOptions Ctx) (order : Z) : Plugin Ctx :=
  {| id := "arto/Internal/ApplyStateClassesPlugin";
     stage := Some core;
     order := Some order;
     apply := StatesPlugin_apply stateConfigs |}.

(** *** variants-plugin.ts *)

(** The body of [for (const [stateName, stateInput] of Object.entries(statesObj))]. *)
Definition mergeVariantStates_step (variantKey : string)
           (activeStates : Js.jsset) (context : option Ctx)
           (entry : string * StateInput Ctx) (builder : Builder)
  : outcome Builder :=
  let (stateName, stateInput) := entry in
  if negb (StateInput_truthy stateInput) then Done builder
  else
    match stateInput with
    | StateClass c =>
        if isClassNameType c then
          let* classList := normalizeClassName c context in
          Done (addVariantStateClasses variantKey stateName classList builder)
        else
          throwError ("Invalid state config for state '" ++ stateName ++ "' ...")%string
    | StateCfg cfg =>
        if negb (checkStateDependencies (sc_dependsOn cfg) activeStates context)
        then Done builder
        else
          let* newClassList := normalizeClassName (sc_className cfg) context in
          Done (replaceVariantStateClasses variantKey stateName newClassList builder)
    end.

Fixpoint mergeVariantStates_loop (variantKey : string)
         (activeStates : Js.jsset) (context : option Ctx)
         (entries : list (string * StateInput Ctx)) (builder : Builder)
  : outcome Builder :=
  match entries with
  | [] => Done builder
  | entry :: rest =>
      let* builder := mergeVariantStates_step variantKey activeStates context
                                              entry builder in
      mergeVariantStates_loop variantKey activeStates context rest builder
  end.

Definition mergeVariantStates (variantKey : string) (statesObj : StatesOptions Ctx)
           (builder : Builder) (context : option Ctx) : outcome Builder :=
  let activeStates := getActiveStates builder in
  mergeVariantStates_loop variantKey activeStates context statesObj builder.

(** Returns the classes of the variant and the builder as [mergeVariantStates]
    left it. *)
Definition processVariantConfig (variantKey : string)
           (variantConfig : VariantInput Ctx) (builder : Builder)
           (context : option Ctx) : outcome (list string * Builder) :=
  match variantConfig with
  | VariantClass c =>
      if isClassNameType c then
        let* classes := normalizeClassName c context in
        Done (classes, builder)
      else throwError "Invalid variant configuration item encountered."
  | VariantCfg cfg =>
      let* classes :=
        match vc_className cfg with
        | Some className =>
            if truthy className then normalizeClassName className context
            else Done []
        | None => Done []
        end in
      let* builder :=
        match vc_states cfg with
        | Some statesObj => mergeVariantStates variantKey statesObj builder context
        | None => Done builder
        end in
      Done (classes, builder)
  end.

Definition invalid_value_message (userChosenValue : VariantValue)
           (variantKey : string) : string :=
  ("Invalid value '" ++ String_of userChosenValue
     ++ "' for variant '" ++ variantKey ++ "'.")%string.

(** The body of [for (const variantKey of variantKeys)]. *)
Definition VariantsPlugin_step (variants : VariantOptions Ctx)
           (selectedVariants : Variants) (context : option Ctx)
           (variantKey : string) (builder : Builder) : outcome Builder :=
  match Js.get selectedVariants variantKey with
  | None | Some None => Done builder
  | Some (Some userChosenValue) =>
      match Js.get variants variantKey with
      | None | Some None => Done builder
      | Some (Some variantOptions) =>
          let variantConfig :=
            lookup_entry variantOptions (String_of userChosenValue) in
          match variantConfig with
          | Some variantConfig =>
              if VariantInput_truthy variantConfig then
                let* r := processVariantConfig variantKey variantConfig
                                               builder context in
                Done (addVariantClasses variantKey (fst r) (snd r))
              else throwError (invalid_value_message userChosenValue variantKey)
          | None => throwError (invalid_value_message userChosenValue variantKey)
          end
      end
  end.

Fixpoint VariantsPlugin_loop (variants : VariantOptions Ctx)
         (selectedVariants : Variants) (context : option Ctx)
         (variantKeys : list string) (builder : Builder) : outcome Builder :=
  match variantKeys with
  | [] => Done builder
  | variantKey :: rest =>
      let* builder := VariantsPlugin_step variants selectedVariants context
                                          variantKey builder in
      VariantsPlugin_loop variants selectedVariants context rest builder
  end.

Definition VariantsPlugin_apply (builder : Builder) : outcome Builder :=
  let artoConfig := getArtoConfig builder in
  let selectedVariants := getSelectedVariants builder in
  let context := getContext builder in
  match cfg_variants artoConfig with
  | None => Done builder
  | Some variants =>
      VariantsPlugin_loop variants selectedVariants context
                          (Js.keys variants) builder
  end.

Definition VariantsPlugin (order : Z) : Plugin Ctx :=
  {| id := "arto/Internal/ApplyVariantClassesPlugin";
     stage := Some core;
     order := Some order;
     apply := VariantsPlugin_apply |}.

(** *** rules-plugin.ts *)

(** [userValue != null && acceptedValues.includes(userValue)] *)
Definition variant_match (selectedVariants : Variants) (vKey : string)
           (acceptedValues : list VariantValue) : bool :=
  match Js.get selectedVariants vKey with
  | Some (Some userValue) => existsb (VariantValue_eqb userValue) acceptedValues
  | _ => false
  end.

Definition build_variantMatches
           (whenVariants : option (Js.obj (option (list VariantValue))))
           (selectedVariants : Variants) : Js.obj bool :=
  match whenVariants with
  | None => []
  | Some wv =>
      fold_left
        (fun variantMatches vKey =>
           match Js.get wv vKey with
           | Some (Some acceptedValues) =>
               Js.set variantMatches vKey
                      (variant_match selectedVariants vKey acceptedValues)
           | _ => variantMatches
           end)
        (Js.keys wv) []
  end.

Definition build_stateMatches (whenStates : option (list string))
           (activeStates : Js.jsset) : Js.obj bool :=
  match whenStates with
  | None => []
  | Some sts =>
      fold_left (fun stateMatches st => Js.set stateMatches st (Js.has activeStates st))
                sts []
  end.

Definition doesRuleApply (when : ArtoRuleWhen Ctx) (selectedVariants : Variants)
           (activeStates : Js.jsset) (context : option Ctx) : bool :=
  let variantMatches := build_variantMatches (when_variants when) selectedVariants in
  let stateMatches := build_stateMatches (when_states when) activeStates in
  let allBools := Js.values variantMatches ++ Js.values stateMatches in
  match when_logic when with
  | None => evaluateSimpleLogic allBools (Some AND)
  | Some (LogicOp op) => evaluateSimpleLogic allBools (Some op)
  | Some (LogicObj o) =>
      evaluateObjectLogic (Js.values variantMatches) (Js.values stateMatches) o
  | Some (LogicFn f) =>
      f {| variantMatches := variantMatches;
           stateMatches := stateMatches;
           meta_selectedVariants := selectedVariants;
           meta_activeStates := activeStates |} context
  end.

Definition scope_includes_global (scope : StatesScope) : bool :=
  match scope with scope_all | scope_global => true | scope_variant => false end.

Definition scope_includes_variant (scope : StatesScope) : bool :=
  match scope with scope_all | scope_variant => true | scope_global => false end.

Definition removeStuff (builder : Builder) (remove : ArtoRuleRemove) : Builder :=
  let builder :=
    match remove_variants remove with
    | Some vKeys =>
        fold_left (fun builder vKey => clearVariantClasses vKey builder) vKeys builder
    | None => builder
    end in
  let builder :=
    match remove_states remove with
    | Some sts =>
        let scope := match remove_statesScope remove with
                     | Some s => s | None => scope_all end in
        fold_left
          (fun builder st =>
             let builder :=
               if scope_includes_global scope
               then clearGlobalStateClasses st builder else builder in
             if scope_includes_variant scope
             then fold_left
                    (fun builder variantKey =>
                       clearVariantStateClasses variantKey st builder)
                    (Js.keys (getSelectedVariants builder)) builder
             else builder)
          sts builder
    | None => builder
    end in
  if remove_base remove then clearBaseClasses builder else builder.

(** The body of [for (const rule of artoConfig.rules)]. *)
Definition RulesPlugin_step (selectedVariants : Variants) (activeStates : Js.jsset)
           (context : option Ctx) (rule : ArtoRule Ctx) (builder : Builder)
  : outcome Builder :=
  if doesRuleApply (when rule) selectedVariants activeStates context then
    let builder :=
      match remove rule with
      | Some r => removeStuff builder r
      | None => builder
      end in
    match add rule with
    | Some a =>
        if truthy a then
          let* newClassNames := normalizeClassName a context in
          Done (addBaseClasses newClassNames builder)
        else Done builder
    | None => Done builder
    end
  else Done builder.

Fixpoint RulesPlugin_loop (selectedVariants : Variants) (activeStates : Js.jsset)
         (context : option Ctx) (rules : list (ArtoRule Ctx)) (builder : Builder)
  : outcome Builder :=
  match rules with
  | [] => Done builder
  | rule :: rest =>
      let* builder := RulesPlugin_step selectedVariants activeStates context
                                       rule builder in
      RulesPlugin_loop selectedVariants activeStates context rest builder
  end.

Definition RulesPlugin_apply (builder : Builder) : outcome Builder :=
  let artoConfig := getArtoConfig builder in
  match cfg_rules artoConfig with
  | None => Done builder
  | Some rules =>
      let activeStates := getActiveStates builder in
      let selectedVariants := getSelectedVariants builder in
      let context := getContext builder in
      RulesPlugin_loop selectedVariants activeStates context rules builder
  end.

Definition RulesPlugin (order : Z) : Plugin Ctx :=
  {| id := "arto/Internal/RulesPlugin";
     stage := Some core;
     order := Some order;
     apply := RulesPlugin_apply |}.

(* ==================================================================== *)
(** ** Entry point (utils/safe-merge-defaults.ts, utils/collect-true-keys.ts,
       arto.ts) *)

Definition safeMergeDefaults (defaults : Variants) (userVariants : option Variants)
  : Variants :=
  let userVariants := match userVariants with Some u => u | None => [] end in
  fold_left
    (fun final key =>
       match Js.get userVariants key with
       | Some (Some v) => Js.set final key (Some v)
       | _ => final
       end)
    (Js.keys userVariants) defaults.

(** [value === true] *)
Definition is_true (v : value) : bool :=
  match v with VBool true => true | _ => false end.

Definition collectTrueKeys (record : option (Js.obj value)) : Js.jsset :=
  match record with
  | None => []
  | Some record =>
      Js.of_list (map fst (filter (fun entry => is_true (snd entry)) record))
  end.

Record Options := {
  opt_variants : option Variants;
  opt_states : option (Js.obj value);
  opt_context : option Ctx
}.

(** The builder [arto(config, plugins)(options)] constructs; [hub] is what
    [pluginHub.getPlugins()] returns. *)
Definition arto_builder (config : ArtoConfig Ctx) (plugins : option (list (Plugin Ctx)))
           (hub : list (Plugin Ctx)) (options : option Options) : Instance Ctx :=
  let variants := match options with
                  | Some o => match opt_variants o with Some v => v | None => [] end
                  | None => [] end in
  let defaultVariants := match cfg_defaultVariants config with
                         | Some d => d | None => [] end in
  let states := match options with
                | Some o => match opt_states o with Some s => s | None => [] end
                | None => [] end in
  let context := match options with Some o => opt_context o | None => None end in
  let selectedVariants := safeMergeDefaults defaultVariants (Some variants) in
  let activeStates := collectTrueKeys (Some states) in
  let allPlugins := match plugins with Some ps => ps | None => [] end ++ hub in
  let internalPlugins :=
    (if truthy_opt (cfg_className config) then [BaseClassNamePlugin 0] else [])
    ++ (match cfg_variants config with Some _ => [VariantsPlugin 0] | None => [] end)
    ++ (match cfg_states config with
        | Some states => [StatesPlugin states 0] | None => [] end)
    ++ (match cfg_rules config with
        | Some rules =>
            if (0 <? List.length rules)%nat then [RulesPlugin 3] else []
        | None => [] end) in
  let mergedPlugins := allPlugins ++ internalPlugins in
  new_ClassNameBuilder config selectedVariants activeStates context
                       (Some mergedPlugins).

Definition arto (config : ArtoConfig Ctx) (plugins : option (list (Plugin Ctx)))
           (hub : list (Plugin Ctx)) (options : option Options) : outcome string :=
  let* classList := build (arto_builder config plugins hub options) in
  Done (String.concat " " classList).

End Plugins.

(* ====================================================================== *)
(** ** PluginRegistry (plugin-interface.ts) *)

Section Registry.
Variable Ctx : Type.

(** [this.plugins.findIndex((p) => p.id === id)]; [None] is -1. *)
Fixpoint findIndex (wanted : string) (plugins : list (Plugin Ctx)) : option nat :=
  match plugins with
  | [] => None
  | p :: rest =>
      if String.eqb (id p) wanted then Some 0
      else match findIndex wanted rest with
           | Some i => Some (S i)
           | None => None
           end
  end.

(** [this.plugins.splice(index, 1)] *)
Fixpoint splice1 (index : nat) (plugins : list (Plugin Ctx)) : list (Plugin Ctx) :=
  match plugins, index with
  | [], _ => []
  | _ :: rest, O => rest
  | p :: rest, S i => p :: splice1 i rest
  end.

Definition unregister (wanted : string) (plugins : list (Plugin Ctx))
  : list (Plugin Ctx) :=
  match findIndex wanted plugins with
  | Some index => splice1 index plugins
  | None => plugins
  end.

(** [register]: the registry it leaves and the error it throws, if any.
    [production] is [process.env.NODE_ENV === 'production']. *)
Definition register (production : bool) (plugin : Plugin Ctx)
           (plugins : list (Plugin Ctx)) : list (Plugin Ctx) * option error :=
  if negb (Normalize.nonempty (id plugin)) && negb production
  then (plugins, Some (ArtoError "Plugin must have a non-empty id."))
  else
    let plugins :=
      match findIndex (id plugin) plugins with
      | Some _ => unregister (id plugin) plugins
      | None => plugins
      end in
    (plugins ++ [plugin], None).

(** [for (const plugin of plugins) this.register(plugin)]: a throw ends the
    loop, what was registered before it stays. *)
Fixpoint registerBatch (production : bool) (batch : list (Plugin Ctx))
         (plugins : list (Plugin Ctx)) : list (Plugin Ctx) * option error :=
  match batch with
  | [] => (plugins, None)
  | plugin :: rest =>
      match register production plugin plugins with
      | (plugins', None) => registerBatch production rest plugins'
      | (plugins', Some e) => (plugins', Some e)
      end
  end.

Definition getPlugins (plugins : list (Plugin Ctx)) : list (Plugin Ctx) := plugins.

Definition getByStage (wanted : PluginStage) (plugins : list (Plugin Ctx))
  : list (Plugin Ctx) :=
  filter (fun plugin =>
            match stage plugin with
            | Some s => PluginStage_eqb s wanted
            | None => false
            end) plugins.

Definition clear (plugins : list (Plugin Ctx)) : list (Plugin Ctx) := [].

(** The registry after a builder was constructed over its plugins, as every
    call [arto(config, plugins)(options)] does: [getPlugins] hands out the
    plugin objects themselves in a new array, and the constructor's loop
    [if (!p.stage) p.stage = 'core'; if (typeof p.order !== 'number') p.order = 0]
    writes into these objects.  The registry keeps its order. *)
Definition after_construction (plugins : list (Plugin Ctx)) : list (Plugin Ctx) :=
  map (@with_defaults Ctx) plugins.

End Registry.

(* ====================================================================== *)
(** * Notions used by the statements *)

(** "Exactly one entry is true": the list is one [true] between two runs of
    [false]. *)
Definition exactly_one_true (l : list bool) : Prop :=
  exists l1 l2, l = l1 ++ true :: l2
                /\ (forall c, In c l1 -> c = false)
                /\ (forall c, In c l2 -> c = false).

(** The tokens of a class expression without callbacks, read depth-first and
    left to right: the words of each string, nested arrays in place; anything
    else contributes nothing. *)
Fixpoint flatten (v : value) : list string :=
  match v with
  | VStr s => Normalize.fragments s
  | VArr items => flat_map flatten items
  | _ => []
  end.

(** Each distinct token once, at the position of its first occurrence. *)
Fixpoint distinct (l : list string) : list string :=
  match l with
  | [] => []
  | x :: r => x :: filter (fun y => negb (String.eqb y x)) (distinct r)
  end.

(** No callback occurs in the value. *)
Fixpoint callback_free (v : value) : bool :=
  match v with
  | VFun _ => false
  | VArr items => forallb callback_free items
  | _ => true
  end.

(** Number of nodes of a value: a bound on the iterations it costs. *)
Fixpoint size (v : value) : nat :=
  match v with
  | VArr items => S (list_sum (map size items))
  | _ => 1
  end.

(** The whitespace of the language among the code units below 256: tab, line
    feed, vertical tab, form feed, carriage return, space, no-break space. *)
Definition whitespace_codes : list nat := [9; 10; 11; 12; 13; 32; 160].

Definition whitespace (c : ascii) : bool :=
  existsb (Nat.eqb (nat_of_ascii c)) whitespace_codes.

Arguments whitespace : simpl never.

(** A string that is one token: not empty, no whitespace. *)
Fixpoint no_space (s : string) : bool :=
  match s with
  | EmptyString => true
  | String c r => negb (whitespace c) && no_space r
  end.

(** A run of whitespace, possibly empty. *)
Fixpoint spaces (s : string) : bool :=
  match s with
  | EmptyString => true
  | String c r => whitespace c && spaces r
  end.

(** A token followed by the run of whitespace that ends it. *)
Definition separated (piece : string * string) : Prop :=
  (fst piece <> "" /\ no_space (fst piece) = true)
  /\ snd piece <> "" /\ spaces (snd piece) = true.

(** The text [lead t1 sep1 ... tn sepn last]. *)
Definition laid_out (lead : string) (pieces : list (string * string))
           (last : string) : string :=
  (lead ++ fold_right (fun piece rest => fst piece ++ snd piece ++ rest)
                      last pieces)%string.

(** Tab and line feed. *)
Definition tab : ascii := ascii_of_nat 9.
Definition line_feed : ascii := ascii_of_nat 10.

Definition single_token (s : string) : Prop :=
  s <> "" /\ no_space s = true.

(** Every callback reference in the value belongs to [refs]. *)
Fixpoint refs_in (refs : list fnid) (v : value) : bool :=
  match v with
  | VFun f => existsb (Nat.eqb f) refs
  | VArr items => forallb (refs_in refs) items
  | _ => true
  end.

(** The callbacks of [refs] only ever return values whose callback
    references are in [refs]: no other callback can be reached. *)
Definition closed_under {Ctx} (call : fnid -> option Ctx -> completion)
           (context : option Ctx) (refs : list fnid) : Prop :=
  forall f v, In f refs -> call f context = Returns v -> refs_in refs v = true.

(** Size of what a callback returns. *)
Definition returned_size {Ctx} (call : fnid -> option Ctx -> completion)
           (context : option Ctx) (f : fnid) : nat :=
  match call f context with
  | Returns v => size v
  | Throws _ => 0
  end.

(** Fuel that suffices for an input whose callbacks are among [refs]. *)
Definition enough_fuel {Ctx} (call : fnid -> option Ctx -> completion)
           (context : option Ctx) (refs : list fnid) (v : value) : nat :=
  size v + list_sum (map (returned_size call context) (nodup Nat.eq_dec refs)).

(** What is left to do: the nodes on the stack and what the callbacks not yet
    invoked may still return. *)
Definition remaining {Ctx} (call : fnid -> option Ctx -> completion)
           (context : option Ctx) (refs : list fnid)
           (stack : list value) (seen : list fnid) : nat :=
  list_sum (map size stack)
  + list_sum (map (returned_size call context)
                  (filter (fun g => negb (Normalize.seen_has seen g))
                          (nodup Nat.eq_dec refs))).

(** Two callbacks returning one another. *)
Definition mutual_cycle : fnid -> option unit -> completion :=
  fun f _ => Returns (VFun (1 - f)).

(** A callback table in which every call returns a callback never seen
    before: [() => fresh()], each closure a new reference. *)
Definition fresh_chain : fnid -> option unit -> completion :=
  fun f _ => Returns (VFun (S f)).

(** The loop never ends, whatever fuel it is given. *)
Definition diverges {Ctx} (call : fnid -> option Ctx -> completion)
           (context : option Ctx) (v : value) : Prop :=
  forall fuel, Normalize.run call context fuel v = OutOfFuel.

(** [a] is not after [b]: earlier stage, or same stage and priority not
    greater. *)
Definition plugin_le {Ctx} (a b : Plugin Ctx) : Prop :=
  (stagePriority (stage_of a) < stagePriority (stage_of b))%Z
  \/ (stagePriority (stage_of a) = stagePriority (stage_of b)
      /\ (order_of a <= order_of b)%Z).

(** The plugin has stage [s] and priority [o]. *)
Definition same_keys {Ctx} (s : PluginStage) (o : Z) (p : Plugin Ctx) : bool :=
  PluginStage_eqb (stage_of p) s && (order_of p =? o)%Z.

(** [plugin.stage === s] *)
Definition has_stage {Ctx} (s : PluginStage) (p : Plugin Ctx) : bool :=
  match stage p with
  | Some s' => PluginStage_eqb s' s
  | None => false
  end.

(** Apply the plugins one after the other. *)
Fixpoint run_all {Ctx} (plugins : list (Plugin Ctx)) (b : ClassNameBuilder Ctx)
  : outcome (ClassNameBuilder Ctx) :=
  match plugins with
  | [] => Done b
  | p :: rest => let* b' := apply p b in run_all rest b'
  end.

(** A plugin of the given stage and priority that appends one class to the
    base bucket. *)
Definition appending {Ctx} (name : string) (s : option PluginStage) (o : option Z)
           (cls : string) : Plugin Ctx :=
  {| id := name; stage := s; order := o;
     apply := fun b => Done (addBaseClasses [cls] b) |}.

(** The empty configuration [{}]. *)
Definition empty_config {Ctx} : ArtoConfig Ctx :=
  {| cfg_className := None; cfg_variants := None; cfg_states := None;
     cfg_rules := None; cfg_defaultVariants := None |}.

(** A table for configurations without callbacks. *)
Definition no_callbacks : fnid -> option unit -> completion :=
  fun _ _ => Returns VUndefined.

(** The list the specification describes for [build]: as [finalList], but
    with the global-state buckets restricted to the active states. *)
Definition finalList_active_only {Ctx} (f : Fields Ctx) : list string :=
  baseClassNames f
  ++ flat_map (fun kv => snd kv) (variantClassNames f)
  ++ flat_map (fun kv =>
                 flat_map (fun st => bucket (snd kv) st) (activeStates f))
              (variantStateClassNames f)
  ++ flat_map (fun kv => if Js.has (activeStates f) (fst kv) then snd kv else [])
              (globalStateClassNames f).

(** A default-stage plugin that fills the global-state bucket of a state. *)
Definition global_state_plugin {Ctx} (state : string) (classNames : list string)
  : Plugin Ctx :=
  {| id := "global-state"; stage := None; order := None;
     apply := fun b => Done (addGlobalStateClasses state classNames b) |}.

(** A builder for the empty configuration, no selection, no active state and
    one plugin that adds 'bg-hover' for the state 'hover'. *)
Definition inactive_hover : Instance unit :=
  new_ClassNameBuilder empty_config [] [] None
                       (Some [global_state_plugin "hover" ["bg-hover"]]).

(** A default-stage plugin that puts the same class in the base bucket and in
    a variant bucket. *)
Definition twice_plugin {Ctx} (cls : string) : Plugin Ctx :=
  {| id := "twice"; stage := None; order := None;
     apply := fun b => Done (addVariantClasses "size" [cls] (addBaseClasses [cls] b)) |}.

(** [when: {}] *)
Definition empty_when {Ctx} : ArtoRuleWhen Ctx :=
  {| when_variants := None; when_states := None; when_logic := None |}.



(** The errors [processVariantConfig] can raise: a callback failure wrapped
    by the normalizer, an entry that is neither class name nor variant
    configuration, a nested state entry of unknown shape. *)
Definition processing_error (e : error) : Prop :=
  (exists msg, e = ArtoError ("Error resolving class function: " ++ msg)%string)
  \/ e = ArtoError "Invalid variant configuration item encountered."
  \/ (exists stateName,
         e = ArtoError ("Invalid state config for state '" ++ stateName ++ "' ...")%string).

(** What [variantOptions[userChosenValue]] yields is falsy: no such property,
    or a falsy class expression. *)
Definition entry_falsy {Ctx} (entry : option (VariantInput Ctx)) : Prop :=
  match entry with
  | None => True
  | Some e => VariantInput_truthy e = false
  end.

(** [{ variants: { size: { small: 'btn-sm', large: 'btn-lg', none: '' } } }] *)
Definition config_size {Ctx} : ArtoConfig Ctx :=
  {| cfg_className := None;
     cfg_variants :=
       Some [("size", Some [("small", VariantClass (VStr "btn-sm"));
                            ("large", VariantClass (VStr "btn-lg"));
                            ("none", VariantClass (VStr ""))])];
     cfg_states := None;
     cfg_rules := None;
     cfg_defaultVariants := None |}.

(** The call [{ variants: { size: v } }]. *)
Definition select_size {Ctx} (v : option VariantValue) : option (Options Ctx) :=
  Some {| opt_variants := Some [("size", v)];
          opt_states := None;
          opt_context := None |}.

(** [options?.variants ?? {}], [options?.states ?? {}] and
    [config.defaultVariants ?? {}]. *)
Definition requested_variants {Ctx} (options : option (Options Ctx)) : Variants :=
  match options with
  | Some o => match opt_variants o with Some v => v | None => [] end
  | None => []
  end.

Definition requested_states {Ctx} (options : option (Options Ctx)) : Js.obj value :=
  match options with
  | Some o => match opt_states o with Some s => s | None => [] end
  | None => []
  end.

Definition configured_defaults {Ctx} (config : ArtoConfig Ctx) : Variants :=
  match cfg_defaultVariants config with Some d => d | None => [] end.





(** The call [{ states: { hovered: true, a: a, b: b } }]. *)
Definition with_states {Ctx} (a b : bool) : option (Options Ctx) :=
  Some {| opt_variants := None;
          opt_states := Some [("hovered", VBool true); ("a", VBool a); ("b", VBool b)];
          opt_context := None |}.

(** The non-empty fragments of a string, computed in one pass; [frag] is the
    fragment being read. *)
Fixpoint words (s : string) (frag : string) : list string :=
  match s with
  | EmptyString => filter Normalize.nonempty [frag]
  | String c r =>
      if Normalize.is_space c then filter Normalize.nonempty [frag] ++ words r ""
      else words r (frag ++ String c "")%string
  end.

(** The tests of the body of the states loop, as one boolean. *)
Definition applies {Ctx} (act : Js.jsset) (ctx : option Ctx) (e : StateInput Ctx)
  : bool :=
  StateInput_truthy e && checkStateDependencies (dependsOn_of e) act ctx.

(** The plugin has no stage of its own. *)
Definition unstaged {Ctx} (p : Plugin Ctx) : bool :=
  match stage p with Some _ => false | None => true end.


(** [when.variants[k]] is an array of accepted values. *)
Definition has_accepted (wv : Js.obj (option (list VariantValue))) (k : string)
  : bool :=
  match Js.get wv k with Some (Some _) => true | _ => false end.

(** The match boolean of the variant key [k]. *)
Definition accepted_match (wv : Js.obj (option (list VariantValue)))
           (sel : Variants) (k : string) : bool :=
  match Js.get wv k with
  | Some (Some accepted) =>
      match Js.get sel k with
      | Some (Some userValue) => existsb (VariantValue_eqb userValue) accepted
      | _ => false
      end
  | _ => false
  end.

(** The selection holds, for [k], a value that is one of [accepted]. *)
Definition selected_among (sel : Variants) (k : string)
           (accepted : list VariantValue) : Prop :=
  exists v, Js.get sel k = Some (Some v) /\ In v accepted.

(** A logic object with the same operator in its three places. *)
Definition logic_all (op : option LogicOperator) : ArtoLogicObject :=
  {| lo_variants := op; lo_states := op; lo_combine := op |}.

(** A [when] with the given parts. *)
Definition when_of {Ctx} (wv : option (Js.obj (option (list VariantValue))))
           (ws : option (list string)) (logic : option (ArtoLogic Ctx))
  : ArtoRuleWhen Ctx :=
  {| when_variants := wv; when_states := ws; when_logic := logic |}.

(** [b'] has the configuration, the selection, the active states, the context
    and the two callback queues of [b]. *)
Definition kept {Ctx} (b b' : ClassNameBuilder Ctx) : Prop :=
  artoConfig (fields b') = artoConfig (fields b)
  /\ selectedVariants (fields b') = selectedVariants (fields b)
  /\ activeStates (fields b') = activeStates (fields b)
  /\ context (fields b') = context (fields b)
  /\ postCoreCallbacks b' = postCoreCallbacks b
  /\ finalBuildCallbacks b' = finalBuildCallbacks b.

(** Every global-state bucket of [b'] is a bucket of [b], or is empty, or
    belongs to an active state. *)
Definition global_buckets_guarded {Ctx} (b b' : ClassNameBuilder Ctx) : Prop :=
  forall kv,
    In kv (globalStateClassNames (fields b')) ->
    In kv (globalStateClassNames (fields b))
    \/ snd kv = []
    \/ In (fst kv) (activeStates (fields b)).

Definition builtin_effect {Ctx} (b b' : ClassNameBuilder Ctx) : Prop :=
  kept b b' /\ global_buckets_guarded b b'.

(** [{ states: { hovered: 'h' },
       rules: [{ when: {}, remove: { states: ['idle'] }, add: 'r' }] }] *)
Definition config_rule_clears_idle {Ctx} : ArtoConfig Ctx :=
  {| cfg_className := None;
     cfg_variants := None;
     cfg_states := Some [("hovered", StateClass (VStr "h"))];
     cfg_rules :=
       Some [{| when := empty_when;
                remove := Some {| remove_variants := None;
                                  remove_states := Some ["idle"];
                                  remove_statesScope := None;
                                  remove_base := false |};
                add := Some (VStr "r") |}];
     cfg_defaultVariants := None |}.



(** Variant options that map each value to a class string:
    [{ size: { small: 'btn-sm', large: 'btn-lg' } }]. *)
Definition simple_options {Ctx} (opts : Js.obj string)
  : Js.obj (VariantInput Ctx) :=
  map (fun kv => (fst kv, VariantClass (VStr (snd kv)))) opts.

Definition simple_variants {Ctx} (sv : Js.obj (Js.obj string))
  : VariantOptions Ctx :=
  map (fun kv => (fst kv, Some (simple_options (snd kv)))) sv.

(** [{ variants: sv, defaultVariants: defaults }] *)
Definition config_variants {Ctx} (sv : Js.obj (Js.obj string))
           (defaults : option Variants) : ArtoConfig Ctx :=
  {| cfg_className := None;
     cfg_variants := Some (simple_variants sv);
     cfg_states := None;
     cfg_rules := None;
     cfg_defaultVariants := defaults |}.

(** The classes of the value selected for the variant [k]. *)
Definition chosen_classes (sv : Js.obj (Js.obj string)) (sel : Variants)
           (k : string) : list string :=
  match Js.get sel k, Js.get sv k with
  | Some (Some v), Some opts =>
      match Js.get opts (String_of v) with
      | Some s => distinct (Normalize.fragments s)
      | None => []
      end
  | _, _ => []
  end.

(** Each selected value of a configured variant is declared, with a class
    string that is not empty. *)
Definition selection_declared (sv : Js.obj (Js.obj string)) (sel : Variants)
  : Prop :=
  forall k v opts,
    Js.get sel k = Some (Some v) ->
    Js.get sv k = Some opts ->
    exists s, Js.get opts (String_of v) = Some s /\ s <> "".

(** [{ size: { small: 'btn-sm', large: 'btn-lg' },
       color: { red: 'text-red  bold text-red' } }] *)
Definition sv_size_color : Js.obj (Js.obj string) :=
  [("size", [("small", "btn-sm"); ("large", "btn-lg")]);
   ("color", [("red", "text-red  bold text-red")])].

(** The call [{ variants: { color: 'red', size: 'large' } }]. *)
Definition pick_red_large {Ctx} : option (Options Ctx) :=
  Some {| opt_variants := Some [("color", Some (VVStr "red"));
                                ("size", Some (VVStr "large"))];
          opt_states := None;
          opt_context := None |}.

(** The class expression of a state entry. *)
Definition state_class {Ctx} (e : StateInput Ctx) : value :=
  match e with StateClass c => c | StateCfg cfg => sc_className cfg end.

(** What [mergeVariantStates] does to the bucket of (variant [k], state [st])
    for the entry [e] of the variant's states: an entry that applies gives its
    normalized classes, appended for a class expression, put in place of the
    bucket for a state configuration; another entry leaves the bucket. *)
Definition variant_state_merged {Ctx} (call : fnid -> option Ctx -> completion)
           (fuel : nat) (ctx : option Ctx) (k st : string) (e : StateInput Ctx)
           (b b' : ClassNameBuilder Ctx) : Prop :=
  if applies (getActiveStates b) ctx e then
    exists cls,
      normalizeClassName call fuel (state_class e) ctx = Done cls
      /\ getVariantStateClasses k st b'
         = (if isStateConfig e then cls
            else getVariantStateClasses k st b ++ cls)
  else getVariantStateClasses k st b' = getVariantStateClasses k st b.

(** [{ disabled: 'd', hovered: { className: 'h', dependsOn: ['a'] } }] *)
Definition states_disabled_hovered {Ctx} : StatesOptions Ctx :=
  [("disabled", StateClass (VStr "d"));
   ("hovered", StateCfg {| sc_className := VStr "h";
                           sc_dependsOn := Some (DependsOnList [Requires "a"]) |})].

(** The built-in plugins of priority 0 that [arto] creates for a
    configuration, in the order in which it creates them. *)
Definition builtin_order0 {Ctx} (call : fnid -> option Ctx -> completion)
           (fuel : nat) (config : ArtoConfig Ctx) : list (Plugin Ctx) :=
  (if truthy_opt (cfg_className config) then [BaseClassNamePlugin call fuel 0] else [])
  ++ (match cfg_variants config with
      | Some _ => [VariantsPlugin call fuel 0] | None => [] end)
  ++ (match cfg_states config with
      | Some states => [StatesPlugin call fuel states 0] | None => [] end).

(** The rules plugin, created for a non-empty list of rules. *)
Definition builtin_rules {Ctx} (call : fnid -> option Ctx -> completion)
           (fuel : nat) (config : ArtoConfig Ctx) : list (Plugin Ctx) :=
  match cfg_rules config with
  | Some rules => if (0 <? List.length rules)%nat then [RulesPlugin call fuel 3] else []
  | None => []
  end.


(** The item [it], read in the store, is the value [v] written out: the
    arrays reached from it are finite and none holds itself. *)
Inductive written_out (heap : Normalize.store)
  : Normalize.item -> value -> Prop :=
| written_val v : written_out heap (Normalize.Val v) v
| written_ref a vs :
    Forall2 (written_out heap) (heap a) vs ->
    written_out heap (Normalize.Ref a) (VArr vs).

(** [a = ['x']; a.push(a)]: the array at address 0 holds 'x' and itself. *)
Definition self_array : Normalize.store :=
  fun a =>
    match a with
    | 0 => [Normalize.Val (VStr "x"); Normalize.Ref 0]
    | _ => []
    end.

(** [s = ['x']; a = [s, s]]: the array at address 0 holds twice the array
    at address 1. *)
Definition shared_array : Normalize.store :=
  fun a =>
    match a with
    | 0 => [Normalize.Ref 1; Normalize.Ref 1]
    | 1 => [Normalize.Val (VStr "x")]
    | _ => []
    end.

(** The loop never ends on an item of a store, whatever fuel it is given. *)
Definition diverges_in {Ctx} (call : fnid -> option Ctx -> completion)
           (context : option Ctx) (heap : Normalize.store)
           (it : Normalize.item) : Prop :=
  forall fuel, Normalize.run_in call context heap fuel it = OutOfFuel.

(** A callback that appends one class to the base bucket. *)
Definition appending_callback {Ctx} (cls : string) : Callback Ctx :=
  fun f => Done (set_baseClassNames (baseClassNames f ++ [cls]) f).

(** A default-stage plugin that appends one class to the base bucket and
    queues a post-core callback and a final callback. *)
Definition queuing {Ctx} (name : string) (cls : string)
           (post final : Callback Ctx) : Plugin Ctx :=
  {| id := name; stage := None; order := None;
     apply := fun b =>
       Done (addFinalBuildCallback
               final (addPostCoreCallback post (addBaseClasses [cls] b))) |}.

(** [l1] is [l2] with some elements left out, the others in their order. *)
Inductive subsequence {A} : list A -> list A -> Prop :=
| subsequence_nil : subsequence [] []
| subsequence_take x l1 l2 : subsequence l1 l2 -> subsequence (x :: l1) (x :: l2)
| subsequence_skip x l1 l2 : subsequence l1 l2 -> subsequence l1 (x :: l2).

(* ====================================================================== *)
(** * Properties *)

(** ** Boolean logic evaluator *)

Lemma forallb_id_true (l : list bool) :
  forallb (fun c => c) l = true <-> (forall c, In c l -> c = true).
Proof.
  rewrite forallb_forall. reflexivity.
Qed.

Lemma existsb_id_true (l : list bool) :
  existsb (fun c => c) l = true <-> In true l.
Proof.
  rewrite existsb_exists. split.
  - intros [c [Hin Hc]]. now subst.
  - intros Hin. now exists true.
Qed.

Lemma forallb_negb_true (l : list bool) :
  forallb (fun c => negb c) l = true <-> (forall c, In c l -> c = false).
Proof.
  rewrite forallb_forall. split; intros H c Hin.
  - apply negb_true_iff. now apply H.
  - apply negb_true_iff. now apply H.
Qed.

Lemma filter_id_all_false (l : list bool) :
  filter (fun c => c) l = [] <-> (forall c, In c l -> c = false).
Proof.
  induction l as [|a l IH]; simpl.
  - split; [intros _ c [] | reflexivity].
  - destruct a; simpl.
    + split; [discriminate|]. intros H. specialize (H true (or_introl eq_refl)).
      discriminate.
    + rewrite IH. split.
      * intros H c [<-|Hin]; auto.
      * intros H c Hin. apply H. now right.
Qed.

Lemma count_true_one (l : list bool) :
  List.length (filter (fun c => c) l) = 1%nat <-> exactly_one_true l.
Proof.
  induction l as [|a l IH]; simpl.
  - split; [discriminate|].
    intros (l1 & l2 & H & _). now destruct l1.
  - destruct a; simpl.
    + split.
      * intros H. exists [], l. split; [reflexivity|]. split; [intros c []|].
        apply filter_id_all_false.
        destruct (filter (fun c => c) l); [reflexivity|discriminate].
      * intros (l1 & l2 & H & H1 & H2).
        destruct l1 as [|b l1]; simpl in H.
        -- injection H as ->. apply filter_id_all_false in H2. now rewrite H2.
        -- injection H as <- _. specialize (H1 true (or_introl eq_refl)).
           discriminate.
    + rewrite IH. split.
      * intros (l1 & l2 & -> & H1 & H2). exists (false :: l1), l2.
        split; [reflexivity|]. split; [|assumption].
        intros c [<-|Hin]; auto.
      * intros (l1 & l2 & H & H1 & H2).
        destruct l1 as [|b l1]; simpl in H; [discriminate|].
        injection H as _ ->. exists l1, l2. split; [reflexivity|].
        split; [|assumption]. intros c Hin. apply H1. now right.
Qed.

(** C5.  [evaluateSimpleLogic]: AND (also when the operator is omitted) holds
    iff every entry is true, OR iff some entry is true, NOT iff every entry is
    false, XOR iff exactly one entry is true, IMPLIES is true on fewer than two
    entries and otherwise [!conditions[0] || conditions[1]], later entries being
    ignored; with the four sample evaluations of the specification. *)
Theorem evaluateSimpleLogic_spec :
  (forall conditions,
      evaluateSimpleLogic conditions None = evaluateSimpleLogic conditions (Some AND))
  /\ (forall conditions,
         evaluateSimpleLogic conditions (Some AND) = true
         <-> (forall c, In c conditions -> c = true))
  /\ evaluateSimpleLogic [] (Some AND) = true
  /\ evaluateSimpleLogic [] None = true
  /\ (forall conditions,
         evaluateSimpleLogic conditions (Some OR) = true <-> In true conditions)
  /\ evaluateSimpleLogic [] (Some OR) = false
  /\ (forall conditions,
         evaluateSimpleLogic conditions (Some NOT) = true
         <-> (forall c, In c conditions -> c = false))
  /\ (forall conditions,
         evaluateSimpleLogic conditions (Some XOR) = true
         <-> exactly_one_true conditions)
  /\ evaluateSimpleLogic [] (Some IMPLIES) = true
  /\ (forall a, evaluateSimpleLogic [a] (Some IMPLIES) = true)
  /\ (forall a b rest,
         evaluateSimpleLogic (a :: b :: rest) (Some IMPLIES) = negb a || b)
  /\ evaluateSimpleLogic [true; false; true] (Some IMPLIES) = false
  /\ evaluateSimpleLogic [true; false] (Some XOR) = true.
Proof.
  repeat split; try reflexivity.
  - apply forallb_id_true.
  - apply forallb_id_true.
  - apply existsb_id_true.
  - apply existsb_id_true.
  - apply forallb_negb_true.
  - apply forallb_negb_true.
  - unfold evaluateSimpleLogic. rewrite Nat.eqb_eq. apply count_true_one.
  - unfold evaluateSimpleLogic. rewrite Nat.eqb_eq. apply count_true_one.
Qed.

(** ** Normalizer: words of a string *)

Lemma is_space_whitespace c : Normalize.is_space c = whitespace c.
Proof.
  destruct c as [[] [] [] [] [] [] [] []]; reflexivity.
Qed.

Module SplitFacts.
Import Normalize.

Lemma split_runs_words s : forall frag in_sep,
    (in_sep = true -> frag = "") ->
    filter nonempty (split_runs s frag in_sep) = words s frag.
Proof.
  induction s as [|c r IH]; intros frag in_sep Hsep; simpl.
  - reflexivity.
  - destruct (is_space c).
    + destruct in_sep.
      * rewrite (Hsep eq_refl). simpl. now apply IH.
      * simpl. destruct (nonempty frag); simpl; f_equal; now apply IH.
    + apply IH. discriminate.
Qed.

Lemma fragments_words s : fragments s = words s "".
Proof.
  unfold fragments, split. apply split_runs_words. discriminate.
Qed.

Lemma append_assoc (a b c : string) :
  ((a ++ b) ++ c = a ++ (b ++ c))%string.
Proof.
  induction a as [|x a IH]; simpl; [reflexivity | now rewrite IH].
Qed.

Lemma append_empty_r (a : string) : (a ++ "")%string = a.
Proof.
  induction a as [|x a IH]; simpl; [reflexivity | now rewrite IH].
Qed.

Lemma words_no_space s : forall frag,
    no_space s = true -> words s frag = filter nonempty [(frag ++ s)%string].
Proof.
  induction s as [|c r IH]; intros frag H; simpl in *.
  - now rewrite append_empty_r.
  - apply andb_true_iff in H as [Hc Hr]. apply negb_true_iff in Hc.
    rewrite is_space_whitespace, Hc, IH by assumption.
    now rewrite append_assoc.
Qed.

Lemma words_app_space s1 c s2 : forall frag,
    is_space c = true ->
    words (s1 ++ String c s2)%string frag = words s1 frag ++ words s2 "".
Proof.
  induction s1 as [|x s1 IH]; intros frag Hc; simpl.
  - now rewrite Hc.
  - destruct (is_space x).
    + rewrite <- app_assoc. f_equal. now apply IH.
    + now apply IH.
Qed.

Lemma no_space_app a b :
  no_space (a ++ b)%string = no_space a && no_space b.
Proof.
  induction a as [|x a IH]; simpl; [reflexivity|].
  now rewrite IH, andb_assoc.
Qed.

Lemma nonempty_true s : nonempty s = true <-> s <> "".
Proof.
  unfold nonempty. rewrite negb_true_iff. split.
  - intros H ->. discriminate.
  - intros H. destruct s; [contradiction | reflexivity].
Qed.

Lemma words_single_tokens s : forall frag,
    no_space frag = true -> Forall single_token (words s frag).
Proof.
  induction s as [|c r IH]; intros frag Hf; simpl.
  - destruct (nonempty frag) eqn:E; constructor; [|constructor].
    split; [now apply nonempty_true | assumption].
  - destruct (is_space c) eqn:Ec.
    + apply Forall_app. split; [|now apply IH].
      destruct (nonempty frag) eqn:E; constructor; [|constructor].
      split; [now apply nonempty_true | assumption].
    + apply IH. rewrite no_space_app, Hf. simpl.
      now rewrite <- is_space_whitespace, Ec.
Qed.

End SplitFacts.

(** A string of one token is its own single fragment. *)
Lemma fragments_single_token s : single_token s -> Normalize.fragments s = [s].
Proof.
  intros [Hne Hns]. rewrite SplitFacts.fragments_words.
  rewrite SplitFacts.words_no_space by assumption. simpl.
  apply SplitFacts.nonempty_true in Hne. now rewrite Hne.
Qed.

(** Splitting at a whitespace code unit. *)
Lemma fragments_app_space s1 c s2 :
  Normalize.is_space c = true ->
  Normalize.fragments (s1 ++ String c s2)%string
  = Normalize.fragments s1 ++ Normalize.fragments s2.
Proof.
  intros Hc. rewrite !SplitFacts.fragments_words.
  now apply SplitFacts.words_app_space.
Qed.

(** Every fragment is a token: not empty, free of whitespace. *)
Lemma fragments_are_tokens s : Forall single_token (Normalize.fragments s).
Proof.
  rewrite SplitFacts.fragments_words. now apply SplitFacts.words_single_tokens.
Qed.

(** ** Normalizer: the result set *)

Lemma has_true s x : Js.has s x = true <-> In x s.
Proof.
  unfold Js.has. rewrite existsb_exists. split.
  - intros [y [Hin Heq]]. apply String.eqb_eq in Heq. now subst.
  - intros Hin. exists x. split; [assumption | apply String.eqb_refl].
Qed.

Lemma has_false s x : Js.has s x = false <-> ~ In x s.
Proof.
  rewrite <- has_true. destruct (Js.has s x); split; congruence.
Qed.

Lemma has_app s t x : Js.has (s ++ t) x = Js.has s x || Js.has t x.
Proof.
  unfold Js.has. apply existsb_app.
Qed.

Lemma add_NoDup s x : NoDup s -> NoDup (Js.add s x).
Proof.
  intros H. unfold Js.add. destruct (Js.has s x) eqn:E; [assumption|].
  apply has_false in E.
  apply NoDup_app; [assumption | repeat constructor; intros [] |].
  intros y Hy [<-|[]]. contradiction.
Qed.

Lemma fold_add_NoDup l : forall s, NoDup s -> NoDup (fold_left Js.add l s).
Proof.
  induction l as [|x l IH]; intros s H; simpl; [assumption|].
  apply IH. now apply add_NoDup.
Qed.

Lemma filter_comm {A} (p q : A -> bool) l :
  filter p (filter q l) = filter q (filter p l).
Proof.
  induction l as [|x l IH]; simpl; [reflexivity|].
  destruct (p x) eqn:Ep, (q x) eqn:Eq; simpl; rewrite ?Ep, ?Eq, IH; reflexivity.
Qed.

Lemma filter_filter_absorb {A} (p q : A -> bool) l :
  (forall y, p y = true -> q y = true) ->
  filter p (filter q l) = filter p l.
Proof.
  intros H. induction l as [|x l IH]; simpl; [reflexivity|].
  destruct (q x) eqn:Eq; simpl.
  - now rewrite IH.
  - destruct (p x) eqn:Ep; [|assumption].
    apply H in Ep. congruence.
Qed.

Lemma distinct_filter p l : distinct (filter p l) = filter p (distinct l).
Proof.
  induction l as [|x l IH]; simpl; [reflexivity|].
  destruct (p x) eqn:Ep; simpl.
  - rewrite IH. f_equal. apply filter_comm.
  - rewrite IH. symmetry. apply filter_filter_absorb.
    intros y Hy. apply negb_true_iff. apply String.eqb_neq. intros ->. congruence.
Qed.

Lemma filter_filter_and {A} (p q : A -> bool) l :
  filter p (filter q l) = filter (fun y => q y && p y) l.
Proof.
  induction l as [|x l IH]; simpl; [reflexivity|].
  destruct (q x); simpl; [destruct (p x)|]; now rewrite IH.
Qed.

Lemma fold_add_distinct l : forall acc,
    fold_left Js.add l acc
    = acc ++ distinct (filter (fun y => negb (Js.has acc y)) l).
Proof.
  induction l as [|x l IH]; intros acc; simpl.
  - now rewrite app_nil_r.
  - unfold Js.add at 2. destruct (Js.has acc x) eqn:E; simpl.
    + apply IH.
    + rewrite IH, <- app_assoc. simpl. do 2 f_equal.
      rewrite <- distinct_filter. f_equal.
      rewrite filter_filter_and. apply filter_ext. intros y.
      rewrite has_app, negb_orb. f_equal.
      unfold Js.has. simpl. now rewrite orb_false_r.
Qed.

Lemma fold_add_nil l : fold_left Js.add l [] = distinct l.
Proof.
  rewrite fold_add_distinct. simpl. f_equal.
  induction l as [|x l IH]; simpl; [reflexivity | now rewrite IH].
Qed.

Lemma distinct_In l x : In x (distinct l) <-> In x l.
Proof.
  induction l as [|a l IH]; simpl; [reflexivity|].
  rewrite filter_In, IH, negb_true_iff, String.eqb_neq.
  destruct (string_dec a x) as [->|Hne]; [tauto|].
  split; [tauto|]. intros [H|H]; [contradiction|]. right. split; [assumption|].
  congruence.
Qed.

Lemma distinct_NoDup l : NoDup (distinct l).
Proof.
  induction l as [|a l IH]; simpl; constructor.
  - rewrite filter_In, negb_true_iff, String.eqb_neq. tauto.
  - now apply NoDup_filter.
Qed.

Lemma distinct_of_NoDup l : NoDup l -> distinct l = l.
Proof.
  induction 1 as [|a l Hnin Hnd IH]; simpl; [reflexivity|].
  rewrite IH. f_equal.
  rewrite <- (filter_filter_absorb _ (fun _ => true)) by reflexivity.
  assert (Hall : filter (fun _ : string => true) l = l).
  { clear. induction l as [|x l IH]; simpl; [reflexivity | now rewrite IH]. }
  rewrite Hall. apply forallb_filter_id. apply forallb_forall.
  intros y Hy. apply negb_true_iff, String.eqb_neq. intros ->. contradiction.
Qed.

(** ** Normalizer: the loop *)

Lemma push_reversed_app items stack :
  Normalize.push_reversed items stack = items ++ stack.
Proof.
  unfold Normalize.push_reversed. rewrite <- fold_left_rev_right, rev_involutive.
  induction items as [|x items IH]; simpl; [reflexivity | now rewrite IH].
Qed.

Lemma seen_has_true seen f : Normalize.seen_has seen f = true <-> In f seen.
Proof.
  unfold Normalize.seen_has. rewrite existsb_exists. split.
  - intros [g [Hin Heq]]. apply Nat.eqb_eq in Heq. now subst.
  - intros Hin. exists f. split; [assumption | apply Nat.eqb_refl].
Qed.

Lemma seen_has_false seen f : Normalize.seen_has seen f = false <-> ~ In f seen.
Proof.
  rewrite <- seen_has_true. destruct (Normalize.seen_has seen f); split; congruence.
Qed.

Section LoopFacts.
Variable Ctx : Type.
Variable call : fnid -> option Ctx -> completion.
Variable context : option Ctx.

(** On a stack without callbacks the loop ends within as many iterations as
    the stack has nodes, having added the flattened tokens to the result. *)
Lemma loop_callback_free fuel : forall stack seen result,
    forallb callback_free stack = true ->
    list_sum (map size stack) <= fuel ->
    Normalize.loop call context fuel stack seen result
    = Done (Normalize.MkFinal
              (fold_left Js.add (flat_map flatten stack) result) seen).
Proof.
  induction fuel as [|fuel IH]; intros stack seen result Hfree Hsize.
  - destruct stack as [|v stack]; [reflexivity|].
    simpl in Hsize. destruct v; simpl in Hsize; lia.
  - destruct stack as [|v stack]; [reflexivity|].
    simpl in Hfree. apply andb_true_iff in Hfree as [Hv Hst].
    simpl in Hsize.
    destruct v; simpl in Hv, Hsize; try discriminate;
      try (simpl; rewrite IH by (assumption || lia); reflexivity).
    + simpl. rewrite IH by (assumption || lia). now rewrite fold_left_app.
    + simpl. rewrite push_reversed_app, IH.
      * now rewrite flat_map_app.
      * rewrite forallb_app. now rewrite Hv, Hst.
      * rewrite map_app, list_sum_app. lia.
Qed.

(** The result set and the set of invoked callbacks never hold a duplicate. *)
Lemma loop_NoDup fuel : forall stack seen result r,
    NoDup seen -> NoDup result ->
    Normalize.loop call context fuel stack seen result = Done r ->
    NoDup (Normalize.tokens r) /\ NoDup (Normalize.invoked r).
Proof.
  induction fuel as [|fuel IH]; intros stack seen result r Hs Hr Hrun.
  - destruct stack; simpl in Hrun; [|discriminate].
    injection Hrun as <-. now split.
  - destruct stack as [|v stack]; simpl in Hrun.
    + injection Hrun as <-. now split.
    + destruct v; try (now apply (IH _ _ _ _ Hs Hr Hrun)).
      * apply (IH _ _ _ _ Hs (fold_add_NoDup _ Hr) Hrun).
      * destruct (Normalize.seen_has seen f) eqn:E; [now apply (IH _ _ _ _ Hs Hr Hrun)|].
        assert (Hs' : NoDup (seen ++ [f])).
        { apply seen_has_false in E.
          apply NoDup_app; [assumption | repeat constructor; intros [] |].
          intros y Hy [<-|[]]. contradiction. }
        destruct (call f context) as [resolved|msg]; [|discriminate].
        destruct (truthy resolved); now apply (IH _ _ _ _ Hs' Hr Hrun).
Qed.

(** More fuel does not change an outcome that was reached. *)
Lemma loop_more_fuel fuel : forall stack seen result k,
    Normalize.loop call context fuel stack seen result <> OutOfFuel ->
    Normalize.loop call context (fuel + k) stack seen result = Normalize.loop call context fuel stack seen result.
Proof.
  induction fuel as [|fuel IH]; intros stack seen result k H.
  - destruct stack; simpl in *; [|congruence].
    destruct k; reflexivity.
  - destruct stack as [|v stack]; [reflexivity|].
    simpl in *. destruct v; try (now apply IH).
    destruct (Normalize.seen_has seen f); [now apply IH|].
    destruct (call f context) as [resolved|msg]; [|reflexivity].
    destruct (truthy resolved); now apply IH.
Qed.

End LoopFacts.

Lemma normalizeClassName_callback_free
      Ctx (call : fnid -> option Ctx -> completion) context v fuel :
  callback_free v = true -> size v <= fuel ->
  Normalize.normalizeClassName call context fuel v = Done (distinct (flatten v)).
Proof.
  intros Hfree Hsize.
  unfold Normalize.normalizeClassName, Normalize.run.
  rewrite loop_callback_free.
  - simpl. now rewrite app_nil_r, fold_add_nil.
  - simpl. now rewrite Hfree.
  - simpl. lia.
Qed.

(** *** Runs of whitespace *)

Lemma whitespace_In c : whitespace c = true <-> In (nat_of_ascii c) whitespace_codes.
Proof.
  unfold whitespace. rewrite existsb_exists. split.
  - intros [n [Hin Heq]]. apply Nat.eqb_eq in Heq. now subst.
  - intros Hin. exists (nat_of_ascii c). split; [assumption | apply Nat.eqb_refl].
Qed.

Lemma fragments_spaces s : forall rest,
    spaces s = true ->
    Normalize.fragments (s ++ rest)%string = Normalize.fragments rest.
Proof.
  induction s as [|c s IH]; intros rest H; [reflexivity|].
  simpl in H. apply andb_true_iff in H as [Hc Hs].
  change (String c s ++ rest)%string with ("" ++ String c (s ++ rest))%string.
  rewrite fragments_app_space by now rewrite is_space_whitespace.
  simpl. now apply IH.
Qed.

Lemma fragments_token_spaces t sep rest :
  single_token t -> sep <> "" -> spaces sep = true ->
  Normalize.fragments (t ++ sep ++ rest)%string = t :: Normalize.fragments rest.
Proof.
  intros Ht Hne Hsep. destruct sep as [|c sep]; [contradiction|].
  simpl in Hsep. apply andb_true_iff in Hsep as [Hc Hsep].
  change (t ++ String c sep ++ rest)%string
    with (t ++ String c (sep ++ rest))%string.
  rewrite fragments_app_space by now rewrite is_space_whitespace.
  rewrite (fragments_single_token Ht). simpl. f_equal.
  now apply fragments_spaces.
Qed.

Lemma fragments_laid_out lead pieces last :
  spaces lead = true ->
  Forall separated pieces ->
  last = "" \/ single_token last ->
  Normalize.fragments (laid_out lead pieces last)
  = map fst pieces ++ (if String.eqb last "" then [] else [last]).
Proof.
  intros Hlead Hpieces Hlast. unfold laid_out.
  rewrite fragments_spaces by assumption.
  induction Hpieces as [|[t sep] pieces [Ht [Hne Hsep]] _ IH]; simpl.
  - destruct Hlast as [->|Hlast]; [reflexivity|].
    rewrite (fragments_single_token Hlast).
    destruct Hlast as [Hne _]. apply String.eqb_neq in Hne. now rewrite Hne.
  - rewrite fragments_token_spaces by assumption. now rewrite IH.
Qed.

(** C3.  [normalizeClassName] splits every string on runs of whitespace and
    drops the empty fragments: the whitespace is that of the language (tab,
    line feed, vertical tab, form feed, carriage return, space, no-break
    space), every fragment is a non-empty, whitespace-free token, a single
    token is its own fragment, and a text of tokens each ended by a non-empty
    run of whitespace, behind any run of whitespace and before a last token
    or nothing, has these tokens as its fragments.  It flattens nested arrays
    depth-first and left to right, and returns the distinct tokens in order of
    first occurrence; the result never holds a duplicate, callbacks or not.
    For distinct single tokens a, b, c, d,
    [normalize([a,[b,c],d]) = [a,b,c,d]], and
    [normalize(['x','x','y']) = ['x','y']]. *)
Theorem normalizeClassName_flatten_dedup :
  forall Ctx (call : fnid -> option Ctx -> completion) (context : option Ctx),
    (forall s, Forall single_token (Normalize.fragments s))
    /\ (forall s1 c s2,
           whitespace c = true ->
           Normalize.fragments (s1 ++ String c s2)%string
           = Normalize.fragments s1 ++ Normalize.fragments s2)
    /\ (forall s, single_token s -> Normalize.fragments s = [s])
    /\ (forall v fuel,
           callback_free v = true -> size v <= fuel ->
           Normalize.normalizeClassName call context fuel v
           = Done (distinct (flatten v)))
    /\ (forall fuel v r,
           Normalize.run call context fuel v = Done r ->
           NoDup (Normalize.tokens r))
    /\ (forall a b c d fuel,
           single_token a -> single_token b -> single_token c -> single_token d ->
           NoDup [a; b; c; d] -> 6 <= fuel ->
           Normalize.normalizeClassName call context fuel
             (VArr [VStr a; VArr [VStr b; VStr c]; VStr d])
           = Done [a; b; c; d])
    /\ (forall fuel,
           4 <= fuel ->
           Normalize.normalizeClassName call context fuel
             (VArr [VStr "x"; VStr "x"; VStr "y"])
           = Done ["x"; "y"])
    /\ (forall c,
           Normalize.is_space c = true <-> In (nat_of_ascii c) whitespace_codes)
    /\ (forall lead pieces last,
           spaces lead = true ->
           Forall separated pieces ->
           last = "" \/ single_token last ->
           Normalize.fragments (laid_out lead pieces last)
           = map fst pieces ++ (if String.eqb last "" then [] else [last]))
    /\ (forall lead pieces last fuel,
           spaces lead = true ->
           Forall separated pieces ->
           last = "" \/ single_token last ->
           1 <= fuel ->
           Normalize.normalizeClassName call context fuel
             (VStr (laid_out lead pieces last))
           = Done (distinct (map fst pieces
                             ++ (if String.eqb last "" then [] else [last]))))
    /\ (forall fuel,
           1 <= fuel ->
           Normalize.normalizeClassName call context fuel
             (VStr "  btn   btn-primary btn ")
           = Done ["btn"; "btn-primary"])
    /\ (forall fuel,
           1 <= fuel ->
           Normalize.normalizeClassName call context fuel
             (VStr ("a" ++ String tab (String line_feed "b")))
           = Done ["a"; "b"]).
Proof.
  intros Ctx call context.
  assert (Hstr : forall s fuel,
             1 <= fuel ->
             Normalize.normalizeClassName call context fuel (VStr s)
             = Done (distinct (Normalize.fragments s))).
  { intros s fuel Hfuel.
    now rewrite normalizeClassName_callback_free by (reflexivity || exact Hfuel). }
  repeat apply conj.
  - apply fragments_are_tokens.
  - intros s1 c s2 Hc. apply fragments_app_space. now rewrite is_space_whitespace.
  - apply fragments_single_token.
  - intros v fuel. apply normalizeClassName_callback_free.
  - intros fuel v r H.
    apply (loop_NoDup call context fuel [v] (seen := []) (result := []));
      [constructor | constructor | exact H].
  - intros a b c d fuel Ha Hb Hc Hd Hnd Hfuel.
    rewrite normalizeClassName_callback_free; [|reflexivity|simpl; lia].
    assert (Hflat : flatten (VArr [VStr a; VArr [VStr b; VStr c]; VStr d])
                    = [a; b; c; d]).
    { simpl. now rewrite !fragments_single_token by assumption. }
    rewrite Hflat. f_equal. now apply distinct_of_NoDup.
  - intros fuel Hfuel.
    rewrite normalizeClassName_callback_free; [reflexivity|reflexivity|simpl; lia].
  - intros c. rewrite is_space_whitespace. apply whitespace_In.
  - apply fragments_laid_out.
  - intros lead pieces last fuel Hlead Hpieces Hlast Hfuel.
    rewrite (Hstr _ _ Hfuel). now rewrite fragments_laid_out.
  - intros fuel Hfuel. now rewrite (Hstr _ _ Hfuel).
  - intros fuel Hfuel. now rewrite (Hstr _ _ Hfuel).
Qed.

(** Four distinct tokens, nested as in the specification; and a text with a
    leading space, two spaces after 'btn', a tab and a line feed after
    'btn-primary', and 'btn' again at its end. *)
Lemma normalizeClassName_flatten_dedup_witness :
  single_token "a" /\ single_token "b" /\ single_token "c" /\ single_token "d"
  /\ NoDup ["a"; "b"; "c"; "d"]
  /\ Normalize.normalizeClassName no_callbacks None 6
       (VArr [VStr "a"; VArr [VStr "b"; VStr "c"]; VStr "d"])
     = Done ["a"; "b"; "c"; "d"]
  /\ whitespace tab = true
  /\ Normalize.fragments ("btn" ++ String tab "btn-primary")
     = ["btn"; "btn-primary"]
  /\ Normalize.normalizeClassName no_callbacks None 1
       (VStr (laid_out " " [("btn", "  ");
                            ("btn-primary", String tab (String line_feed ""))]
                       "btn"))
     = Done ["btn"; "btn-primary"].
Proof.
  assert (Ht : forall s, s <> "" -> no_space s = true -> single_token s)
    by (intros s H1 H2; now split).
  assert (Hnd : NoDup ["a"; "b"; "c"; "d"]).
  { repeat constructor; simpl; intuition discriminate. }
  destruct (@normalizeClassName_flatten_dedup unit no_callbacks None)
    as (_ & Hsplit & Hone & _ & _ & Habcd & _ & _ & _ & Htext & _).
  do 4 (split; [apply Ht; [discriminate | reflexivity]|]).
  split; [exact Hnd|].
  split.
  { apply Habcd; try (apply Ht; [discriminate | reflexivity]);
      [exact Hnd | apply le_n]. }
  split; [reflexivity|].
  split.
  { rewrite (Hsplit "btn" tab "btn-primary" eq_refl).
    rewrite !Hone by (apply Ht; [discriminate | reflexivity]). reflexivity. }
  apply (Htext " " [("btn", "  ");
                    ("btn-primary", String tab (String line_feed ""))]
               "btn" 1).
  - reflexivity.
  - repeat constructor; simpl; try discriminate.
  - right. apply Ht; [discriminate | reflexivity].
  - apply le_n.
Defined.

(** ** Normalizer: termination *)

Lemma size_pos v : 1 <= size v.
Proof. destruct v; simpl; lia. Qed.

Lemma seen_has_app seen f g :
  Normalize.seen_has (seen ++ [f]) g = Normalize.seen_has seen g || Nat.eqb g f.
Proof.
  unfold Normalize.seen_has. rewrite existsb_app. simpl. now rewrite orb_false_r.
Qed.

(** Marking [f] as seen removes its weight from the sum over the callbacks not
    yet seen. *)
Lemma unseen_sum (w : fnid -> nat) seen f l :
  NoDup l -> In f l -> ~ In f seen ->
  list_sum (map w (filter (fun g => negb (Normalize.seen_has seen g)) l))
  = w f + list_sum (map w (filter (fun g => negb (Normalize.seen_has (seen ++ [f]) g)) l)).
Proof.
  intros Hnd Hin Hseen. induction Hnd as [|x l Hx Hnd IH]; [destruct Hin|].
  simpl. rewrite seen_has_app.
  destruct (Nat.eq_dec x f) as [->|Hne].
  - apply seen_has_false in Hseen. rewrite Hseen, Nat.eqb_refl. simpl.
    f_equal. f_equal. f_equal. apply filter_ext_in. intros g Hg.
    rewrite seen_has_app.
    assert (Hgf : Nat.eqb g f = false) by (apply Nat.eqb_neq; intros ->; contradiction).
    now rewrite Hgf, orb_false_r.
  - destruct Hin as [Heq|Hin]; [contradiction|].
    apply Nat.eqb_neq in Hne. rewrite Hne, orb_false_r.
    destruct (Normalize.seen_has seen x); simpl; rewrite (IH Hin); lia.
Qed.

Section Termination.
Variable Ctx : Type.
Variable call : fnid -> option Ctx -> completion.
Variable context : option Ctx.
Variable refs : list fnid.
Hypothesis closed : closed_under call context refs.

Lemma loop_terminates fuel : forall stack seen result,
    forallb (refs_in refs) stack = true ->
    remaining call context refs stack seen <= fuel ->
    Normalize.loop call context fuel stack seen result <> OutOfFuel.
Proof.
  induction fuel as [|fuel IH]; intros stack seen result Hrefs Hfuel.
  - destruct stack as [|v stack]; [discriminate|].
    unfold remaining in Hfuel. simpl in Hfuel. pose proof (size_pos v). lia.
  - destruct stack as [|v stack]; [discriminate|].
    simpl in Hrefs. apply andb_true_iff in Hrefs as [Hv Hst].
    unfold remaining in Hfuel. simpl in Hfuel.
    destruct v; simpl in Hv, Hfuel;
      try (simpl; apply IH; [assumption | unfold remaining; lia]).
    + simpl. rewrite push_reversed_app. apply IH.
      * rewrite forallb_app. now rewrite Hv, Hst.
      * unfold remaining. rewrite map_app, list_sum_app. lia.
    + simpl. destruct (Normalize.seen_has seen f) eqn:E.
      * apply IH; [assumption | unfold remaining; lia].
      * apply seen_has_true in Hv. apply seen_has_false in E.
        assert (Hin : In f (nodup Nat.eq_dec refs)) by now apply nodup_In.
        rewrite (unseen_sum (returned_size call context) seen f
                            (NoDup_nodup Nat.eq_dec refs) Hin E) in Hfuel.
        unfold returned_size at 1 in Hfuel.
        destruct (call f context) as [resolved|msg] eqn:Ecall; [|discriminate].
        pose proof (closed Hv Ecall) as Hres.
        destruct (truthy resolved).
        -- apply IH; [simpl; now rewrite Hres, Hst|].
           unfold remaining. simpl. lia.
        -- apply IH; [assumption | unfold remaining; lia].
Qed.

Lemma run_terminates v fuel :
  refs_in refs v = true ->
  enough_fuel call context refs v <= fuel ->
  Normalize.run call context fuel v <> OutOfFuel
  /\ Normalize.run call context fuel v
     = Normalize.run call context (enough_fuel call context refs v) v.
Proof.
  intros Hv Hfuel.
  assert (H0 : Normalize.run call context (enough_fuel call context refs v) v
               <> OutOfFuel).
  { apply loop_terminates; [simpl; now rewrite Hv|].
    unfold remaining, enough_fuel.
    assert (Hall : filter (fun g => negb (Normalize.seen_has [] g))
                          (nodup Nat.eq_dec refs)
                   = nodup Nat.eq_dec refs).
    { apply forallb_filter_id. apply forallb_forall. reflexivity. }
    rewrite Hall. simpl. lia. }
  assert (Heq : Normalize.run call context fuel v
                = Normalize.run call context (enough_fuel call context refs v) v).
  { replace fuel with (enough_fuel call context refs v
                       + (fuel - enough_fuel call context refs v)) by lia.
    now apply loop_more_fuel. }
  split; [now rewrite Heq | exact Heq].
Qed.

End Termination.

(** A chain of ever fresh callbacks keeps the loop running. *)
Lemma fresh_chain_loop fuel : forall k,
    Normalize.loop fresh_chain None fuel [VFun k] (seq 0 k) [] = OutOfFuel.
Proof.
  induction fuel as [|fuel IH]; intros k; [reflexivity|].
  simpl.
  assert (E : Normalize.seen_has (seq 0 k) k = false).
  { apply seen_has_false. rewrite in_seq. lia. }
  rewrite E. rewrite <- seq_S. apply IH.
Qed.

(** *** Arrays as objects *)

Lemma push_items_app items stack :
  Normalize.push_items items stack = items ++ stack.
Proof.
  unfold Normalize.push_items. rewrite <- fold_left_rev_right, rev_involutive.
  induction items as [|x items IH]; simpl; [reflexivity | now rewrite IH].
Qed.

Lemma written_out_Val heap vs :
  Forall2 (written_out heap) (map Normalize.Val vs) vs.
Proof.
  induction vs as [|v vs IH]; simpl; constructor; [constructor | exact IH].
Qed.

(** On items that are values written out, the loop over the store is the loop
    over the values. *)
Lemma loop_in_written Ctx (call : fnid -> option Ctx -> completion) context heap
      fuel : forall si sv seen result,
    Forall2 (written_out heap) si sv ->
    Normalize.loop_in call context heap fuel si seen result
    = Normalize.loop call context fuel sv seen result.
Proof.
  induction fuel as [|fuel IH]; intros si sv seen result H.
  - destruct H; reflexivity.
  - destruct H as [|it v si sv Hit H]; [reflexivity|].
    destruct Hit as [v|a vs Hvs].
    + destruct v; simpl; try (now apply IH).
      * apply IH. rewrite push_items_app, push_reversed_app.
        apply Forall2_app; [apply written_out_Val | exact H].
      * destruct (Normalize.seen_has seen f); [now apply IH|].
        destruct (call f context) as [resolved|msg]; [|reflexivity].
        destruct (truthy resolved); apply IH; [|exact H].
        constructor; [constructor | exact H].
    + simpl. apply IH. rewrite push_items_app, push_reversed_app.
      apply Forall2_app; assumption.
Qed.

(** The array that holds itself keeps the loop running: it is popped, 'x' and
    itself are pushed, 'x' is popped, and it is popped again. *)
Lemma self_array_loop Ctx (call : fnid -> option Ctx -> completion) context
      fuel : forall result,
    Normalize.loop_in call context self_array fuel [Normalize.Ref 0] [] result
    = OutOfFuel
    /\ Normalize.loop_in call context self_array fuel
         [Normalize.Val (VStr "x"); Normalize.Ref 0] [] result
       = OutOfFuel.
Proof.
  induction fuel as [|fuel IH]; intros result; [split; reflexivity|].
  split.
  - change (Normalize.loop_in call context self_array (S fuel)
              [Normalize.Ref 0] [] result)
      with (Normalize.loop_in call context self_array fuel
              (Normalize.push_items (self_array 0) []) [] result).
    rewrite push_items_app. apply IH.
  - change (Normalize.loop_in call context self_array (S fuel)
              [Normalize.Val (VStr "x"); Normalize.Ref 0] [] result)
      with (Normalize.loop_in call context self_array fuel [Normalize.Ref 0] []
              (fold_left Js.add (Normalize.fragments "x") result)).
    apply IH.
Qed.

(** No value written out is the array that holds itself. *)
Lemma self_array_not_written n : forall v,
    size v <= n -> ~ written_out self_array (Normalize.Ref 0) v.
Proof.
  induction n as [|n IH]; intros v Hsize H.
  - pose proof (size_pos v). lia.
  - inversion H as [|a vs Hvs]; subst. simpl in Hvs.
    inversion Hvs as [|? x ? vs1 _ Hrest]; subst.
    inversion Hrest as [|? v' ? vs2 Hself Hnil]; subst.
    apply (IH v'); [|exact Hself].
    simpl in Hsize. lia.
Qed.

(** C4 as stated fails, without any callback: on the array that holds itself
    ([a = ['x']; a.push(a)]) the loop runs for ever; no amount of fuel lets it
    end. *)
Lemma normalizeClassName_self_array_diverges :
  diverges_in no_callbacks None self_array (Normalize.Ref 0).
Proof.
  intros fuel. unfold Normalize.run_in.
  apply (@self_array_loop unit no_callbacks None fuel []).
Qed.

(** C4, amended.  [normalizeClassName] terminates on every input whose arrays
    are finite and hold no array that holds them, and from which only finitely
    many distinct callback references can be reached (callbacks returning
    themselves or one another cyclically included): when the callbacks of a
    list [refs] return nothing but callbacks of [refs], the loop ends on every
    input over [refs] within [enough_fuel] iterations, with the same outcome
    whatever fuel above that it is given; so it does on an item of a store
    that is such a value written out, arrays held more than once included.
    Within one call each distinct callback reference is invoked at most once;
    a callback met again is skipped, the loop going on with the rest of the
    stack, no error raised; and a callback whose result is itself normalizes
    to the empty token list.  Neither arrays nor fresh callbacks are guarded:
    the array that holds itself is no value written out, and a callback whose
    every call returns a callback reference never met before keeps the loop
    running for ever. *)
Theorem normalizeClassName_cycle_safe :
  forall Ctx (call : fnid -> option Ctx -> completion) (context : option Ctx),
    (forall refs v fuel,
        closed_under call context refs ->
        refs_in refs v = true ->
        enough_fuel call context refs v <= fuel ->
        Normalize.run call context fuel v <> OutOfFuel
        /\ Normalize.run call context fuel v
           = Normalize.run call context (enough_fuel call context refs v) v)
    /\ (forall fuel v r,
           Normalize.run call context fuel v = Done r ->
           NoDup (Normalize.invoked r))
    /\ (forall fuel f stack seen result,
           In f seen ->
           Normalize.loop call context (S fuel) (VFun f :: stack) seen result
           = Normalize.loop call context fuel stack seen result)
    /\ (forall f fuel,
           call f context = Returns (VFun f) ->
           2 <= fuel ->
           Normalize.normalizeClassName call context fuel (VFun f) = Done []
           /\ Normalize.run call context fuel (VFun f)
              = Done (Normalize.MkFinal [] [f]))
    /\ (forall heap it v refs fuel,
           written_out heap it v ->
           closed_under call context refs ->
           refs_in refs v = true ->
           enough_fuel call context refs v <= fuel ->
           Normalize.run_in call context heap fuel it <> OutOfFuel
           /\ Normalize.run_in call context heap fuel it
              = Normalize.run call context fuel v
           /\ Normalize.normalizeClassName_in call context heap fuel it
              = Normalize.normalizeClassName call context fuel v)
    /\ (forall v, ~ written_out self_array (Normalize.Ref 0) v)
    /\ diverges_in call context self_array (Normalize.Ref 0)
    /\ diverges fresh_chain None (VFun 0).
Proof.
  intros Ctx call context. repeat apply conj.
  - intros refs v fuel Hclosed Hv Hfuel. now apply run_terminates.
  - intros fuel v r H.
    apply (loop_NoDup call context fuel [v] (seen := []) (result := []));
      [constructor | constructor | exact H].
  - intros fuel f stack seen result Hin. simpl.
    apply seen_has_true in Hin. now rewrite Hin.
  - intros f fuel Hcall Hfuel.
    assert (Hrun : Normalize.run call context fuel (VFun f)
                   = Done (Normalize.MkFinal [] [f])).
    { destruct fuel as [|[|fuel]]; try lia.
      unfold Normalize.run. simpl. rewrite Hcall. simpl.
      unfold Normalize.seen_has. simpl. rewrite Nat.eqb_refl. simpl.
      destruct fuel; reflexivity. }
    split; [|exact Hrun].
    unfold Normalize.normalizeClassName. now rewrite Hrun.
  - intros heap it v refs fuel Hw Hclosed Hv Hfuel.
    assert (Heq : Normalize.run_in call context heap fuel it
                  = Normalize.run call context fuel v).
    { unfold Normalize.run_in, Normalize.run. apply loop_in_written.
      constructor; [exact Hw | constructor]. }
    split; [|split; [exact Heq|]].
    + rewrite Heq. now apply (run_terminates Hclosed).
    + unfold Normalize.normalizeClassName_in, Normalize.normalizeClassName.
      now rewrite Heq.
  - intros v. apply (self_array_not_written (n := size v)). apply le_n.
  - intros fuel. unfold Normalize.run_in.
    apply (@self_array_loop Ctx call context fuel []).
  - intros fuel. unfold Normalize.run. apply (fresh_chain_loop fuel 0).
Qed.

(** Two callbacks returning one another, read from the first: both are
    invoked once, no token results, and the fuel bound is met.  An array that
    holds another array twice is a value written out. *)
Lemma normalizeClassName_cycle_safe_witness :
  closed_under mutual_cycle None [0; 1]
  /\ refs_in [0; 1] (VFun 0) = true
  /\ enough_fuel mutual_cycle None [0; 1] (VFun 0) <= 3
  /\ Normalize.run mutual_cycle None 3 (VFun 0) <> OutOfFuel
  /\ Normalize.run mutual_cycle None 3 (VFun 0)
     = Done (Normalize.MkFinal [] [0; 1])
  /\ written_out shared_array (Normalize.Ref 0)
                 (VArr [VArr [VStr "x"]; VArr [VStr "x"]])
  /\ Normalize.normalizeClassName_in mutual_cycle None shared_array 7
                                     (Normalize.Ref 0)
     = Done ["x"].
Proof.
  assert (Hclosed : closed_under mutual_cycle None [0; 1]).
  { intros f v Hf Hcall. unfold mutual_cycle in Hcall. injection Hcall as <-.
    destruct Hf as [<-|[<-|[]]]; reflexivity. }
  assert (Hshared : written_out shared_array (Normalize.Ref 0)
                                (VArr [VArr [VStr "x"]; VArr [VStr "x"]])).
  { apply written_ref. simpl.
    assert (H1 : written_out shared_array (Normalize.Ref 1) (VArr [VStr "x"])).
    { apply written_ref. simpl. repeat constructor. }
    repeat constructor; exact H1. }
  destruct (@normalizeClassName_cycle_safe unit mutual_cycle None)
    as (Hterm & _ & _ & _ & Hstore & _).
  destruct (Hterm [0; 1] (VFun 0) 3 Hclosed eq_refl (le_n 3)) as [Hne Heq].
  destruct (Hstore shared_array (Normalize.Ref 0) _ [0; 1] 7
                   Hshared Hclosed eq_refl) as (_ & _ & Hnorm).
  { vm_compute. repeat constructor. }
  repeat split; try assumption; try (rewrite Hnorm; reflexivity);
    try reflexivity.
Defined.

(** ** Plugin order: the sort *)

Section SortFacts.
Variable A : Type.
Variable compare : A -> A -> Z.
Hypothesis compare_total : forall x y, (0 < compare x y)%Z -> (compare y x <= 0)%Z.
Hypothesis compare_trans :
  forall x y z, (compare x y <= 0)%Z -> (compare y z <= 0)%Z -> (compare x z <= 0)%Z.

Lemma insert_Permutation x l : Permutation (insert compare x l) (x :: l).
Proof.
  induction l as [|y r IH]; simpl; [reflexivity|].
  destruct (compare x y <=? 0)%Z; [reflexivity|].
  rewrite IH. apply perm_swap.
Qed.

Lemma sort_Permutation l : Permutation (sort compare l) l.
Proof.
  induction l as [|x r IH]; simpl; [reflexivity|].
  rewrite insert_Permutation. now constructor.
Qed.

Lemma insert_sorted x l :
  StronglySorted (fun a b => (compare a b <= 0)%Z) l ->
  StronglySorted (fun a b => (compare a b <= 0)%Z) (insert compare x l).
Proof.
  induction 1 as [|y r Hr IH Hy]; simpl.
  - repeat constructor.
  - destruct (compare x y <=? 0)%Z eqn:E.
    + apply Z.leb_le in E. constructor; [now constructor|].
      constructor; [assumption|].
      rewrite Forall_forall in *. intros z Hz. eauto.
    + apply Z.leb_gt in E. constructor; [assumption|].
      rewrite Forall_forall in *. intros z Hz.
      apply (Permutation_in _ (insert_Permutation x r)) in Hz.
      destruct Hz as [<-|Hz]; [|auto].
      apply compare_total. lia.
Qed.

Lemma sort_sorted l :
  StronglySorted (fun a b => (compare a b <= 0)%Z) (sort compare l).
Proof.
  induction l as [|x r IH]; simpl; [constructor | now apply insert_sorted].
Qed.

(** Stability: among elements that do not exceed one another, the original
    order is kept. *)
Lemma insert_filter (p : A -> bool) x l :
  (forall a b, p a = true -> p b = true -> (compare a b <= 0)%Z) ->
  filter p (insert compare x l) = filter p (x :: l).
Proof.
  intros Hp. induction l as [|y r IH]; simpl; [reflexivity|].
  destruct (compare x y <=? 0)%Z eqn:E; [reflexivity|].
  apply Z.leb_gt in E. simpl. rewrite IH. simpl.
  destruct (p x) eqn:Ex, (p y) eqn:Ey; try reflexivity.
  specialize (Hp x y Ex Ey). lia.
Qed.

Lemma sort_filter (p : A -> bool) l :
  (forall a b, p a = true -> p b = true -> (compare a b <= 0)%Z) ->
  filter p (sort compare l) = filter p l.
Proof.
  intros Hp. induction l as [|x r IH]; simpl; [reflexivity|].
  rewrite insert_filter by assumption. simpl. now rewrite IH.
Qed.

End SortFacts.

(** ** Plugin order: the constructor and [build] *)

Section BuilderFacts.
Variable Ctx : Type.

Lemma compare_plugins_le (a b : Plugin Ctx) :
  (compare_plugins a b <= 0)%Z <-> plugin_le a b.
Proof.
  unfold compare_plugins, plugin_le.
  destruct (stagePriority (stage_of a) - stagePriority (stage_of b) =? 0)%Z eqn:E;
    simpl.
  - apply Z.eqb_eq in E. lia.
  - apply Z.eqb_neq in E. lia.
Qed.

Lemma compare_plugins_total (a b : Plugin Ctx) :
  (0 < compare_plugins a b)%Z -> (compare_plugins b a <= 0)%Z.
Proof.
  intros H. apply compare_plugins_le.
  assert (Hn : ~ plugin_le a b) by (rewrite <- compare_plugins_le; lia).
  unfold plugin_le in *. lia.
Qed.

Lemma compare_plugins_trans (a b c : Plugin Ctx) :
  (compare_plugins a b <= 0)%Z -> (compare_plugins b c <= 0)%Z ->
  (compare_plugins a c <= 0)%Z.
Proof.
  rewrite !compare_plugins_le. unfold plugin_le. lia.
Qed.

Lemma same_keys_compare s o (a b : Plugin Ctx) :
  same_keys s o a = true -> same_keys s o b = true ->
  (compare_plugins a b <= 0)%Z.
Proof.
  unfold same_keys. rewrite !andb_true_iff, !Z.eqb_eq.
  intros [Ha Hoa] [Hb Hob]. apply compare_plugins_le. right.
  destruct (stage_of a), (stage_of b), s; simpl in *; try discriminate; lia.
Qed.

Lemma run_stage_filter s (plugins : list (Plugin Ctx)) : forall b,
    run_stage s plugins b = run_all (filter (has_stage s) plugins) b.
Proof.
  induction plugins as [|p rest IH]; intros b; simpl; [reflexivity|].
  unfold has_stage at 1. destruct (stage p) as [s'|]; [|apply IH].
  destruct (PluginStage_eqb s' s); simpl; [|apply IH].
  destruct (apply p b); simpl; [apply IH | reflexivity | reflexivity].
Qed.

Lemma run_callbacks_app (q1 q2 : list (Callback Ctx)) : forall f,
    run_callbacks (q1 ++ q2) f
    = let* f' := run_callbacks q1 f in run_callbacks q2 f'.
Proof.
  induction q1 as [|cb q1 IH]; intros f; simpl; [reflexivity|].
  destruct (cb f); simpl; [apply IH | reflexivity | reflexivity].
Qed.

(** In a list sorted by stage the three stage loops together visit every
    plugin once, in the order of the list. *)
Lemma stages_partition (l : list (Plugin Ctx)) :
  StronglySorted plugin_le l ->
  Forall (fun p => stage p <> None) l ->
  filter (has_stage before) l ++ filter (has_stage core) l
    ++ filter (has_stage after) l = l.
Proof.
  intros Hs Hall. induction Hs as [|p r Hr IH Hp]; [reflexivity|].
  inversion Hall as [|? ? Hst Hall']; subst. specialize (IH Hall').
  assert (Hnone : forall s,
             Forall (fun q => (stagePriority s < stagePriority (stage_of q))%Z) r ->
             filter (has_stage s) r = []).
  { intros s Hf. clear - Hf. induction Hf as [|q r Hq Hf IH]; [reflexivity|].
    simpl. rewrite IH. unfold has_stage, stage_of in *.
    destruct (stage q) as [s'|]; [|reflexivity].
    destruct s', s; simpl in *; try reflexivity; lia. }
  assert (Hge : Forall (fun q => (stagePriority (stage_of p)
                                  <= stagePriority (stage_of q))%Z) r).
  { eapply Forall_impl; [|exact Hp]. unfold plugin_le. intros q Hq. lia. }
  destruct (stage p) as [sp|] eqn:E; [|contradiction].
  assert (Hhas : forall s, has_stage s p = PluginStage_eqb sp s).
  { intros s. unfold has_stage. now rewrite E. }
  assert (Hsp : stage_of p = sp) by (unfold stage_of; now rewrite E).
  rewrite Hsp in Hge. simpl. rewrite !Hhas.
  destruct sp; simpl.
  - f_equal. exact IH.
  - assert (Hb : filter (has_stage before) r = []).
    { apply Hnone. eapply Forall_impl; [|exact Hge]. simpl. intros q Hq. lia. }
    rewrite Hb in *. simpl in *. f_equal. exact IH.
  - assert (Hb : filter (has_stage before) r = []).
    { apply Hnone. eapply Forall_impl; [|exact Hge]. simpl. intros q Hq. lia. }
    assert (Hc : filter (has_stage core) r = []).
    { apply Hnone. eapply Forall_impl; [|exact Hge]. simpl. intros q Hq. lia. }
    rewrite Hb, Hc in *. simpl in *. f_equal. exact IH.
Qed.

End BuilderFacts.

Lemma filter_Permutation {A} (p : A -> bool) l l' :
  Permutation l l' -> Permutation (filter p l) (filter p l').
Proof.
  induction 1 as [|x l l' H IH|x y l|l l' l'' H1 IH1 H2 IH2]; simpl.
  - constructor.
  - destruct (p x); [now constructor | assumption].
  - destruct (p x), (p y); try reflexivity. apply perm_swap.
  - now transitivity (filter p l').
Qed.

Section ConstructorFacts.
Variable Ctx : Type.
Variable config : ArtoConfig Ctx.
Variable selection : Variants.
Variable active : Js.jsset.
Variable ctx : option Ctx.

Lemma allPlugins_Permutation (plugins : list (Plugin Ctx)) :
  Permutation
    (allPlugins (new_ClassNameBuilder config selection active ctx (Some plugins)))
    (map (@with_defaults Ctx) plugins).
Proof.
  simpl. apply sort_Permutation.
Qed.

Lemma allPlugins_sorted (plugins : list (Plugin Ctx)) :
  StronglySorted plugin_le
    (allPlugins (new_ClassNameBuilder config selection active ctx (Some plugins))).
Proof.
  simpl.
  pose proof (sort_sorted (@compare_plugins Ctx) (@compare_plugins_total Ctx)
                          (@compare_plugins_trans Ctx)
                          (map (@with_defaults Ctx) plugins)) as H.
  induction H as [|p r Hr IH Hp]; constructor; [assumption|].
  eapply Forall_impl; [|exact Hp]. intros q. apply compare_plugins_le.
Qed.

Lemma allPlugins_stable (plugins : list (Plugin Ctx)) s o :
  filter (same_keys s o)
         (allPlugins (new_ClassNameBuilder config selection active ctx (Some plugins)))
  = filter (same_keys s o) (map (@with_defaults Ctx) plugins).
Proof.
  simpl. apply sort_filter. apply same_keys_compare.
Qed.

Lemma allPlugins_staged (plugins : list (Plugin Ctx)) :
  Forall (fun p => stage p <> None)
    (allPlugins (new_ClassNameBuilder config selection active ctx (Some plugins))).
Proof.
  rewrite Forall_forall. intros p Hp.
  apply (Permutation_in _ (allPlugins_Permutation plugins)) in Hp.
  apply in_map_iff in Hp as [q [<- _]]. discriminate.
Qed.

End ConstructorFacts.

Lemma build_stages Ctx (this : Instance Ctx) :
  build this
  = (let* b := run_all (filter (has_stage before) (allPlugins this)) (builder this) in
     let* b := run_all (filter (has_stage core) (allPlugins this)) b in
     let* b := flush (@postCoreCallbacks Ctx) b in
     let* b := run_all (filter (has_stage after) (allPlugins this)) b in
     let* b := flush (@finalBuildCallbacks Ctx) b in
     Done (finalList (fields b))).
Proof.
  unfold build, run_plugins. rewrite run_stage_filter.
  destruct (run_all (filter (has_stage before) (allPlugins this)) (builder this));
    simpl; try reflexivity.
  rewrite run_stage_filter.
  destruct (run_all (filter (has_stage core) (allPlugins this)) a);
    simpl; try reflexivity.
  destruct (flush (@postCoreCallbacks Ctx) a0); simpl; try reflexivity.
  rewrite run_stage_filter.
  destruct (run_all (filter (has_stage after) (allPlugins this)) a1);
    simpl; try reflexivity.
Qed.

(** One plugin per stage, each appending its class to the base bucket, given
    in any order and with any priorities: the build yields A, B, C. *)
Lemma build_A_B_C Ctx (config : ArtoConfig Ctx) selection active ctx oa ob oc l :
  Permutation l [appending "pre" (Some before) oa "A";
                 appending "main" None ob "B";
                 appending "post" (Some after) oc "C"] ->
  build (new_ClassNameBuilder config selection active ctx (Some l))
  = Done ["A"; "B"; "C"].
Proof.
  intros Hl. rewrite build_stages.
  assert (Hsel : forall s,
             Permutation
               (filter (has_stage s)
                  (allPlugins (new_ClassNameBuilder config selection active ctx (Some l))))
               (filter (has_stage s)
                  (map (@with_defaults Ctx)
                       [appending "pre" (Some before) oa "A";
                        appending "main" None ob "B";
                        appending "post" (Some after) oc "C"]))).
  { intros s. apply filter_Permutation.
    rewrite allPlugins_Permutation. now apply Permutation_map. }
  pose proof (Hsel before) as Hb. pose proof (Hsel core) as Hc.
  pose proof (Hsel after) as Ha.
  simpl filter at 2 in Hb. simpl filter at 2 in Hc. simpl filter at 2 in Ha.
  apply Permutation_sym, Permutation_length_1_inv in Hb, Hc, Ha.
  rewrite Hb, Hc, Ha. reflexivity.
Qed.

(** [build] with its two callback loops written out. *)
Lemma build_callbacks Ctx (this : Instance Ctx) :
  build this
  = (let* b := run_all (filter (has_stage before) (allPlugins this)) (builder this) in
     let* b := run_all (filter (has_stage core) (allPlugins this)) b in
     let* f := run_callbacks (postCoreCallbacks b) (fields b) in
     let* b := run_all (filter (has_stage after) (allPlugins this))
                       (with_fields (fun _ => f) b) in
     let* f := run_callbacks (finalBuildCallbacks b) (fields b) in
     Done (finalList f)).
Proof.
  rewrite build_stages.
  destruct (run_all (filter (has_stage before) (allPlugins this)) (builder this))
    as [b1| |]; cbn [bind]; try reflexivity.
  destruct (run_all (filter (has_stage core) (allPlugins this)) b1)
    as [b2| |]; cbn [bind]; try reflexivity.
  unfold flush at 1.
  destruct (run_callbacks (postCoreCallbacks b2) (fields b2))
    as [f3| |]; cbn [bind]; try reflexivity.
  destruct (run_all (filter (has_stage after) (allPlugins this))
                    (with_fields (fun _ => f3) b2))
    as [b4| |]; cbn [bind]; try reflexivity.
  unfold flush.
  destruct (run_callbacks (finalBuildCallbacks b4) (fields b4))
    as [f5| |]; cbn [bind]; reflexivity.
Qed.

(** A 'core' plugin that queues callbacks, between a 'before' and an 'after'
    plugin, in any order and with any priorities. *)
Lemma build_A_B_queued_C Ctx (config : ArtoConfig Ctx) selection active ctx
      oa oc (post final : Callback Ctx) l :
  Permutation l [appending "pre" (Some before) oa "A";
                 queuing "main" "B" post final;
                 appending "post" (Some after) oc "C"] ->
  build (new_ClassNameBuilder config selection active ctx (Some l))
  = (let* f1 := post (set_baseClassNames
                        ["A"; "B"]
                        (fields (builder (new_ClassNameBuilder
                                            config selection active ctx None))))
     in
     let* f2 := final (set_baseClassNames (baseClassNames f1 ++ ["C"]) f1) in
     Done (finalList f2)).
Proof.
  intros Hl. rewrite build_callbacks.
  assert (Hsel : forall s,
             Permutation
               (filter (has_stage s)
                  (allPlugins (new_ClassNameBuilder config selection active ctx (Some l))))
               (filter (has_stage s)
                  (map (@with_defaults Ctx)
                       [appending "pre" (Some before) oa "A";
                        queuing "main" "B" post final;
                        appending "post" (Some after) oc "C"]))).
  { intros s. apply filter_Permutation.
    rewrite allPlugins_Permutation. now apply Permutation_map. }
  pose proof (Hsel before) as Hb. pose proof (Hsel core) as Hc.
  pose proof (Hsel after) as Ha.
  simpl filter at 2 in Hb. simpl filter at 2 in Hc. simpl filter at 2 in Ha.
  apply Permutation_sym, Permutation_length_1_inv in Hb, Hc, Ha.
  rewrite Hb, Hc, Ha. simpl.
  destruct (post _) as [f1| |]; simpl; try reflexivity.
  destruct (final _) as [f2| |]; reflexivity.
Qed.

(** C2.  The constructor gives a plugin without stage the stage 'core' and a
    plugin without numeric priority the priority 0, then orders the list by
    stage rank (before < core < after) and, within a stage, by ascending
    priority; plugins equal on both keep their original relative order.
    [build] applies the 'before' plugins, the 'core' plugins, the post-core
    callbacks in registration order, the 'after' plugins and the final
    callbacks; the three plugin loops together walk the sorted list once.  The
    callbacks run are those the queues hold when their loop starts: a
    post-core callback and a final callback queued by a 'core' plugin run, the
    first on what the 'before' and 'core' plugins made, the second on what the
    'after' plugins made of its outcome.  A 'before' plugin appending "A", a
    default-stage plugin appending "B" and an 'after' plugin appending "C",
    in any order and with any priorities, resolve to "A B C". *)
Theorem constructor_sorts_build_runs_stages :
  forall Ctx (config : ArtoConfig Ctx) (selection : Variants) (active : Js.jsset)
         (ctx : option Ctx) (plugins : list (Plugin Ctx)),
    let this := new_ClassNameBuilder config selection active ctx (Some plugins) in
    (forall p : Plugin Ctx,
        stage (with_defaults p)
        = Some (match stage p with Some s => s | None => core end)
        /\ order (with_defaults p)
           = Some (match order p with Some o => o | None => 0%Z end))
    /\ Permutation (allPlugins this) (map (@with_defaults Ctx) plugins)
    /\ StronglySorted plugin_le (allPlugins this)
    /\ (forall s o,
           filter (same_keys s o) (allPlugins this)
           = filter (same_keys s o) (map (@with_defaults Ctx) plugins))
    /\ filter (has_stage before) (allPlugins this)
         ++ filter (has_stage core) (allPlugins this)
         ++ filter (has_stage after) (allPlugins this)
       = allPlugins this
    /\ (forall inst : Instance Ctx,
           build inst
           = (let* b := run_all (filter (has_stage before) (allPlugins inst))
                                (builder inst) in
              let* b := run_all (filter (has_stage core) (allPlugins inst)) b in
              let* f := run_callbacks (postCoreCallbacks b) (fields b) in
              let* b := run_all (filter (has_stage after) (allPlugins inst))
                                (with_fields (fun _ => f) b) in
              let* f := run_callbacks (finalBuildCallbacks b) (fields b) in
              Done (finalList f)))
    /\ (forall cb (b : ClassNameBuilder Ctx),
           postCoreCallbacks (addPostCoreCallback cb b) = postCoreCallbacks b ++ [cb]
           /\ finalBuildCallbacks (addFinalBuildCallback cb b)
              = finalBuildCallbacks b ++ [cb])
    /\ (forall (q : list (Callback Ctx)) cb f,
           run_callbacks (q ++ [cb]) f = let* f' := run_callbacks q f in cb f')
    /\ (forall oa ob oc l,
           Permutation l [appending "pre" (Some before) oa "A";
                          appending "main" None ob "B";
                          appending "post" (Some after) oc "C"] ->
           build (new_ClassNameBuilder config selection active ctx (Some l))
           = Done ["A"; "B"; "C"])
    /\ (forall (call : fnid -> option Ctx -> completion) fuel oa ob oc
               (l : list (Plugin Ctx)),
           Permutation l [appending "pre" (Some before) oa "A";
                          appending "main" None ob "B";
                          appending "post" (Some after) oc "C"] ->
           arto call fuel empty_config (Some l) [] None = Done "A B C")
    /\ (forall oa oc (post final : Callback Ctx) l,
           Permutation l [appending "pre" (Some before) oa "A";
                          queuing "main" "B" post final;
                          appending "post" (Some after) oc "C"] ->
           build (new_ClassNameBuilder config selection active ctx (Some l))
           = (let* f1 := post (set_baseClassNames ["A"; "B"]
                                                  (fields (builder this))) in
              let* f2 := final (set_baseClassNames (baseClassNames f1 ++ ["C"])
                                                   f1) in
              Done (finalList f2)))
    /\ (forall (call : fnid -> option Ctx -> completion) fuel oa oc
               (l : list (Plugin Ctx)),
           Permutation l [appending "pre" (Some before) oa "A";
                          queuing "main" "B" (appending_callback "cb")
                                  (appending_callback "end");
                          appending "post" (Some after) oc "C"] ->
           arto call fuel empty_config (Some l) [] None = Done "A B cb C end").
Proof.
  intros Ctx config selection active ctx plugins this. repeat apply conj.
  - intros p. split; reflexivity.
  - apply allPlugins_Permutation.
  - apply allPlugins_sorted.
  - intros s o. apply allPlugins_stable.
  - apply stages_partition; [apply allPlugins_sorted | apply allPlugins_staged].
  - apply build_callbacks.
  - intros cb b. split; reflexivity.
  - intros q cb f. rewrite run_callbacks_app. simpl.
    destruct (run_callbacks q f); simpl; try reflexivity.
    now destruct (cb a).
  - intros oa ob oc l Hl. now apply build_A_B_C with (oa := oa) (ob := ob) (oc := oc).
  - intros call fuel oa ob oc l Hl. unfold arto, arto_builder. simpl.
    rewrite !app_nil_r.
    rewrite (@build_A_B_C Ctx _ _ _ _ oa ob oc l Hl). reflexivity.
  - intros oa oc post final l Hl.
    now apply build_A_B_queued_C with (oa := oa) (oc := oc).
  - intros call fuel oa oc l Hl. unfold arto, arto_builder. simpl.
    rewrite !app_nil_r.
    rewrite (@build_A_B_queued_C Ctx _ _ _ _ oa oc _ _ l Hl). reflexivity.
Qed.

(** The three plugins given last stage first; and with the 'core' plugin
    queuing two callbacks. *)
Lemma constructor_sorts_build_runs_stages_witness :
  Permutation
    [appending (Ctx := unit) "post" (Some after) (Some 0%Z) "C";
     appending "pre" (Some before) (Some 5%Z) "A";
     appending "main" None None "B"]
    [appending "pre" (Some before) (Some 5%Z) "A";
     appending "main" None None "B";
     appending "post" (Some after) (Some 0%Z) "C"]
  /\ arto no_callbacks 0 empty_config
          (Some [appending "post" (Some after) (Some 0%Z) "C";
                 appending "pre" (Some before) (Some 5%Z) "A";
                 appending "main" None None "B"]) [] None
     = Done "A B C"
  /\ arto no_callbacks 0 empty_config
          (Some [appending "post" (Some after) (Some 0%Z) "C";
                 appending "pre" (Some before) (Some 5%Z) "A";
                 queuing "main" "B" (appending_callback "cb")
                         (appending_callback "end")]) [] None
     = Done "A B cb C end".
Proof.
  assert (Hp : forall p : Plugin unit,
             Permutation
               [appending "post" (Some after) (Some 0%Z) "C";
                appending "pre" (Some before) (Some 5%Z) "A"; p]
               [appending "pre" (Some before) (Some 5%Z) "A"; p;
                appending "post" (Some after) (Some 0%Z) "C"]).
  { intros p.
    apply (Permutation_cons_append
             [appending (Ctx := unit) "pre" (Some before) (Some 5%Z) "A"; p]). }
  split; [apply Hp|].
  destruct (@constructor_sorts_build_runs_stages unit empty_config [] [] None [])
    as (_ & _ & _ & _ & _ & _ & _ & _ & _ & Harto & _ & Hqueued).
  split.
  - exact (Harto no_callbacks 0 _ _ _ _ (Hp _)).
  - exact (Hqueued no_callbacks 0 _ _ _ (Hp _)).
Defined.

(** The stage order seen from a callback: queued by the 'core' plugin, it runs
    after "A" and "B" were appended and before "C" is. *)
Example build_callback_between_core_and_after :
  build (new_ClassNameBuilder (@empty_config unit) [] [] None
           (Some [appending "post" (Some after) None "C";
                  {| id := "main"; stage := None; order := None;
                     apply := fun b =>
                       Done (addPostCoreCallback
                               (fun f => Done (set_baseClassNames
                                                 (baseClassNames f ++ ["cb"]) f))
                               (addBaseClasses ["B"] b)) |};
                  appending "pre" (Some before) (Some 7%Z) "A"]))
  = Done ["A"; "B"; "cb"; "C"].
Proof. reflexivity. Qed.

(** ** The final list *)

Lemma finalList_when_buckets_active Ctx (f : Fields Ctx) :
  (forall st, In st (Js.keys (globalStateClassNames f)) ->
              Js.has (activeStates f) st = true) ->
  finalList f = finalList_active_only f.
Proof.
  intros H. unfold finalList, finalList_active_only, bucket.
  do 3 f_equal.
  induction (globalStateClassNames f) as [|[k v] r IH]; [reflexivity|].
  simpl. rewrite (H k) by (now left). f_equal.
  apply IH. intros st Hst. apply H. now right.
Qed.

(** Writing a property: a known key keeps its place, a new key goes last. *)
Lemma keys_set {V} (o : Js.obj V) k v :
  Js.keys (Js.set o k v)
  = if in_dec string_dec k (Js.keys o) then Js.keys o else Js.keys o ++ [k].
Proof.
  induction o as [|[k' v'] r IH]; simpl; [reflexivity|].
  destruct (String.eqb k' k) eqn:E; simpl.
  - apply String.eqb_eq in E. subst k'.
    destruct (string_dec k k); [|contradiction].
    destruct (in_dec string_dec k (Js.keys r)); reflexivity.
  - apply String.eqb_neq in E. rewrite IH.
    destruct (string_dec k' k); [contradiction|].
    destruct (in_dec string_dec k (Js.keys r)); reflexivity.
Qed.

(** C1 (the code departs from the claim).  [build] returns the base bucket,
    then the variant buckets in property order, then for each variant its
    (variant, state) buckets for the states of the active set, then every
    global-state bucket, with no test against the active set; buckets are
    concatenated as they are, so a class present in two buckets comes twice.
    Classes join the base bucket at its end, and a variant bucket is created
    after those that exist.
    The result is the list the claim describes whenever every global-state
    bucket belongs to an active state.  On [inactive_hover], where a plugin
    fills the bucket of the inactive state 'hover', [build] returns
    ['bg-hover'] where the claim (and [getAllClasses]) give the empty list. *)
Theorem build_emits_inactive_global_state_buckets :
  (forall Ctx (this : Instance Ctx) b,
      run_plugins this = Done b -> build this = Done (finalList (fields b)))
  /\ (forall Ctx (b : ClassNameBuilder Ctx) variantKey classNames,
         getBaseClasses (addBaseClasses classNames b) = getBaseClasses b ++ classNames
         /\ Js.keys (getVariantClassMap (addVariantClasses variantKey classNames b))
            = if in_dec string_dec variantKey (Js.keys (getVariantClassMap b))
              then Js.keys (getVariantClassMap b)
              else Js.keys (getVariantClassMap b) ++ [variantKey])
  /\ (forall Ctx (f : Fields Ctx),
         (forall st, In st (Js.keys (globalStateClassNames f)) ->
                     Js.has (activeStates f) st = true) ->
         finalList f = finalList_active_only f)
  /\ build inactive_hover = Done ["bg-hover"]
  /\ (exists b, run_plugins inactive_hover = Done b
                /\ activeStates (fields b) = []
                /\ finalList_active_only (fields b) = []
                /\ getAllClasses b = [])
  /\ build (new_ClassNameBuilder (@empty_config unit) [] [] None
                                 (Some [twice_plugin "x"]))
     = Done ["x"; "x"].
Proof.
  repeat apply conj.
  - intros Ctx this b H. unfold build. now rewrite H.
  - intros Ctx b variantKey classNames. split; [reflexivity|].
    unfold getVariantClassMap. simpl. apply keys_set.
  - apply finalList_when_buckets_active.
  - reflexivity.
  - eexists. split; [reflexivity|]. repeat split.
  - reflexivity.
Qed.

(** ** Rules *)

Section RulesFacts.
Variable Ctx : Type.
Variable call : fnid -> option Ctx -> completion.
Variable fuel : nat.



Lemma normalize_single_string s ctx :
  1 <= fuel ->
  normalizeClassName call fuel (VStr s) ctx
  = Done (distinct (Normalize.fragments s)).
Proof.
  intros H. unfold normalizeClassName.
  rewrite normalizeClassName_callback_free; [|reflexivity|exact H].
  simpl. reflexivity.
Qed.

End RulesFacts.



(** ** Variants *)

Section VariantsFacts.
Variable Ctx : Type.
Variable call : fnid -> option Ctx -> completion.
Variable fuel : nat.

Lemma loop_Thrown context n : forall stack seen result e,
    Normalize.loop call context n stack seen result = Thrown e ->
    exists msg, e = ArtoError ("Error resolving class function: " ++ msg)%string.
Proof.
  induction n as [|n IH]; intros stack seen result e H.
  - destruct stack; discriminate.
  - destruct stack as [|v stack]; [discriminate|].
    simpl in H. destruct v; try (now apply IH in H).
    destruct (Normalize.seen_has seen f); [now apply IH in H|].
    destruct (call f context) as [resolved|msg].
    + destruct (truthy resolved); now apply IH in H.
    + injection H as <-. now exists msg.
Qed.

Lemma normalizeClassName_Thrown v context e :
  normalizeClassName call fuel v context = Thrown e ->
  exists msg, e = ArtoError ("Error resolving class function: " ++ msg)%string.
Proof.
  unfold normalizeClassName, Normalize.normalizeClassName, Normalize.run.
  destruct (Normalize.loop call context fuel [v] [] []) eqn:E; simpl;
    try discriminate.
  intros H. injection H as <-. now apply loop_Thrown in E.
Qed.

Lemma mergeVariantStates_loop_Thrown variantKey act context entries :
  forall (b : ClassNameBuilder Ctx) e,
    mergeVariantStates_loop call fuel variantKey act context entries b = Thrown e ->
    processing_error e.
Proof.
  induction entries as [|[stateName stateInput] rest IH]; intros b e H;
    [discriminate|].
  change (mergeVariantStates_loop call fuel variantKey act context
            ((stateName, stateInput) :: rest) b)
    with (let* b' := mergeVariantStates_step call fuel variantKey act context
                                             (stateName, stateInput) b in
          mergeVariantStates_loop call fuel variantKey act context rest b') in H.
  destruct (mergeVariantStates_step call fuel variantKey act context
                                    (stateName, stateInput) b) eqn:E;
    cbn [bind] in H; try discriminate.
  - now apply IH in H.
  - injection H as <-. unfold mergeVariantStates_step in E.
    destruct (negb (StateInput_truthy stateInput)); [discriminate|].
    destruct stateInput as [c|cfg].
    + destruct (isClassNameType c).
      * destruct (normalizeClassName call fuel c context) eqn:En;
          simpl in E; try discriminate.
        injection E as <-. left. now apply normalizeClassName_Thrown in En.
      * injection E as <-. right. right. now exists stateName.
    + destruct (negb (checkStateDependencies (sc_dependsOn cfg) act context));
        [discriminate|].
      destruct (normalizeClassName call fuel (sc_className cfg) context) eqn:En;
        simpl in E; try discriminate.
      injection E as <-. left. now apply normalizeClassName_Thrown in En.
Qed.

Lemma processVariantConfig_Thrown variantKey variantConfig
      (b : ClassNameBuilder Ctx) context e :
  processVariantConfig call fuel variantKey variantConfig b context = Thrown e ->
  processing_error e.
Proof.
  unfold processVariantConfig. destruct variantConfig as [c|cfg].
  - destruct (isClassNameType c).
    + destruct (normalizeClassName call fuel c context) eqn:En;
        simpl; try discriminate.
      intros H. injection H as <-. left. now apply normalizeClassName_Thrown in En.
    + intros H. injection H as <-. right. now left.
  - assert (Hcls : forall o : outcome (list string),
               (forall e', o = Thrown e' -> processing_error e') ->
               (let* classes := o in
                let* builder :=
                  match vc_states cfg with
                  | Some statesObj =>
                      mergeVariantStates call fuel variantKey statesObj b context
                  | None => Done b
                  end in
                Done (classes, builder)) = Thrown e ->
               processing_error e).
    { intros o Ho H. destruct o as [classes|e'|]; simpl in H; try discriminate.
      - destruct (vc_states cfg) as [statesObj|]; simpl in H; [|discriminate].
        unfold mergeVariantStates in H.
        destruct (mergeVariantStates_loop call fuel variantKey
                    (getActiveStates b) context statesObj b) eqn:El;
          simpl in H; try discriminate.
        injection H as <-. now apply mergeVariantStates_loop_Thrown in El.
      - injection H as <-. now apply Ho. }
    apply Hcls. intros e' He'.
    destruct (vc_className cfg) as [className|]; [|discriminate].
    destruct (truthy className); [|discriminate].
    left. now apply normalizeClassName_Thrown in He'.
Qed.

Lemma ArtoError_inj m1 m2 : ArtoError m1 = ArtoError m2 -> m1 = m2.
Proof.
  unfold ArtoError. intros H. injection H as H.
  simpl in H. now repeat (injection H as H).
Qed.

Lemma invalid_value_not_processing v k :
  ~ processing_error (ArtoError (invalid_value_message v k)).
Proof.
  intros [[msg H]|[H|[n H]]]; apply ArtoError_inj in H;
    unfold invalid_value_message in H; simpl in H; discriminate.
Qed.

End VariantsFacts.

Lemma get_Some_In_keys {V} (o : Js.obj V) k v : Js.get o k = Some v -> In k (Js.keys o).
Proof.
  induction o as [|[k' v'] r IH]; simpl; [discriminate|].
  destruct (String.eqb k' k) eqn:E.
  - apply String.eqb_eq in E. now left.
  - intros H. right. now apply IH.
Qed.

Section VariantsStepFacts.
Variable Ctx : Type.
Variable call : fnid -> option Ctx -> completion.
Variable fuel : nat.
Variable variants : VariantOptions Ctx.
Variable sel : Variants.
Variable ctx : option Ctx.

Lemma VariantsPlugin_step_skip k (b : ClassNameBuilder Ctx) :
  Js.get sel k = None \/ Js.get sel k = Some None ->
  VariantsPlugin_step call fuel variants sel ctx k b = Done b.
Proof.
  unfold VariantsPlugin_step. now intros [-> | ->].
Qed.

Lemma VariantsPlugin_step_falsy k v opts (b : ClassNameBuilder Ctx) :
  Js.get sel k = Some (Some v) ->
  Js.get variants k = Some (Some opts) ->
  entry_falsy (lookup_entry opts (String_of v)) ->
  VariantsPlugin_step call fuel variants sel ctx k b
  = Thrown (ArtoError (invalid_value_message v k)).
Proof.
  intros Hs Hv He. unfold VariantsPlugin_step. rewrite Hs, Hv. cbv zeta.
  destruct (lookup_entry opts (String_of v)) as [e|]; [|reflexivity].
  simpl in He. now rewrite He.
Qed.

Lemma VariantsPlugin_step_truthy k v opts e (b : ClassNameBuilder Ctx) :
  Js.get sel k = Some (Some v) ->
  Js.get variants k = Some (Some opts) ->
  lookup_entry opts (String_of v) = Some e ->
  VariantInput_truthy e = true ->
  VariantsPlugin_step call fuel variants sel ctx k b
  <> Thrown (ArtoError (invalid_value_message v k)).
Proof.
  intros Hs Hv He Ht. unfold VariantsPlugin_step. rewrite Hs, Hv. cbv zeta.
  rewrite He, Ht.
  destruct (processVariantConfig call fuel k e b ctx) eqn:E; simpl;
    try discriminate.
  intros H. injection H as ->.
  apply processVariantConfig_Thrown in E.
  now apply invalid_value_not_processing in E.
Qed.



End VariantsStepFacts.

Section VariantsApplyFacts.
Variable Ctx : Type.
Variable call : fnid -> option Ctx -> completion.
Variable fuel : nat.




End VariantsApplyFacts.

Section VariantsReachFacts.
Variable Ctx : Type.
Variable call : fnid -> option Ctx -> completion.
Variable fuel : nat.




End VariantsReachFacts.




(** C10.  For a key with a non-null selection and declared values, the step
    of the variants plugin throws [Invalid value '<value>' for variant '<key>'.]
    exactly when what is looked up for the selected value is falsy: absent,
    or present with a falsy class expression.  So a declared value mapped to
    '' throws that very error, while a selection of null or undefined (or none)
    for the key skips the variant without error. *)
Theorem invalid_value_iff_entry_falsy :
  forall Ctx (call : fnid -> option Ctx -> completion) (fuel : nat)
         (variants : VariantOptions Ctx) (sel : Variants) (ctx : option Ctx)
         (k : string) (b : ClassNameBuilder Ctx),
    (Js.get sel k = None \/ Js.get sel k = Some None ->
     VariantsPlugin_step call fuel variants sel ctx k b = Done b)
    /\ (forall v opts,
           Js.get sel k = Some (Some v) ->
           Js.get variants k = Some (Some opts) ->
           (VariantsPlugin_step call fuel variants sel ctx k b
            = Thrown (ArtoError (invalid_value_message v k))
            <-> entry_falsy (lookup_entry opts (String_of v))))
    /\ Js.get (V := VariantInput Ctx)
              [("small", VariantClass (VStr "btn-sm"));
               ("large", VariantClass (VStr "btn-lg"));
               ("none", VariantClass (VStr ""))] "none"
       = Some (VariantClass (VStr ""))
    /\ arto call fuel config_size None [] (select_size (Some (VVStr "none")))
       = Thrown (ArtoError "Invalid value 'none' for variant 'size'.")
    /\ arto call fuel config_size None [] (select_size None) = Done ""
    /\ arto call fuel config_size None [] None = Done "".
Proof.
  intros Ctx call fuel variants sel ctx k b. repeat apply conj.
  - apply VariantsPlugin_step_skip.
  - intros v opts Hs Hv. split.
    + intros H. destruct (lookup_entry opts (String_of v)) as [e|] eqn:He;
        [|exact I].
      simpl. destruct (VariantInput_truthy e) eqn:Ht; [|reflexivity].
      exfalso. revert H. now apply VariantsPlugin_step_truthy with (opts := opts) (e := e).
    + now apply VariantsPlugin_step_falsy.
  - reflexivity.
  - reflexivity.
  - reflexivity.
  - reflexivity.
Qed.

(** The size 'none' is declared, with the empty string as its classes. *)
Lemma invalid_value_iff_entry_falsy_witness :
  entry_falsy (lookup_entry (Ctx := unit)
                            [("small", VariantClass (VStr "btn-sm"));
                             ("large", VariantClass (VStr "btn-lg"));
                             ("none", VariantClass (VStr ""))] "none")
  /\ VariantsPlugin_step no_callbacks 4
       [("size", Some [("small", VariantClass (VStr "btn-sm"));
                       ("large", VariantClass (VStr "btn-lg"));
                       ("none", VariantClass (VStr ""))])]
       [("size", Some (VVStr "none"))] None "size"
       (builder (arto_builder no_callbacks 4 config_size None []
                              (select_size (Some (VVStr "none")))))
     = Thrown (ArtoError (invalid_value_message (VVStr "none") "size")).
Proof.
  split; [reflexivity|].
  destruct (@invalid_value_iff_entry_falsy unit no_callbacks 4
              [("size", Some [("small", VariantClass (VStr "btn-sm"));
                              ("large", VariantClass (VStr "btn-lg"));
                              ("none", VariantClass (VStr ""))])]
              [("size", Some (VVStr "none"))] None "size"
              (builder (arto_builder no_callbacks 4 config_size None []
                                     (select_size (Some (VVStr "none"))))))
    as (_ & Hiff & _).
  apply (Hiff (VVStr "none") _ eq_refl eq_refl). reflexivity.
Defined.

(** ** Selection and active states *)

Lemma get_set {V} (o : Js.obj V) k v k' :
  Js.get (Js.set o k v) k' = if String.eqb k k' then Some v else Js.get o k'.
Proof.
  induction o as [|[k0 v0] r IH]; simpl.
  - reflexivity.
  - destruct (String.eqb k0 k) eqn:E0; simpl.
    + apply String.eqb_eq in E0. subst k0.
      destruct (String.eqb k k'); reflexivity.
    + destruct (String.eqb k0 k') eqn:E1; [|apply IH].
      apply String.eqb_eq in E1. subst k0. now rewrite String.eqb_sym, E0.
Qed.

Lemma of_list_In l x : In x (Js.of_list l) <-> In x l.
Proof.
  unfold Js.of_list. rewrite fold_add_nil. apply distinct_In.
Qed.

Lemma of_list_NoDup l : NoDup (Js.of_list l).
Proof.
  unfold Js.of_list. rewrite fold_add_nil. apply distinct_NoDup.
Qed.

Lemma get_In {V} (o : Js.obj V) k v : Js.get o k = Some v -> In (k, v) o.
Proof.
  induction o as [|[k' v'] r IH]; simpl; [discriminate|].
  destruct (String.eqb k' k) eqn:E.
  - apply String.eqb_eq in E. intros H. injection H as ->. subst. now left.
  - intros H. right. now apply IH.
Qed.

Lemma In_get {V} (o : Js.obj V) k v :
  NoDup (Js.keys o) -> In (k, v) o -> Js.get o k = Some v.
Proof.
  induction o as [|[k' v'] r IH]; simpl; [intros _ []|].
  intros Hnd [H|H].
  - injection H as -> ->. now rewrite String.eqb_refl.
  - inversion Hnd as [|? ? Hnin Hnd']; subst.
    destruct (String.eqb k' k) eqn:E.
    + apply String.eqb_eq in E. subst k'. exfalso. apply Hnin.
      unfold Js.keys. apply in_map_iff. now exists (k, v).
    + now apply IH.
Qed.

Section MergeFacts.
Variable user : Variants.

Lemma merge_fold keys : forall (final : Variants) k,
    Js.get
      (fold_left
         (fun final key =>
            match Js.get user key with
            | Some (Some v) => Js.set final key (Some v)
            | _ => final
            end) keys final) k
    = match Js.get user k with
      | Some (Some v) => if in_dec string_dec k keys then Some (Some v)
                         else Js.get final k
      | _ => Js.get final k
      end.
Proof.
  induction keys as [|key keys IH]; intros final k; simpl.
  - now destruct (Js.get user k) as [[v|]|].
  - rewrite IH. destruct (string_dec key k) as [->|Hne].
    + destruct (Js.get user k) as [[v|]|]; try reflexivity.
      destruct (in_dec string_dec k keys); [reflexivity|].
      now rewrite get_set, String.eqb_refl.
    + destruct (Js.get user k) as [[v|]|] eqn:Ek.
      * destruct (in_dec string_dec k keys); [reflexivity|].
        destruct (Js.get user key) as [[w|]|]; try reflexivity.
        rewrite get_set. apply String.eqb_neq in Hne. now rewrite Hne.
      * destruct (Js.get user key) as [[w|]|]; try reflexivity.
        rewrite get_set. apply String.eqb_neq in Hne. now rewrite Hne.
      * destruct (Js.get user key) as [[w|]|]; try reflexivity.
        rewrite get_set. apply String.eqb_neq in Hne. now rewrite Hne.
Qed.

End MergeFacts.

Lemma safeMergeDefaults_get (defaults user : Variants) k :
  Js.get (safeMergeDefaults defaults (Some user)) k
  = match Js.get user k with
    | Some (Some v) => Some (Some v)
    | _ => Js.get defaults k
    end.
Proof.
  unfold safeMergeDefaults. rewrite merge_fold.
  destruct (Js.get user k) as [[v|]|] eqn:E; try reflexivity.
  destruct (in_dec string_dec k (Js.keys user)) as [|Hn]; [reflexivity|].
  exfalso. apply Hn. now apply get_Some_In_keys in E.
Qed.

Lemma collectTrueKeys_In (record : Js.obj value) k :
  In k (collectTrueKeys (Some record)) <-> In (k, VBool true) record.
Proof.
  unfold collectTrueKeys. rewrite of_list_In, in_map_iff. split.
  - intros [[k' v] [Hk Hin]]. simpl in Hk. subst k'.
    apply filter_In in Hin as [Hin Ht]. simpl in Ht.
    destruct v as [| |[|]| | | | |]; try discriminate. assumption.
  - intros Hin. exists (k, VBool true). split; [reflexivity|].
    apply filter_In. now split.
Qed.

(** C8.  The builder receives as selection the shallow merge of the configured
    defaults with the caller's variants: a key the caller gives a value other
    than null or undefined has the caller's value, every other key keeps what
    the defaults hold for it.  It receives as active states the set of the keys
    of the caller's state map whose value is the boolean true; keys holding
    false, another kind of value, or missing are not in it. *)
Theorem selection_merged_and_true_states_collected :
  forall Ctx (call : fnid -> option Ctx -> completion) (fuel : nat)
         (config : ArtoConfig Ctx) plugins hub (options : option (Options Ctx)),
    getSelectedVariants (builder (arto_builder call fuel config plugins hub options))
    = safeMergeDefaults (configured_defaults config)
                        (Some (requested_variants options))
    /\ getActiveStates (builder (arto_builder call fuel config plugins hub options))
       = collectTrueKeys (Some (requested_states options))
    /\ (forall defaults user k,
           Js.get (safeMergeDefaults defaults (Some user)) k
           = match Js.get user k with
             | Some (Some v) => Some (Some v)
             | _ => Js.get defaults k
             end)
    /\ (forall defaults, safeMergeDefaults defaults None = defaults)
    /\ (forall record k,
           In k (collectTrueKeys (Some record)) <-> In (k, VBool true) record)
    /\ (forall record k,
           NoDup (Js.keys record) ->
           (Js.has (collectTrueKeys (Some record)) k = true
            <-> Js.get record k = Some (VBool true)))
    /\ (forall record, NoDup (collectTrueKeys record))
    /\ collectTrueKeys None = []
    /\ collectTrueKeys (Some [("disabled", VBool true); ("loading", VBool false);
                              ("hovered", VNum 1); ("pressed", VStr "true");
                              ("focused", VUndefined)])
       = ["disabled"]
    /\ safeMergeDefaults
         [("size", Some (VVStr "small")); ("color", Some (VVStr "blue"));
          ("tone", Some (VVStr "calm"))]
         (Some [("size", None); ("color", Some (VVStr "red"))])
       = [("size", Some (VVStr "small")); ("color", Some (VVStr "red"));
          ("tone", Some (VVStr "calm"))].
Proof.
  intros Ctx call fuel config plugins hub options. repeat apply conj;
    try reflexivity.
  - apply safeMergeDefaults_get.
  - apply collectTrueKeys_In.
  - intros record k Hnd. rewrite has_true, collectTrueKeys_In. split.
    + now apply In_get.
    + apply get_In.
  - intros [record|]; [apply of_list_NoDup | constructor].
Qed.

(** A state map with one true key. *)
Lemma selection_merged_and_true_states_collected_witness :
  NoDup (Js.keys [("disabled", VBool true); ("loading", VBool false)])
  /\ Js.has (collectTrueKeys (Some [("disabled", VBool true);
                                    ("loading", VBool false)])) "disabled"
     = true
  /\ Js.get (safeMergeDefaults [("size", Some (VVStr "small"))]
                               (Some [("size", None)])) "size"
     = Some (Some (VVStr "small")).
Proof.
  assert (Hnd : NoDup (Js.keys [("disabled", VBool true); ("loading", VBool false)])).
  { repeat constructor; simpl; intuition discriminate. }
  destruct (@selection_merged_and_true_states_collected
              unit no_callbacks 0 empty_config None [] None)
    as (_ & _ & Hmerge & _ & _ & Hkeys & _).
  split; [exact Hnd|]. split.
  - apply (Hkeys _ "disabled" Hnd). reflexivity.
  - rewrite Hmerge. reflexivity.
Defined.

(** ** States *)



Lemma bucket_set (o : Js.obj (list string)) k v k' :
  bucket (Js.set o k v) k' = if String.eqb k k' then v else bucket o k'.
Proof.
  unfold bucket. rewrite get_set. now destruct (String.eqb k k').
Qed.

Section StatesFacts.
Variable Ctx : Type.
Variable call : fnid -> option Ctx -> completion.
Variable fuel : nat.
Variable stateConfigs : StatesOptions Ctx.
Variable act : Js.jsset.
Variable ctx : option Ctx.




End StatesFacts.




(* ====================================================================== *)
(** * Further properties of the code *)

(** ** PluginRegistry *)

Section RegistryFacts.
Variable Ctx : Type.

Lemma unregister_cons wanted (p : Plugin Ctx) rest :
  unregister wanted (p :: rest)
  = if String.eqb (id p) wanted then rest else p :: unregister wanted rest.
Proof.
  unfold unregister. simpl. destruct (String.eqb (id p) wanted); [reflexivity|].
  destruct (findIndex wanted rest); reflexivity.
Qed.

Lemma findIndex_None wanted (plugins : list (Plugin Ctx)) :
  findIndex wanted plugins = None <-> ~ In wanted (map (@id Ctx) plugins).
Proof.
  induction plugins as [|p rest IH]; simpl; [tauto|].
  destruct (String.eqb (id p) wanted) eqn:E.
  - apply String.eqb_eq in E. split; [discriminate | tauto].
  - apply String.eqb_neq in E.
    destruct (findIndex wanted rest) as [i|].
    + split; [discriminate|]. intros H. exfalso. apply H. right.
      destruct (in_dec string_dec wanted (map (@id Ctx) rest)) as [Hin|Hn];
        [assumption|].
      apply IH in Hn. discriminate.
    + split; [|reflexivity]. intros _ [H|H]; [contradiction|].
      revert H. now apply IH.
Qed.

Lemma unregister_absent wanted (plugins : list (Plugin Ctx)) :
  ~ In wanted (map (@id Ctx) plugins) -> unregister wanted plugins = plugins.
Proof.
  intros H. apply findIndex_None in H. unfold unregister. now rewrite H.
Qed.

(** With distinct ids, [unregister] removes every plugin of that id. *)
Lemma unregister_filter wanted (plugins : list (Plugin Ctx)) :
  NoDup (map (@id Ctx) plugins) ->
  unregister wanted plugins
  = filter (fun p => negb (String.eqb (id p) wanted)) plugins.
Proof.
  induction plugins as [|p rest IH]; intros Hnd; [reflexivity|].
  inversion Hnd as [|? ? Hnin Hnd']; subst.
  rewrite unregister_cons. simpl.
  destruct (String.eqb (id p) wanted) eqn:E; simpl.
  - apply String.eqb_eq in E. subst wanted.
    rewrite <- (unregister_absent _ _ Hnin) at 1. now apply IH.
  - f_equal. now apply IH.
Qed.

Lemma filter_ids_NoDup (f : Plugin Ctx -> bool) plugins :
  NoDup (map (@id Ctx) plugins) -> NoDup (map (@id Ctx) (filter f plugins)).
Proof.
  induction plugins as [|p rest IH]; intros Hnd; [constructor|].
  inversion Hnd as [|? ? Hnin Hnd']; subst. simpl.
  destruct (f p); simpl; [|now apply IH].
  constructor; [|now apply IH].
  intros Hin. apply Hnin. apply in_map_iff in Hin as [q [Hq Hin]].
  apply filter_In in Hin as [Hin _]. apply in_map_iff. now exists q.
Qed.

Lemma register_ok production (p : Plugin Ctx) plugins :
  Normalize.nonempty (id p) = true \/ production = true ->
  register production p plugins = (unregister (id p) plugins ++ [p], None).
Proof.
  intros H. unfold register.
  assert (E : negb (Normalize.nonempty (id p)) && negb production = false).
  { destruct H as [-> | ->]; [reflexivity | apply andb_false_r]. }
  rewrite E. destruct (findIndex (id p) plugins) eqn:Ef; [reflexivity|].
  unfold unregister. now rewrite Ef.
Qed.

Lemma register_NoDup production (p : Plugin Ctx) plugins :
  NoDup (map (@id Ctx) plugins) ->
  NoDup (map (@id Ctx) (fst (register production p plugins))).
Proof.
  intros Hnd. unfold register.
  destruct (negb (Normalize.nonempty (id p)) && negb production); [assumption|].
  assert (Hun : (match findIndex (id p) plugins with
                 | Some _ => unregister (id p) plugins
                 | None => plugins
                 end) = unregister (id p) plugins).
  { destruct (findIndex (id p) plugins) eqn:Ef; [reflexivity|].
    unfold unregister. now rewrite Ef. }
  rewrite Hun. simpl. rewrite unregister_filter by assumption.
  rewrite map_app. simpl. apply NoDup_app.
  - now apply filter_ids_NoDup.
  - repeat constructor. intros [].
  - intros x Hx [<-|[]]. apply in_map_iff in Hx as [q [Hq Hin]].
    apply filter_In in Hin as [_ Hne]. apply negb_true_iff, String.eqb_neq in Hne.
    contradiction.
Qed.

Lemma registerBatch_NoDup production batch : forall plugins : list (Plugin Ctx),
    NoDup (map (@id Ctx) plugins) ->
    NoDup (map (@id Ctx) (fst (registerBatch production batch plugins))).
Proof.
  induction batch as [|p rest IH]; intros plugins Hnd; [assumption|].
  simpl. pose proof (@register_NoDup production p plugins Hnd) as H1.
  destruct (register production p plugins) as [plugins' [e|]]; simpl in *;
    [assumption | now apply IH].
Qed.

Lemma registerBatch_fresh production batch : forall plugins : list (Plugin Ctx),
    NoDup (map (@id Ctx) (plugins ++ batch)) ->
    Forall (fun p => Normalize.nonempty (id p) = true \/ production = true) batch ->
    registerBatch production batch plugins = (plugins ++ batch, None).
Proof.
  induction batch as [|p rest IH]; intros plugins Hnd Hids.
  - now rewrite app_nil_r.
  - inversion Hids as [|? ? Hp Hrest]; subst. simpl.
    rewrite register_ok by assumption.
    assert (Hfresh : ~ In (id p) (map (@id Ctx) plugins)).
    { rewrite map_app in Hnd. simpl in Hnd.
      apply NoDup_remove_2 in Hnd. intros Hin. apply Hnd.
      apply in_or_app. now left. }
    rewrite (unregister_absent _ _ Hfresh).
    rewrite IH; [now rewrite <- app_assoc | now rewrite <- app_assoc | assumption].
Qed.

End RegistryFacts.

Lemma registerBatch_app Ctx production (b1 b2 : list (Plugin Ctx)) : forall plugins,
    registerBatch production (b1 ++ b2) plugins
    = match registerBatch production b1 plugins with
      | (plugins', None) => registerBatch production b2 plugins'
      | (plugins', Some e) => (plugins', Some e)
      end.
Proof.
  induction b1 as [|p rest IH]; intros plugins; [reflexivity|].
  simpl. destruct (register production p plugins) as [plugins' [e|]];
    [reflexivity | apply IH].
Qed.

(** X1.  The ids of a registry stay distinct: [register] and [registerBatch]
    keep them so.  A registration that succeeds removes the plugin that had
    the same id, keeps the others in their order and puts the new plugin
    last. *)
Theorem register_keeps_ids_distinct :
  forall Ctx production (p : Plugin Ctx) (plugins : list (Plugin Ctx)),
    NoDup (map (@id Ctx) plugins) ->
    NoDup (map (@id Ctx) (fst (register production p plugins)))
    /\ (snd (register production p plugins) = None ->
        getPlugins (fst (register production p plugins))
        = filter (fun q => negb (String.eqb (id q) (id p))) plugins ++ [p])
    /\ (forall batch,
           NoDup (map (@id Ctx) (fst (registerBatch production batch plugins)))).
Proof.
  intros Ctx production p plugins Hnd. repeat apply conj.
  - now apply register_NoDup.
  - intros Hok. unfold register in *.
    destruct (negb (Normalize.nonempty (id p)) && negb production) eqn:E;
      [discriminate|].
    apply andb_false_iff in E.
    rewrite <- unregister_filter by assumption.
    assert (Hreg : register production p plugins
                   = (unregister (id p) plugins ++ [p], None)).
    { apply register_ok. destruct E as [E|E].
      - left. now apply negb_false_iff in E.
      - right. now apply negb_false_iff in E. }
    unfold register in Hreg.
    assert (E' : negb (Normalize.nonempty (id p)) && negb production = false)
      by now apply andb_false_iff.
    rewrite E' in Hreg. now injection Hreg as ->.
  - intros batch. now apply registerBatch_NoDup.
Qed.

(** Registering a second plugin under the id 'a'. *)
Lemma register_keeps_ids_distinct_witness :
  NoDup (map (@id unit) [appending "a" None None "x"; appending "b" None None "y"])
  /\ getPlugins (fst (register false (appending "a" (Some after) None "z")
                               [appending (Ctx := unit) "a" None None "x";
                                appending "b" None None "y"]))
     = [appending "b" None None "y"; appending "a" (Some after) None "z"].
Proof.
  assert (Hnd : NoDup (map (@id unit) [appending "a" None None "x";
                                       appending "b" None None "y"])).
  { repeat constructor; simpl; intuition discriminate. }
  split; [exact Hnd|].
  destruct (@register_keeps_ids_distinct unit false
              (appending "a" (Some after) None "z") _ Hnd) as (_ & Hlast & _).
  rewrite (Hlast eq_refl). reflexivity.
Defined.

(** X2.  [register] throws, with the message 'Plugin must have a non-empty
    id.', exactly when the plugin's id is empty and the environment is not
    production; the registry is then left as it was.  [registerBatch] stops
    at the first such plugin: those before it are registered, those after it
    are not. *)
Theorem register_rejects_empty_id :
  forall Ctx production (p : Plugin Ctx) (plugins : list (Plugin Ctx)),
    (snd (register production p plugins) <> None
     <-> id p = "" /\ production = false)
    /\ (id p = "" -> production = false ->
        register production p plugins
        = (plugins, Some (ArtoError "Plugin must have a non-empty id.")))
    /\ (forall good rest,
           id p = "" -> production = false ->
           Forall (fun q => id q <> "") good ->
           registerBatch production (good ++ p :: rest) plugins
           = (fst (registerBatch production good plugins),
              Some (ArtoError "Plugin must have a non-empty id."))
           /\ snd (registerBatch production good plugins) = None).
Proof.
  intros Ctx production p plugins.
  assert (Hbad : id p = "" -> production = false ->
                 register production p plugins
                 = (plugins, Some (ArtoError "Plugin must have a non-empty id."))).
  { intros Hid ->. unfold register. now rewrite Hid. }
  repeat apply conj.
  - intros H. unfold register in H.
    destruct (negb (Normalize.nonempty (id p)) && negb production) eqn:E;
      [|now contradiction H].
    apply andb_true_iff in E as [E1 E2].
    apply negb_true_iff in E1, E2. split; [|assumption].
    destruct (id p); [reflexivity | discriminate].
  - intros [Hid Hp]. rewrite (Hbad Hid Hp). discriminate.
  - exact Hbad.
  - intros good rest Hid Hp Hgood.
    assert (Hg : forall ps, snd (registerBatch production good ps) = None).
    { clear - Hgood. induction Hgood as [|q good Hq Hgood IH]; intros ps;
        [reflexivity|]. simpl.
      rewrite register_ok.
      - apply IH.
      - left. apply SplitFacts.nonempty_true. assumption. }
    split; [|apply Hg].
    rewrite registerBatch_app. specialize (Hg plugins).
    destruct (registerBatch production good plugins) as [ps' [e|]];
      [discriminate|].
    simpl. unfold register. rewrite Hid, Hp. reflexivity.
Qed.

(** A batch whose second plugin has no id. *)
Lemma register_rejects_empty_id_witness :
  registerBatch false
    ([appending (Ctx := unit) "a" None None "x"]
       ++ appending "" None None "y" :: [appending "c" None None "z"]) []
  = ([appending "a" None None "x"],
     Some (ArtoError "Plugin must have a non-empty id.")).
Proof.
  destruct (@register_rejects_empty_id unit false (appending "" None None "y") [])
    as (_ & _ & Hbatch).
  destruct (Hbatch [appending "a" None None "x"] [appending "c" None None "z"]
                   eq_refl eq_refl) as [H _].
  - repeat constructor. discriminate.
  - exact H.
Defined.

(** X3.  Unregistering an id the registry does not hold changes nothing, and
    unregistering a plugin just registered under a new id gives the registry
    back. *)
Theorem unregister_round_trip :
  forall Ctx production (p : Plugin Ctx) (plugins : list (Plugin Ctx)),
    ~ In (id p) (map (@id Ctx) plugins) ->
    snd (register production p plugins) = None ->
    unregister (id p) plugins = plugins
    /\ unregister (id p) (fst (register production p plugins)) = plugins.
Proof.
  intros Ctx production p plugins Hfresh Hok.
  split; [now apply unregister_absent|].
  unfold register in *.
  destruct (negb (Normalize.nonempty (id p)) && negb production); [discriminate|].
  rewrite (proj2 (findIndex_None (id p) plugins) Hfresh). simpl.
  clear Hok. induction plugins as [|q rest IH].
  - simpl. rewrite unregister_cons. now rewrite String.eqb_refl.
  - simpl. rewrite unregister_cons.
    assert (E : String.eqb (id q) (id p) = false).
    { apply String.eqb_neq. intros H. apply Hfresh. left. assumption. }
    rewrite E. f_equal. apply IH. intros H. apply Hfresh. now right.
Qed.

Lemma unregister_round_trip_witness :
  unregister "c" (fst (register false (appending "c" None None "z")
                                [appending (Ctx := unit) "a" None None "x";
                                 appending "b" None None "y"]))
  = [appending "a" None None "x"; appending "b" None None "y"].
Proof.
  refine (proj2 (@unregister_round_trip unit false (appending "c" None None "z")
                   [appending "a" None None "x"; appending "b" None None "y"]
                   _ eq_refl)).
  simpl. intuition discriminate.
Defined.

(** X4.  A batch of plugins with non-empty ids, distinct from one another and
    from those registered, is appended to the registry in the order given. *)
Theorem registerBatch_appends_in_order :
  forall Ctx production (batch plugins : list (Plugin Ctx)),
    NoDup (map (@id Ctx) (plugins ++ batch)) ->
    Forall (fun p => id p <> "") batch ->
    registerBatch production batch plugins = (plugins ++ batch, None)
    /\ getPlugins (fst (registerBatch production batch (clear plugins)))
       = batch.
Proof.
  intros Ctx production batch plugins Hnd Hids.
  assert (Hids' : Forall (fun p : Plugin Ctx =>
                            Normalize.nonempty (id p) = true \/ production = true)
                         batch).
  { eapply Forall_impl; [|exact Hids]. intros q Hq. left.
    now apply SplitFacts.nonempty_true. }
  split.
  - now apply registerBatch_fresh.
  - unfold clear. rewrite registerBatch_fresh; [reflexivity | | assumption].
    simpl. rewrite map_app in Hnd. now apply NoDup_app_remove_l in Hnd.
Qed.

Lemma registerBatch_appends_in_order_witness :
  registerBatch false
    [appending (Ctx := unit) "b" (Some core) (Some 5%Z) "y";
     appending "c" (Some core) (Some 1%Z) "z"]
    [appending "a" (Some before) (Some 2%Z) "x"]
  = ([appending "a" (Some before) (Some 2%Z) "x";
      appending "b" (Some core) (Some 5%Z) "y";
      appending "c" (Some core) (Some 1%Z) "z"], None).
Proof.
  refine (proj1 (@registerBatch_appends_in_order unit false
                   [appending "b" (Some core) (Some 5%Z) "y";
                    appending "c" (Some core) (Some 1%Z) "z"]
                   [appending "a" (Some before) (Some 2%Z) "x"] _ _)).
  - repeat constructor; simpl; intuition discriminate.
  - repeat constructor; discriminate.
Defined.

Lemma filter_subsequence {A} (f : A -> bool) l : subsequence (filter f l) l.
Proof.
  induction l as [|x l IH]; simpl; [constructor|].
  destruct (f x); now constructor.
Qed.

(** X5.  [getByStage(s)] lists, in registration order, the registered plugins
    whose stage is [s].  A plugin registered without a stage is in no listing
    until a builder is constructed over the plugins of the registry; the
    constructor writes the defaults into the plugin objects themselves, so
    from then on [getByStage('core')] lists that plugin too, and the listing
    of each stage holds what the builder runs in that stage. *)
Theorem getByStage_and_builder_stage :
  forall Ctx (config : ArtoConfig Ctx) selection active ctx
         (s : PluginStage) (plugins : list (Plugin Ctx)),
    (forall p, In p (getByStage s plugins) <-> In p plugins /\ stage p = Some s)
    /\ subsequence (getByStage s plugins) plugins
    /\ (forall p s', unstaged p = true -> ~ In p (getByStage s' plugins))
    /\ getByStage s (after_construction plugins)
       = map (@with_defaults Ctx)
             (filter (fun p => PluginStage_eqb (stage_of p) s) plugins)
    /\ (forall p, In p plugins -> unstaged p = true ->
                  In (with_defaults p) (getByStage core (after_construction plugins)))
    /\ Permutation
         (filter (has_stage s)
                 (allPlugins (new_ClassNameBuilder config selection active ctx
                                                   (Some plugins))))
         (getByStage s (after_construction plugins)).
Proof.
  intros Ctx config selection active ctx s plugins.
  assert (Hafter : getByStage s (after_construction plugins)
                   = map (@with_defaults Ctx)
                         (filter (fun p => PluginStage_eqb (stage_of p) s) plugins)).
  { unfold getByStage, after_construction.
    induction plugins as [|p rest IH]; simpl; [reflexivity|].
    unfold stage_of at 1.
    destruct (PluginStage_eqb match stage p with Some s0 => s0 | None => core end s);
      simpl; now rewrite IH. }
  repeat apply conj.
  - intros p. unfold getByStage. rewrite filter_In. split.
    + intros [Hin Hs]. split; [assumption|].
      destruct (stage p) as [s0|]; [|discriminate].
      destruct s0, s; simpl in Hs; try discriminate; reflexivity.
    + intros [Hin Hs]. split; [assumption|]. rewrite Hs. now destruct s.
  - apply filter_subsequence.
  - intros p s' Hp Hin. unfold getByStage in Hin. apply filter_In in Hin as [_ Hs].
    unfold unstaged in Hp. destruct (stage p); discriminate.
  - exact Hafter.
  - intros p Hin Hp. unfold getByStage, after_construction.
    apply filter_In. split; [now apply in_map|].
    unfold unstaged in Hp. simpl. now destruct (stage p).
  - rewrite (filter_Permutation (has_stage s)
               (allPlugins_Permutation config selection active ctx plugins)).
    unfold getByStage, after_construction, has_stage. reflexivity.
Qed.

(** ** Normalizer *)

Lemma fold_add_Forall (P : string -> Prop) l : forall s,
    Forall P s -> Forall P l -> Forall P (fold_left Js.add l s).
Proof.
  induction l as [|x l IH]; intros s Hs Hl; [assumption|].
  inversion Hl as [|? ? Hx Hl']; subst. simpl. apply IH; [|assumption].
  unfold Js.add. destruct (Js.has s x); [assumption|].
  apply Forall_app. split; [assumption | now constructor].
Qed.

Lemma loop_tokens Ctx (call : fnid -> option Ctx -> completion) context fuel :
  forall stack seen result r,
    Forall single_token result ->
    Normalize.loop call context fuel stack seen result = Done r ->
    Forall single_token (Normalize.tokens r).
Proof.
  induction fuel as [|fuel IH]; intros stack seen result r Hres Hrun.
  - destruct stack; simpl in Hrun; [|discriminate]. now injection Hrun as <-.
  - destruct stack as [|v stack]; simpl in Hrun.
    + now injection Hrun as <-.
    + destruct v; try (now apply (IH _ _ _ _ Hres Hrun)).
      * apply (IH _ _ _ _ (@fold_add_Forall single_token _ _ Hres
                                            (fragments_are_tokens s)) Hrun).
      * destruct (Normalize.seen_has seen f); [now apply (IH _ _ _ _ Hres Hrun)|].
        destruct (call f context) as [resolved|msg]; [|discriminate].
        destruct (truthy resolved); now apply (IH _ _ _ _ Hres Hrun).
Qed.

Lemma flatten_strings l :
  Forall single_token l -> flatten (VArr (map VStr l)) = l.
Proof.
  induction 1 as [|x l Hx Hl IH]; [reflexivity|].
  simpl in *. rewrite (fragments_single_token Hx). simpl. now rewrite IH.
Qed.

Lemma fragments_concat l :
  Forall single_token l -> Normalize.fragments (String.concat " " l) = l.
Proof.
  induction 1 as [|x l Hx Hl IH]; [reflexivity|].
  destruct l as [|y l].
  - simpl. now apply fragments_single_token.
  - change (String.concat " " (x :: y :: l))
      with (x ++ String " " (String.concat " " (y :: l)))%string.
    rewrite fragments_app_space by reflexivity.
    rewrite IH, (fragments_single_token Hx). reflexivity.
Qed.

(** X6.  Normalizing is idempotent: the tokens [normalizeClassName] returns,
    fed back as an array of strings or joined by spaces into one string (as
    the entry point returns them), normalize to themselves. *)
Theorem normalizeClassName_idempotent :
  forall Ctx (call : fnid -> option Ctx -> completion) context fuel v tokens,
    Normalize.normalizeClassName call context fuel v = Done tokens ->
    forall Ctx' (call' : fnid -> option Ctx' -> completion) context' fuel',
      (S (List.length tokens) <= fuel' ->
       Normalize.normalizeClassName call' context' fuel' (VArr (map VStr tokens))
       = Done tokens)
      /\ (1 <= fuel' ->
          Normalize.normalizeClassName call' context' fuel'
            (VStr (String.concat " " tokens))
          = Done tokens).
Proof.
  intros Ctx call context fuel v tokens Hrun Ctx' call' context' fuel'.
  unfold Normalize.normalizeClassName in Hrun.
  destruct (Normalize.run call context fuel v) as [r| |] eqn:E; simpl in Hrun;
    try discriminate.
  injection Hrun as <-.
  assert (Htok : Forall single_token (Normalize.tokens r)).
  { eapply loop_tokens; [constructor | exact E]. }
  assert (Hnd : NoDup (Normalize.tokens r)).
  { apply (loop_NoDup call context fuel [v] (seen := []) (result := []));
      [constructor | constructor | exact E]. }
  split; intros Hfuel.
  - rewrite normalizeClassName_callback_free.
    + rewrite flatten_strings by assumption. f_equal. now apply distinct_of_NoDup.
    + simpl. clear. induction (Normalize.tokens r); [reflexivity | assumption].
    + simpl. rewrite map_map. simpl.
      assert (Hsum : forall l : list string, list_sum (map (fun _ => 1) l)
                                              = List.length l).
      { induction l as [|x l IH]; simpl; [reflexivity | now rewrite IH]. }
      rewrite Hsum. exact Hfuel.
  - rewrite normalizeClassName_callback_free; [|reflexivity|exact Hfuel].
    simpl. rewrite fragments_concat by assumption.
    f_equal. now apply distinct_of_NoDup.
Qed.

Lemma normalizeClassName_idempotent_witness :
  Normalize.normalizeClassName no_callbacks None 5
    (VArr [VStr " b a"; VArr [VStr "a  c"]]) = Done ["b"; "a"; "c"]
  /\ Normalize.normalizeClassName no_callbacks None 4
       (VArr (map VStr ["b"; "a"; "c"])) = Done ["b"; "a"; "c"]
  /\ Normalize.normalizeClassName no_callbacks None 1
       (VStr (String.concat " " ["b"; "a"; "c"])) = Done ["b"; "a"; "c"].
Proof.
  assert (H : Normalize.normalizeClassName no_callbacks None 5
                (VArr [VStr " b a"; VArr [VStr "a  c"]]) = Done ["b"; "a"; "c"])
    by reflexivity.
  split; [exact H|].
  split.
  - exact (proj1 (normalizeClassName_idempotent _ _ _ _ H no_callbacks None 4)
                 (le_n 4)).
  - exact (proj2 (normalizeClassName_idempotent _ _ _ _ H no_callbacks None 1)
                 (le_n 1)).
Defined.




(** ** Rule conditions *)

Lemma set_graph (h : string -> bool) ks k :
  Js.set (map (fun x => (x, h x)) ks) k (h k)
  = map (fun x => (x, h x)) (Js.add ks k).
Proof.
  unfold Js.add. induction ks as [|x ks IH]; [reflexivity|].
  unfold Js.has in *. simpl.
  destruct (String.eqb x k) eqn:E.
  - apply String.eqb_eq in E. subst x. now rewrite String.eqb_refl.
  - rewrite String.eqb_sym, E. simpl. rewrite IH.
    now destruct (existsb (String.eqb k) ks).
Qed.

Lemma fold_graph (p h : string -> bool)
      (step : Js.obj bool -> string -> Js.obj bool) keys :
  (forall o k, step o k = if p k then Js.set o k (h k) else o) ->
  forall ks,
    fold_left step keys (map (fun x => (x, h x)) ks)
    = map (fun x => (x, h x)) (fold_left Js.add (filter p keys) ks).
Proof.
  intros Hstep. induction keys as [|k keys IH]; intros ks; [reflexivity|].
  simpl. rewrite Hstep. destruct (p k); simpl.
  - rewrite set_graph. apply IH.
  - apply IH.
Qed.

Lemma build_stateMatches_graph sts act :
  build_stateMatches (Some sts) act
  = map (fun st => (st, Js.has act st)) (distinct sts).
Proof.
  unfold build_stateMatches.
  etransitivity;
    [exact (fold_graph (fun _ => true) (Js.has act) _ sts (fun o k => eq_refl) [])|].
  rewrite fold_add_nil. f_equal. f_equal.
  clear. induction sts as [|x l IH]; simpl; [reflexivity | now rewrite IH].
Qed.

Lemma build_variantMatches_graph wv sel :
  build_variantMatches (Some wv) sel
  = map (fun k => (k, accepted_match wv sel k))
        (distinct (filter (has_accepted wv) (Js.keys wv))).
Proof.
  unfold build_variantMatches.
  etransitivity;
    [apply (fold_graph (has_accepted wv) (accepted_match wv sel) _ (Js.keys wv))
      with (ks := [])|].
  - intros o k. unfold has_accepted, accepted_match, variant_match.
    destruct (Js.get wv k) as [[accepted|]|]; reflexivity.
  - now rewrite fold_add_nil.
Qed.

Lemma VariantValue_eqb_eq a b : VariantValue_eqb a b = true <-> a = b.
Proof.
  destruct a, b; simpl; split; try discriminate.
  - intros H. apply String.eqb_eq in H. now subst.
  - intros H. injection H as ->. apply String.eqb_refl.
  - intros H. apply Z.eqb_eq in H. now subst.
  - intros H. injection H as ->. apply Z.eqb_refl.
Qed.

Lemma accepted_match_true wv sel k accepted :
  Js.get wv k = Some (Some accepted) ->
  accepted_match wv sel k = true <-> selected_among sel k accepted.
Proof.
  intros Hk. unfold accepted_match, selected_among. rewrite Hk.
  destruct (Js.get sel k) as [[v|]|].
  - rewrite existsb_exists. split.
    + intros [x [Hin Heq]]. apply VariantValue_eqb_eq in Heq. subst x.
      now exists v.
    + intros [v' [Hv Hin]]. injection Hv as <-. exists v.
      split; [assumption | now apply VariantValue_eqb_eq].
  - split; [discriminate | intros [v [H _]]; discriminate].
  - split; [discriminate | intros [v [H _]]; discriminate].
Qed.

Lemma values_graph (h : string -> bool) ks :
  Js.values (map (fun x => (x, h x)) ks) = map h ks.
Proof.
  unfold Js.values. rewrite map_map. reflexivity.
Qed.

(** X8.  The match booleans of a rule, as a collection: one per variant key of
    [when.variants] that holds an array, telling whether the selection has one
    of the accepted values for the key, and one per distinct state name of
    [when.states], telling whether the state is active.  A state named twice
    gives one boolean, so a rule that names the same state twice under XOR
    applies exactly when that state is active. *)
Theorem rule_match_booleans :
  forall (sel : Variants) (act : Js.jsset),
    (forall sts,
        Permutation (Js.values (build_stateMatches (Some sts) act))
                    (map (Js.has act) (distinct sts)))
    /\ (forall wv,
           Permutation
             (Js.values (build_variantMatches (Some wv) sel))
             (map (accepted_match wv sel)
                  (distinct (filter (has_accepted wv) (Js.keys wv)))))
    /\ build_stateMatches None act = []
    /\ build_variantMatches None sel = []
    /\ (forall Ctx (ctx : option Ctx) st,
           doesRuleApply (when_of None (Some [st; st]) (Some (LogicOp XOR)))
                         sel act ctx
           = Js.has act st).
Proof.
  intros sel act. repeat apply conj; try reflexivity.
  - intros sts. now rewrite build_stateMatches_graph, values_graph.
  - intros wv. now rewrite build_variantMatches_graph, values_graph.
  - intros Ctx ctx st. unfold doesRuleApply. simpl when_states.
    simpl when_variants. simpl when_logic.
    rewrite build_stateMatches_graph, values_graph. simpl.
    rewrite String.eqb_refl. simpl. now destruct (Js.has act st).
Qed.

(** X9.  A rule without [logic] applies iff every key of [when.variants]
    that holds an array has a selected value, neither null nor undefined, in
    that array, and every state of [when.states] is active.  With
    [logic: 'OR'] it applies iff one of these conditions holds, with
    [logic: 'NOT'] iff none does. *)
Theorem rule_applies_by_operator :
  forall Ctx (wv : Js.obj (option (list VariantValue))) (sts : list string)
         (sel : Variants) (act : Js.jsset) (ctx : option Ctx),
    (doesRuleApply (when_of (Some wv) (Some sts) None) sel act ctx = true
     <-> (forall k accepted, Js.get wv k = Some (Some accepted) ->
                             selected_among sel k accepted)
         /\ (forall st, In st sts -> In st act))
    /\ (doesRuleApply (when_of (Some wv) (Some sts) (Some (LogicOp OR)))
                      sel act ctx = true
        <-> (exists k accepted, Js.get wv k = Some (Some accepted)
                                /\ selected_among sel k accepted)
            \/ (exists st, In st sts /\ In st act))
    /\ (doesRuleApply (when_of (Some wv) (Some sts) (Some (LogicOp NOT)))
                      sel act ctx = true
        <-> (forall k accepted, Js.get wv k = Some (Some accepted) ->
                                ~ selected_among sel k accepted)
            /\ (forall st, In st sts -> ~ In st act)).
Proof.
  intros Ctx wv sts sel act ctx.
  assert (Hkeys : forall k, In k (distinct (filter (has_accepted wv) (Js.keys wv)))
                            <-> exists accepted, Js.get wv k = Some (Some accepted)).
  { intros k. rewrite distinct_In, filter_In. unfold has_accepted. split.
    - intros [_ H]. destruct (Js.get wv k) as [[accepted|]|]; try discriminate.
      now exists accepted.
    - intros [accepted H]. split; [now apply get_Some_In_keys in H|].
      now rewrite H. }
  assert (Hvals : Js.values (build_variantMatches (Some wv) sel)
                  ++ Js.values (build_stateMatches (Some sts) act)
                  = map (accepted_match wv sel)
                        (distinct (filter (has_accepted wv) (Js.keys wv)))
                    ++ map (Js.has act) (distinct sts)).
  { now rewrite build_variantMatches_graph, build_stateMatches_graph,
      !values_graph. }
  unfold doesRuleApply. simpl when_variants. simpl when_states. simpl when_logic.
  rewrite Hvals. unfold evaluateSimpleLogic. split; [|split].
  - rewrite forallb_app, andb_true_iff, !forallb_forall. split.
    + intros [Hv Hs]. split.
      * intros k accepted Hk. apply (@accepted_match_true wv sel k accepted Hk).
        apply Hv. apply in_map. apply Hkeys. now exists accepted.
      * intros st Hst. apply has_true. apply Hs. apply in_map.
        now apply distinct_In.
    + intros [Hv Hs]. split.
      * intros b Hb. apply in_map_iff in Hb as [k [<- Hk]].
        apply Hkeys in Hk as [accepted Hk].
        apply (@accepted_match_true wv sel k accepted Hk). now apply Hv.
      * intros b Hb. apply in_map_iff in Hb as [st [<- Hst]].
        apply has_true. apply Hs. now apply distinct_In.
  - rewrite existsb_app, orb_true_iff, !existsb_exists. split.
    + intros [[b [Hb Ht]]|[b [Hb Ht]]].
      * left. apply in_map_iff in Hb as [k [Hk Hin]]. subst b.
        apply Hkeys in Hin as [accepted Hk]. exists k, accepted.
        split; [assumption | now apply (@accepted_match_true wv sel k accepted Hk)].
      * right. apply in_map_iff in Hb as [st [Hst Hin]]. subst b.
        exists st. split; [exact (proj1 (distinct_In _ _) Hin) | now apply has_true].
    + intros [[k [accepted [Hk Hm]]]|[st [Hst Ha]]].
      * left. exists true. split; [|reflexivity].
        apply in_map_iff. exists k.
        split; [now apply (@accepted_match_true wv sel k accepted Hk)|].
        apply Hkeys. now exists accepted.
      * right. exists true. split; [|reflexivity].
        apply in_map_iff. exists st.
        split; [now apply has_true | now apply distinct_In].
  - rewrite forallb_app, andb_true_iff, !forallb_forall. split.
    + intros [Hv Hs]. split.
      * intros k accepted Hk Hm. apply (@accepted_match_true wv sel k accepted Hk) in Hm.
        assert (Hin : In (accepted_match wv sel k)
                         (map (accepted_match wv sel)
                              (distinct (filter (has_accepted wv) (Js.keys wv))))).
        { apply in_map. apply Hkeys. now exists accepted. }
        apply Hv in Hin. rewrite Hm in Hin. discriminate.
      * intros st Hst Ha. apply has_true in Ha.
        assert (Hin : In (Js.has act st) (map (Js.has act) (distinct sts))).
        { apply in_map. now apply distinct_In. }
        apply Hs in Hin. rewrite Ha in Hin. discriminate.
    + intros [Hv Hs]. split.
      * intros b Hb. apply in_map_iff in Hb as [k [<- Hk]].
        apply Hkeys in Hk as [accepted Hk]. apply negb_true_iff.
        destruct (accepted_match wv sel k) eqn:E; [|reflexivity].
        apply (@accepted_match_true wv sel k accepted Hk) in E. exfalso. now apply (Hv k accepted).
      * intros b Hb. apply in_map_iff in Hb as [st [<- Hst]].
        apply (proj1 (distinct_In _ _)) in Hst. apply negb_true_iff.
        destruct (Js.has act st) eqn:E; [|reflexivity].
        apply has_true in E. exfalso. now apply (Hs st).
Qed.

(** X10.  An object logic with one operator in its three places decides as the
    simple operator does on the variant booleans followed by the state
    booleans: the empty object and AND-AND-AND as 'AND', OR-OR-OR as 'OR'; so
    a rule with [logic: {}] applies exactly when the rule without [logic]
    does.  With [states: 'OR'] combined by AND, a rule that lists no state
    never applies. *)
Theorem object_logic_agrees_with_simple_logic :
  (forall vs ss op,
      op = None \/ op = Some AND \/ op = Some OR ->
      evaluateObjectLogic vs ss (logic_all op) = evaluateSimpleLogic (vs ++ ss) op)
  /\ (forall Ctx wv ws sel act (ctx : option Ctx) op,
         op = None \/ op = Some AND \/ op = Some OR ->
         doesRuleApply (when_of wv ws (Some (LogicObj (logic_all op)))) sel act ctx
         = doesRuleApply
             (when_of wv ws (option_map (fun o => LogicOp (Ctx := Ctx) o) op))
             sel act ctx)
  /\ (forall vs o,
         lo_states o = Some OR ->
         lo_combine o = None \/ lo_combine o = Some AND ->
         evaluateObjectLogic vs [] o = false).
Proof.
  assert (H1 : forall vs ss op,
             op = None \/ op = Some AND \/ op = Some OR ->
             evaluateObjectLogic vs ss (logic_all op)
             = evaluateSimpleLogic (vs ++ ss) op).
  { intros vs ss op [-> | [-> | ->]]; unfold evaluateObjectLogic, evaluateSimpleLogic;
      simpl; now rewrite ?forallb_app, ?existsb_app. }
  split; [exact H1|]. split.
  - intros Ctx wv ws sel act ctx op Hop. unfold doesRuleApply.
    cbn [when_logic when_variants when_states when_of].
    rewrite (H1 _ _ op Hop). now destruct Hop as [-> | [-> | ->]].
  - intros vs o Hs Hc. unfold evaluateObjectLogic. rewrite Hs. simpl.
    destruct Hc as [-> | ->]; simpl; apply andb_false_r.
Qed.

Lemma object_logic_agrees_with_simple_logic_witness :
  evaluateObjectLogic [true; false] [true] (logic_all (Some OR))
  = evaluateSimpleLogic ([true; false] ++ [true]) (Some OR).
Proof.
  apply (proj1 object_logic_agrees_with_simple_logic). right. right. reflexivity.
Defined.

(** ** What the built-in plugins leave alone *)

Lemma bind_Done {A B} (m : outcome A) (k : A -> outcome B) r :
  bind m k = Done r -> exists x, m = Done x /\ k x = Done r.
Proof.
  destruct m as [x| |]; simpl; try discriminate. intros H. now exists x.
Qed.

Lemma In_set {V} (o : Js.obj V) k v kv :
  In kv (Js.set o k v) -> In kv o \/ kv = (k, v).
Proof.
  induction o as [|[k' v'] r IH]; simpl.
  - intros [H|[]]. now right.
  - destruct (String.eqb k' k) eqn:E; simpl.
    + apply String.eqb_eq in E. subst k'.
      intros [H|H]; [now right | left; now right].
    + intros [H|H]; [left; now left|].
      destruct (IH H) as [H'|H']; [left; now right | now right].
Qed.

Lemma finalList_guarded Ctx (f : Fields Ctx) :
  (forall kv, In kv (globalStateClassNames f) ->
              snd kv = [] \/ In (fst kv) (activeStates f)) ->
  finalList f = finalList_active_only f.
Proof.
  intros H. unfold finalList, finalList_active_only, bucket.
  do 3 f_equal.
  induction (globalStateClassNames f) as [|[k v] r IH]; [reflexivity|].
  simpl. rewrite IH by (intros kv Hkv; apply H; now right). f_equal.
  destruct (H (k, v) (or_introl eq_refl)) as [Hv|Hk]; simpl in *.
  - subst v. now destruct (Js.has (activeStates f) k).
  - apply has_true in Hk. now rewrite Hk.
Qed.

Section BuiltinFacts.
Variable Ctx : Type.
Variable call : fnid -> option Ctx -> completion.
Variable fuel : nat.

Let Builder := ClassNameBuilder Ctx.

Lemma effect_refl (b : Builder) : builtin_effect b b.
Proof.
  split; [now repeat split | intros kv H; now left].
Qed.

Lemma effect_trans (b1 b2 b3 : Builder) :
  builtin_effect b1 b2 -> builtin_effect b2 b3 -> builtin_effect b1 b3.
Proof.
  intros [(A1 & A2 & A3 & A4 & A5 & A6) G1] [(B1 & B2 & B3 & B4 & B5 & B6) G2].
  split.
  - repeat split; congruence.
  - intros kv H. destruct (G2 kv H) as [H'|[H'|H']].
    + now apply G1.
    + right. now left.
    + right. right. now rewrite <- A3.
Qed.

(** A method that leaves the global-state buckets and the fields of [kept]. *)
Lemma effect_same_globals (b b' : Builder) :
  kept b b' ->
  globalStateClassNames (fields b') = globalStateClassNames (fields b) ->
  builtin_effect b b'.
Proof.
  intros Hk Hg. split; [exact Hk|]. intros kv H. left. now rewrite <- Hg.
Qed.

Lemma effect_addBaseClasses cls (b : Builder) :
  builtin_effect b (addBaseClasses cls b).
Proof. apply effect_same_globals; [now repeat split | reflexivity]. Qed.

Lemma effect_clearBaseClasses (b : Builder) :
  builtin_effect b (clearBaseClasses b).
Proof. apply effect_same_globals; [now repeat split | reflexivity]. Qed.

Lemma effect_addVariantClasses k cls (b : Builder) :
  builtin_effect b (addVariantClasses k cls b).
Proof. apply effect_same_globals; [now repeat split | reflexivity]. Qed.

Lemma effect_clearVariantClasses k (b : Builder) :
  builtin_effect b (clearVariantClasses k b).
Proof. apply effect_same_globals; [now repeat split | reflexivity]. Qed.

Lemma effect_addVariantStateClasses k st cls (b : Builder) :
  builtin_effect b (addVariantStateClasses k st cls b).
Proof. apply effect_same_globals; [now repeat split | reflexivity]. Qed.

Lemma effect_replaceVariantStateClasses k st cls (b : Builder) :
  builtin_effect b (replaceVariantStateClasses k st cls b).
Proof. apply effect_same_globals; [now repeat split | reflexivity]. Qed.

Lemma effect_clearVariantStateClasses k st (b : Builder) :
  builtin_effect b (clearVariantStateClasses k st b).
Proof.
  unfold clearVariantStateClasses, with_fields.
  destruct (Js.get (variantStateClassNames (fields b)) k);
    apply effect_same_globals; try reflexivity; now repeat split.
Qed.

Lemma effect_addGlobalStateClasses st cls (b : Builder) :
  In st (activeStates (fields b)) ->
  builtin_effect b (addGlobalStateClasses st cls b).
Proof.
  intros Hact. split; [now repeat split|]. intros kv H. simpl in H.
  apply In_set in H as [H| ->]; [now left|]. right. right. exact Hact.
Qed.

Lemma effect_clearGlobalStateClasses st (b : Builder) :
  builtin_effect b (clearGlobalStateClasses st b).
Proof.
  split; [now repeat split|]. intros kv H. simpl in H.
  apply In_set in H as [H| ->]; [now left|]. right. now left.
Qed.

Lemma effect_fold {X} (f : Builder -> X -> Builder) xs :
  (forall b x, builtin_effect b (f b x)) ->
  forall b, builtin_effect b (fold_left f xs b).
Proof.
  intros Hf. induction xs as [|x xs IH]; intros b; simpl; [apply effect_refl|].
  eapply effect_trans; [apply Hf | apply IH].
Qed.

(** *** BaseClassNamePlugin *)

Lemma effect_BaseClassNamePlugin (b b' : Builder) :
  BaseClassNamePlugin_apply call fuel b = Done b' -> builtin_effect b b'.
Proof.
  unfold BaseClassNamePlugin_apply.
  destruct (cfg_className (getArtoConfig b)) as [cn|].
  - destruct (truthy cn).
    + intros H. apply bind_Done in H as [cls [_ H]]. injection H as <-.
      apply effect_addBaseClasses.
    + intros H. injection H as <-. apply effect_refl.
  - intros H. injection H as <-. apply effect_refl.
Qed.

(** *** VariantsPlugin *)

Lemma effect_mergeVariantStates_step k act ctx entry (b b' : Builder) :
  mergeVariantStates_step call fuel k act ctx entry b = Done b' ->
  builtin_effect b b'.
Proof.
  destruct entry as [stateName stateInput]. unfold mergeVariantStates_step.
  destruct (negb (StateInput_truthy stateInput)).
  - intros H. injection H as <-. apply effect_refl.
  - destruct stateInput as [c|cfg].
    + destruct (isClassNameType c); [|discriminate].
      intros H. apply bind_Done in H as [cls [_ H]]. injection H as <-.
      apply effect_addVariantStateClasses.
    + destruct (negb (checkStateDependencies (sc_dependsOn cfg) act ctx)).
      * intros H. injection H as <-. apply effect_refl.
      * intros H. apply bind_Done in H as [cls [_ H]]. injection H as <-.
        apply effect_replaceVariantStateClasses.
Qed.

Lemma effect_mergeVariantStates_loop k act ctx entries :
  forall (b b' : Builder),
    mergeVariantStates_loop call fuel k act ctx entries b = Done b' ->
    builtin_effect b b'.
Proof.
  induction entries as [|entry rest IH]; intros b b' H.
  - injection H as <-. apply effect_refl.
  - change (mergeVariantStates_loop call fuel k act ctx (entry :: rest) b)
      with (let* b1 := mergeVariantStates_step call fuel k act ctx entry b in
            mergeVariantStates_loop call fuel k act ctx rest b1) in H.
    apply bind_Done in H as [b1 [H1 H2]].
    eapply effect_trans;
      [eapply effect_mergeVariantStates_step; exact H1 | now apply IH].
Qed.

Lemma effect_processVariantConfig k vcfg ctx (b : Builder) r :
  processVariantConfig call fuel k vcfg b ctx = Done r ->
  builtin_effect b (snd r).
Proof.
  unfold processVariantConfig. destruct vcfg as [c|cfg].
  - destruct (isClassNameType c); [|discriminate].
    intros H. apply bind_Done in H as [cls [_ H]]. injection H as <-.
    apply effect_refl.
  - intros H. apply bind_Done in H as [cls [_ H]].
    apply bind_Done in H as [b1 [H1 H]]. injection H as <-. simpl.
    destruct (vc_states cfg) as [statesObj|].
    + unfold mergeVariantStates in H1.
      now apply effect_mergeVariantStates_loop in H1.
    + injection H1 as <-. apply effect_refl.
Qed.

Lemma effect_VariantsPlugin_step variants sel ctx k (b b' : Builder) :
  VariantsPlugin_step call fuel variants sel ctx k b = Done b' ->
  builtin_effect b b'.
Proof.
  unfold VariantsPlugin_step.
  destruct (Js.get sel k) as [[v|]|];
    try (intros H; injection H as <-; apply effect_refl).
  destruct (Js.get variants k) as [[opts|]|];
    try (intros H; injection H as <-; apply effect_refl).
  cbv zeta.
  destruct (lookup_entry opts (String_of v)) as [vcfg|]; [|discriminate].
  destruct (VariantInput_truthy vcfg); [|discriminate].
  intros H. apply bind_Done in H as [r [H1 H]]. injection H as <-.
  eapply effect_trans;
    [eapply effect_processVariantConfig; exact H1 | apply effect_addVariantClasses].
Qed.

Lemma effect_VariantsPlugin_loop variants sel ctx keys :
  forall (b b' : Builder),
    VariantsPlugin_loop call fuel variants sel ctx keys b = Done b' ->
    builtin_effect b b'.
Proof.
  induction keys as [|k rest IH]; intros b b' H.
  - injection H as <-. apply effect_refl.
  - change (VariantsPlugin_loop call fuel variants sel ctx (k :: rest) b)
      with (let* b1 := VariantsPlugin_step call fuel variants sel ctx k b in
            VariantsPlugin_loop call fuel variants sel ctx rest b1) in H.
    apply bind_Done in H as [b1 [H1 H2]].
    eapply effect_trans;
      [eapply effect_VariantsPlugin_step; exact H1 | now apply IH].
Qed.

Lemma effect_VariantsPlugin (b b' : Builder) :
  VariantsPlugin_apply call fuel b = Done b' -> builtin_effect b b'.
Proof.
  unfold VariantsPlugin_apply.
  destruct (cfg_variants (getArtoConfig b)) as [variants|].
  - apply effect_VariantsPlugin_loop.
  - intros H. injection H as <-. apply effect_refl.
Qed.

(** *** StatesPlugin *)

Lemma effect_StatesPlugin_step stateConfigs act ctx state (b b' : Builder) :
  In state (activeStates (fields b)) ->
  StatesPlugin_step call fuel stateConfigs act ctx state b = Done b' ->
  builtin_effect b b'.
Proof.
  intros Hact. unfold StatesPlugin_step.
  destruct (Js.get stateConfigs state) as [e|];
    [|intros H; injection H as <-; apply effect_refl].
  destruct (negb (StateInput_truthy e));
    [intros H; injection H as <-; apply effect_refl|].
  destruct (isStateConfig e
            && negb (checkStateDependencies (dependsOn_of e) act ctx));
    [intros H; injection H as <-; apply effect_refl|].
  intros H. apply bind_Done in H as [cn [_ H]].
  apply bind_Done in H as [cls [_ H]]. injection H as <-.
  now apply effect_addGlobalStateClasses.
Qed.

Lemma effect_StatesPlugin_loop stateConfigs act ctx states :
  forall (b b' : Builder),
    incl states (activeStates (fields b)) ->
    StatesPlugin_loop call fuel stateConfigs act ctx states b = Done b' ->
    builtin_effect b b'.
Proof.
  induction states as [|st rest IH]; intros b b' Hincl H.
  - injection H as <-. apply effect_refl.
  - change (StatesPlugin_loop call fuel stateConfigs act ctx (st :: rest) b)
      with (let* b1 := StatesPlugin_step call fuel stateConfigs act ctx st b in
            StatesPlugin_loop call fuel stateConfigs act ctx rest b1) in H.
    apply bind_Done in H as [b1 [H1 H2]].
    assert (E1 : builtin_effect b b1).
    { eapply effect_StatesPlugin_step; [|exact H1]. apply Hincl. now left. }
    eapply effect_trans; [exact E1|]. apply IH; [|exact H2].
    destruct E1 as [(_ & _ & -> & _) _]. intros x Hx. apply Hincl. now right.
Qed.

Lemma effect_StatesPlugin stateConfigs (b b' : Builder) :
  StatesPlugin_apply call fuel stateConfigs b = Done b' -> builtin_effect b b'.
Proof.
  unfold StatesPlugin_apply. apply effect_StatesPlugin_loop. apply incl_refl.
Qed.

(** *** RulesPlugin *)

Lemma effect_removeStuff (b : Builder) r : builtin_effect b (removeStuff b r).
Proof.
  unfold removeStuff. cbv zeta.
  eapply effect_trans;
    [|destruct (remove_base r); [apply effect_clearBaseClasses | apply effect_refl]].
  eapply effect_trans;
    [|destruct (remove_states r) as [sts|]; [apply effect_fold | apply effect_refl]].
  - destruct (remove_variants r) as [vKeys|]; [|apply effect_refl].
    apply effect_fold. intros b0 k. apply effect_clearVariantClasses.
  - intros b0 st.
    eapply effect_trans;
      [|destruct (scope_includes_variant _);
        [apply effect_fold; intros b3 k; apply effect_clearVariantStateClasses
        |apply effect_refl]].
    destruct (scope_includes_global _);
      [apply effect_clearGlobalStateClasses | apply effect_refl].
Qed.

Lemma effect_RulesPlugin_step sel act ctx rule (b b' : Builder) :
  RulesPlugin_step call fuel sel act ctx rule b = Done b' -> builtin_effect b b'.
Proof.
  unfold RulesPlugin_step. cbv zeta.
  destruct (doesRuleApply (when rule) sel act ctx);
    [|intros H; injection H as <-; apply effect_refl].
  set (b1 := match remove rule with Some r => removeStuff b r | None => b end).
  assert (E1 : builtin_effect b b1).
  { subst b1. destruct (remove rule); [apply effect_removeStuff | apply effect_refl]. }
  destruct (add rule) as [a|]; [|intros H; injection H as <-; exact E1].
  destruct (truthy a); [|intros H; injection H as <-; exact E1].
  intros H. apply bind_Done in H as [cls [_ H]]. injection H as <-.
  eapply effect_trans; [exact E1 | apply effect_addBaseClasses].
Qed.

Lemma effect_RulesPlugin_loop sel act ctx rules :
  forall (b b' : Builder),
    RulesPlugin_loop call fuel sel act ctx rules b = Done b' ->
    builtin_effect b b'.
Proof.
  induction rules as [|rule rest IH]; intros b b' H.
  - injection H as <-. apply effect_refl.
  - change (RulesPlugin_loop call fuel sel act ctx (rule :: rest) b)
      with (let* b1 := RulesPlugin_step call fuel sel act ctx rule b in
            RulesPlugin_loop call fuel sel act ctx rest b1) in H.
    apply bind_Done in H as [b1 [H1 H2]].
    eapply effect_trans;
      [eapply effect_RulesPlugin_step; exact H1 | now apply IH].
Qed.

Lemma effect_RulesPlugin (b b' : Builder) :
  RulesPlugin_apply call fuel b = Done b' -> builtin_effect b b'.
Proof.
  unfold RulesPlugin_apply.
  destruct (cfg_rules (getArtoConfig b)) as [rules|].
  - apply effect_RulesPlugin_loop.
  - intros H. injection H as <-. apply effect_refl.
Qed.

(** *** build() over plugins of this kind *)

Lemma effect_run_stage s (plugins : list (Plugin Ctx)) :
  (forall p, In p plugins ->
             forall b b', apply p b = Done b' -> builtin_effect b b') ->
  forall b b', run_stage s plugins b = Done b' -> builtin_effect b b'.
Proof.
  induction plugins as [|p rest IH]; intros Hall b b' H.
  - injection H as <-. apply effect_refl.
  - assert (Hrest : forall q, In q rest ->
                              forall b b', apply q b = Done b' -> builtin_effect b b')
      by (intros q Hq; apply Hall; now right).
    simpl in H. destruct (stage p) as [s'|]; [|now apply IH].
    destruct (PluginStage_eqb s' s); [|now apply IH].
    apply bind_Done in H as [b1 [H1 H2]].
    eapply effect_trans; [apply (Hall p (or_introl eq_refl) _ _ H1)|].
    now apply IH.
Qed.

Lemma effect_flush (queue : Builder -> list (Callback Ctx)) (b b' : Builder) :
  queue b = [] -> flush queue b = Done b' -> builtin_effect b b'.
Proof.
  intros Hq. unfold flush. rewrite Hq. simpl. intros H. injection H as <-.
  apply effect_same_globals; [now repeat split | reflexivity].
Qed.

Lemma effect_run_plugins (this : Instance Ctx) b' :
  (forall p, In p (allPlugins this) ->
             forall b b', apply p b = Done b' -> builtin_effect b b') ->
  postCoreCallbacks (builder this) = [] ->
  finalBuildCallbacks (builder this) = [] ->
  run_plugins this = Done b' ->
  builtin_effect (builder this) b'.
Proof.
  intros Hall Hpost Hfinal H. unfold run_plugins in H.
  apply bind_Done in H as [b1 [H1 H]].
  apply bind_Done in H as [b2 [H2 H]].
  apply bind_Done in H as [b3 [H3 H]].
  apply bind_Done in H as [b4 [H4 H5]].
  assert (E1 : builtin_effect (builder this) b1)
    by (eapply effect_run_stage; [exact Hall | exact H1]).
  assert (E2 : builtin_effect b1 b2)
    by (eapply effect_run_stage; [exact Hall | exact H2]).
  pose proof (effect_trans E1 E2) as E12.
  assert (E3 : builtin_effect b2 b3).
  { apply (effect_flush (@postCoreCallbacks Ctx)); [|exact H3].
    destruct E12 as [(_ & _ & _ & _ & -> & _) _]. exact Hpost. }
  pose proof (effect_trans E12 E3) as E123.
  assert (E4 : builtin_effect b3 b4)
    by (eapply effect_run_stage; [exact Hall | exact H4]).
  pose proof (effect_trans E123 E4) as E1234.
  eapply effect_trans; [exact E1234|].
  apply (effect_flush (@finalBuildCallbacks Ctx)); [|exact H5].
  destruct E1234 as [(_ & _ & _ & _ & _ & ->) _]. exact Hfinal.
Qed.

Lemma builtin_only_plugins (config : ArtoConfig Ctx) options p :
  In p (allPlugins (arto_builder call fuel config None [] options)) ->
  forall b b', apply p b = Done b' -> builtin_effect b b'.
Proof.
  intros Hp. unfold arto_builder in Hp.
  apply (Permutation_in _ (allPlugins_Permutation _ _ _ _ _)) in Hp.
  apply in_map_iff in Hp as [q [<- Hq]]. simpl in Hq.
  repeat (apply in_app_or in Hq as [Hq|Hq]).
  - destruct (truthy_opt (cfg_className config)); [|destruct Hq].
    destruct Hq as [<-|[]]. apply effect_BaseClassNamePlugin.
  - destruct (cfg_variants config); [|destruct Hq].
    destruct Hq as [<-|[]]. apply effect_VariantsPlugin.
  - destruct (cfg_states config); [|destruct Hq].
    destruct Hq as [<-|[]]. apply effect_StatesPlugin.
  - destruct (cfg_rules config) as [rules|]; [|destruct Hq].
    destruct (0 <? List.length rules)%nat; [|destruct Hq].
    destruct Hq as [<-|[]]. apply effect_RulesPlugin.
Qed.

End BuiltinFacts.

(** X11.  Each built-in plugin that returns leaves the configuration, the
    selection, the active states, the context and both callback queues as they
    were; a global-state bucket it creates or changes is empty or belongs to
    an active state. *)
Theorem builtin_plugins_frame :
  forall Ctx (call : fnid -> option Ctx -> completion) fuel
         (b b' : ClassNameBuilder Ctx),
    (BaseClassNamePlugin_apply call fuel b = Done b' -> builtin_effect b b')
    /\ (VariantsPlugin_apply call fuel b = Done b' -> builtin_effect b b')
    /\ (forall stateConfigs,
           StatesPlugin_apply call fuel stateConfigs b = Done b' ->
           builtin_effect b b')
    /\ (RulesPlugin_apply call fuel b = Done b' -> builtin_effect b b')
    /\ (forall r, builtin_effect b (removeStuff b r)).
Proof.
  intros Ctx call fuel b b'. repeat apply conj.
  - apply effect_BaseClassNamePlugin.
  - apply effect_VariantsPlugin.
  - intros stateConfigs. apply effect_StatesPlugin.
  - apply effect_RulesPlugin.
  - apply effect_removeStuff.
Qed.

(** X12.  Without plugins of the caller and of the registry, a [build] that
    returns gives the list with the global-state buckets of the active states
    only: the base bucket, the variant buckets, the (variant, state) buckets
    of the active states, the global-state buckets of the active states; and
    the active states are those of the call. *)
Theorem builtin_only_build_emits_active_states_only :
  forall Ctx (call : fnid -> option Ctx -> completion) fuel
         (config : ArtoConfig Ctx) options b,
    run_plugins (arto_builder call fuel config None [] options) = Done b ->
    build (arto_builder call fuel config None [] options)
    = Done (finalList_active_only (fields b))
    /\ arto call fuel config None [] options
       = Done (String.concat " " (finalList_active_only (fields b)))
    /\ kept (builder (arto_builder call fuel config None [] options)) b.
Proof.
  intros Ctx call fuel config options b Hrun.
  assert (E : builtin_effect
                (builder (arto_builder call fuel config None [] options)) b).
  { apply effect_run_plugins with (this := arto_builder call fuel config None [] options);
      try reflexivity; [|exact Hrun].
    intros p. apply builtin_only_plugins. }
  assert (Hlist : finalList (fields b) = finalList_active_only (fields b)).
  { apply finalList_guarded. intros kv Hkv.
    destruct E as [(_ & _ & Hact & _) G]. destruct (G kv Hkv) as [H|[H|H]].
    - destruct H.
    - now left.
    - right. now rewrite Hact. }
  assert (Hbuild : build (arto_builder call fuel config None [] options)
                   = Done (finalList_active_only (fields b))).
  { unfold build. rewrite Hrun. simpl. now rewrite Hlist. }
  split; [exact Hbuild|]. split; [|apply E].
  unfold arto. now rewrite Hbuild.
Qed.

(** 'hovered' is active and configured; the rule clears the bucket of the
    inactive state 'idle' and adds 'r'. *)
Lemma builtin_only_build_emits_active_states_only_witness :
  arto (Ctx := unit) no_callbacks 2 config_rule_clears_idle None []
       (with_states false false)
  = Done "r h".
Proof.
  exact (proj1 (proj2 (@builtin_only_build_emits_active_states_only
                         unit no_callbacks 2 config_rule_clears_idle
                         (with_states false false) _ eq_refl))).
Defined.

(** ** The builder's buckets *)

Lemma stateMapOf_set (o : Js.obj (Js.obj (list string))) k m k' :
  stateMapOf (Js.set o k m) k' = if String.eqb k k' then m else stateMapOf o k'.
Proof.
  unfold stateMapOf. rewrite get_set. now destruct (String.eqb k k').
Qed.

Lemma variant_state_bucket_set (o : Js.obj (Js.obj (list string))) k st v k' st' :
  bucket (stateMapOf (Js.set o k (Js.set (stateMapOf o k) st v)) k') st'
  = if String.eqb k k' && String.eqb st st' then v
    else bucket (stateMapOf o k') st'.
Proof.
  rewrite stateMapOf_set. destruct (String.eqb k k') eqn:Ek; simpl.
  - apply String.eqb_eq in Ek. subst k'. apply bucket_set.
  - reflexivity.
Qed.

Lemma read_clearVariantStateClasses Ctx (b : ClassNameBuilder Ctx) k st k' st' :
  getVariantStateClasses k' st' (clearVariantStateClasses k st b)
  = if String.eqb k k' && String.eqb st st' then []
    else getVariantStateClasses k' st' b.
Proof.
  unfold getVariantStateClasses, clearVariantStateClasses, with_fields.
  destruct (Js.get (variantStateClassNames (fields b)) k) as [m|] eqn:Em; simpl.
  - replace m with (stateMapOf (variantStateClassNames (fields b)) k)
      by (unfold stateMapOf; now rewrite Em).
    apply variant_state_bucket_set.
  - destruct (String.eqb k k') eqn:Ek; simpl; [|reflexivity].
    apply String.eqb_eq in Ek. subst k'.
    destruct (String.eqb st st'); [|reflexivity].
    unfold stateMapOf. now rewrite Em.
Qed.

(** X13.  Reading a bucket after a write: [add...] appends to the bucket
    written, [replace...] puts the given classes in it, [clear...] empties it
    (also where the variant has no state bucket yet), and every other bucket
    of the same kind reads as before. *)
Theorem bucket_read_after_write :
  forall Ctx (b : ClassNameBuilder Ctx) k st cls k' st',
    getGlobalStateClassesFor st' (addGlobalStateClasses st cls b)
    = (if String.eqb st st' then getGlobalStateClassesFor st b ++ cls
       else getGlobalStateClassesFor st' b)
    /\ getGlobalStateClassesFor st' (replaceGlobalStateClasses st cls b)
       = (if String.eqb st st' then cls else getGlobalStateClassesFor st' b)
    /\ getGlobalStateClassesFor st' (clearGlobalStateClasses st b)
       = (if String.eqb st st' then [] else getGlobalStateClassesFor st' b)
    /\ getVariantStateClasses k' st' (addVariantStateClasses k st cls b)
       = (if String.eqb k k' && String.eqb st st'
          then getVariantStateClasses k st b ++ cls
          else getVariantStateClasses k' st' b)
    /\ getVariantStateClasses k' st' (replaceVariantStateClasses k st cls b)
       = (if String.eqb k k' && String.eqb st st' then cls
          else getVariantStateClasses k' st' b)
    /\ getVariantStateClasses k' st' (clearVariantStateClasses k st b)
       = (if String.eqb k k' && String.eqb st st' then []
          else getVariantStateClasses k' st' b)
    /\ bucket (getVariantClassMap (addVariantClasses k cls b)) k'
       = (if String.eqb k k' then bucket (getVariantClassMap b) k ++ cls
          else bucket (getVariantClassMap b) k')
    /\ bucket (getVariantClassMap (clearVariantClasses k b)) k'
       = (if String.eqb k k' then [] else bucket (getVariantClassMap b) k').
Proof.
  intros Ctx b k st cls k' st'.
  pose proof (read_clearVariantStateClasses b k st k' st') as Hclear.
  unfold getGlobalStateClassesFor, getVariantStateClasses, getVariantClassMap in *.
  repeat apply conj; try exact Hclear; simpl;
    try apply bucket_set; apply variant_state_bucket_set.
Qed.

Lemma In_bucket (o : Js.obj (list string)) k x :
  In x (bucket o k) -> In x (flat_map (fun kv => snd kv) o).
Proof.
  unfold bucket. destruct (Js.get o k) as [l|] eqn:E; [|intros []].
  intros Hx. apply get_In in E. apply in_flat_map. now exists (k, l).
Qed.

(** X14.  Every class [getAllClasses] returns is in the list [build] ends
    with for the same builder state. *)
Theorem getAllClasses_within_final_list :
  forall Ctx (b : ClassNameBuilder Ctx),
    incl (getAllClasses b) (finalList (fields b)).
Proof.
  intros Ctx b x. unfold getAllClasses, finalList.
  rewrite !in_app_iff. intros [H|[H|[H|H]]].
  - now left.
  - right. now left.
  - right. right. right.
    apply in_flat_map in H as [st [_ H]]. now apply In_bucket in H.
  - right. right. left.
    apply in_flat_map in H as [k [_ H]]. apply in_flat_map in H as [st [Hst H]].
    unfold getVariantStateClasses, stateMapOf in H.
    destruct (Js.get (variantStateClassNames (fields b)) k) as [m|] eqn:Em;
      [|destruct H].
    apply get_In in Em. apply in_flat_map. exists (k, m). split; [exact Em|].
    apply in_flat_map. exists st. split; [exact Hst|]. exact H.
Qed.

(** ** What a rule removes *)

Section RemoveFacts.
Variable Ctx : Type.

Let Builder := ClassNameBuilder Ctx.










End RemoveFacts.


(** ** Variant classes *)

Lemma get_simple_variants Ctx (sv : Js.obj (Js.obj string)) k :
  Js.get (simple_variants (Ctx := Ctx) sv) k
  = option_map (fun opts => Some (simple_options opts)) (Js.get sv k).
Proof.
  induction sv as [|[k' v] r IH]; simpl; [reflexivity|].
  now destruct (String.eqb k' k).
Qed.

Lemma get_simple_options Ctx (opts : Js.obj string) k :
  Js.get (simple_options (Ctx := Ctx) opts) k
  = option_map (fun s => VariantClass (VStr s)) (Js.get opts k).
Proof.
  induction opts as [|[k' v] r IH]; simpl; [reflexivity|].
  now destruct (String.eqb k' k).
Qed.

Lemma set_fresh {V} (o : Js.obj V) k v :
  Js.get o k = None -> Js.set o k v = o ++ [(k, v)].
Proof.
  induction o as [|[k' v'] r IH]; simpl; [reflexivity|].
  destruct (String.eqb k' k); [discriminate|]. intros H. now rewrite IH.
Qed.

Section SimpleVariants.
Variable Ctx : Type.
Variable call : fnid -> option Ctx -> completion.
Variable fuel : nat.
Variable sv : Js.obj (Js.obj string).
Variable sel : Variants.
Variable ctx : option Ctx.
Hypothesis Hfuel : 1 <= fuel.
Hypothesis Hsel : selection_declared sv sel.

Let Builder := ClassNameBuilder Ctx.

(** The fields the variants plugin leaves on these configurations. *)
Let others_kept (b b' : Builder) : Prop :=
  baseClassNames (fields b') = baseClassNames (fields b)
  /\ variantStateClassNames (fields b') = variantStateClassNames (fields b)
  /\ globalStateClassNames (fields b') = globalStateClassNames (fields b)
  /\ activeStates (fields b') = activeStates (fields b)
  /\ postCoreCallbacks b' = postCoreCallbacks b
  /\ finalBuildCallbacks b' = finalBuildCallbacks b.

Lemma simple_step k (b : Builder) :
  Js.get (variantClassNames (fields b)) k = None ->
  exists b',
    VariantsPlugin_step call fuel (simple_variants sv) sel ctx k b = Done b'
    /\ flat_map (fun kv => snd kv) (variantClassNames (fields b'))
       = flat_map (fun kv => snd kv) (variantClassNames (fields b))
         ++ chosen_classes sv sel k
    /\ (forall k', k' <> k ->
                   Js.get (variantClassNames (fields b')) k'
                   = Js.get (variantClassNames (fields b)) k')
    /\ others_kept b b'.
Proof.
  intros Hfresh. unfold VariantsPlugin_step, chosen_classes.
  rewrite get_simple_variants.
  assert (Hsame : forall x : Builder, others_kept x x) by (intros; now repeat split).
  destruct (Js.get sel k) as [[v|]|] eqn:Ek;
    try (exists b; rewrite app_nil_r; now repeat split).
  destruct (Js.get sv k) as [opts|] eqn:Eo; simpl;
    [|exists b; rewrite app_nil_r; now repeat split].
  destruct (Hsel _ Ek Eo) as [s [Hs Hne]].
  unfold lookup_entry. rewrite get_simple_options, Hs. cbn [option_map].
  assert (Ht : VariantInput_truthy (Ctx := Ctx) (VariantClass (VStr s)) = true).
  { destruct s; [contradiction | reflexivity]. }
  rewrite Ht. unfold processVariantConfig. simpl isClassNameType. cbv iota.
  rewrite (normalize_single_string call s ctx Hfuel). simpl.
  eexists. split; [reflexivity|]. simpl. unfold bucket. rewrite Hfresh. simpl.
  split; [|split].
  - rewrite set_fresh by exact Hfresh.
    rewrite flat_map_app. simpl. now rewrite app_nil_r.
  - intros k' Hne'. rewrite get_set.
    assert (E : String.eqb k k' = false) by (apply String.eqb_neq; congruence).
    now rewrite E.
  - now repeat split.
Qed.

Lemma simple_loop ks : forall (b : Builder),
    NoDup ks ->
    (forall k, In k ks -> Js.get (variantClassNames (fields b)) k = None) ->
    exists b',
      VariantsPlugin_loop call fuel (simple_variants sv) sel ctx ks b = Done b'
      /\ flat_map (fun kv => snd kv) (variantClassNames (fields b'))
         = flat_map (fun kv => snd kv) (variantClassNames (fields b))
           ++ flat_map (chosen_classes sv sel) ks
      /\ others_kept b b'.
Proof.
  induction ks as [|k rest IH]; intros b Hnd Hfresh.
  - exists b. simpl. rewrite app_nil_r. now repeat split.
  - inversion Hnd as [|? ? Hnin Hnd']; subst.
    destruct (simple_step k b (Hfresh k (or_introl eq_refl)))
      as (b1 & Hstep & Hflat & Hget & Hk).
    destruct (IH b1 Hnd') as (b' & Hloop & Hflat' & Hk').
    { intros k' Hk'. rewrite Hget; [apply Hfresh; now right|].
      intros ->. contradiction. }
    exists b'.
    change (VariantsPlugin_loop call fuel (simple_variants sv) sel ctx (k :: rest) b)
      with (let* b1 := VariantsPlugin_step call fuel (simple_variants sv) sel ctx k b in
            VariantsPlugin_loop call fuel (simple_variants sv) sel ctx rest b1).
    rewrite Hstep. cbn [bind]. split; [exact Hloop|]. split.
    + rewrite Hflat', Hflat. simpl. now rewrite app_assoc.
    + destruct Hk as (A1 & A2 & A3 & A4 & A5 & A6).
      destruct Hk' as (B1 & B2 & B3 & B4 & B5 & B6).
      repeat split; congruence.
Qed.

End SimpleVariants.

(** X16.  For a configuration whose variants map values to class strings, a
    call whose selected values are all declared with a non-empty string
    returns the classes of the selected values in the order in which the
    configuration declares the variants, whatever the order of the keys in
    the call; each string is split at whitespace and loses its repeated
    fragments. *)
Theorem variant_classes_in_declaration_order :
  forall Ctx (call : fnid -> option Ctx -> completion) fuel
         (sv : Js.obj (Js.obj string)) defaults (options : option (Options Ctx)),
    1 <= fuel ->
    NoDup (Js.keys sv) ->
    selection_declared
      sv (safeMergeDefaults (match defaults with Some d => d | None => [] end)
                            (Some (requested_variants options))) ->
    arto call fuel (config_variants sv defaults) None [] options
    = Done (String.concat " "
              (flat_map
                 (chosen_classes
                    sv (safeMergeDefaults
                          (match defaults with Some d => d | None => [] end)
                          (Some (requested_variants options))))
                 (Js.keys sv))).
Proof.
  intros Ctx call fuel sv defaults options Hfuel Hnd Hsel.
  set (sel := safeMergeDefaults _ _) in *.
  set (this := arto_builder call fuel (config_variants sv defaults) None [] options).
  assert (Hkeys : Js.keys (simple_variants (Ctx := Ctx) sv) = Js.keys sv).
  { unfold Js.keys, simple_variants. rewrite map_map. reflexivity. }
  destruct (@simple_loop Ctx call fuel sv sel (context (fields (builder this)))
                         Hfuel Hsel (Js.keys sv) (builder this) Hnd)
    as (b' & Hloop & Hflat & H1 & H2 & H3 & H4 & H5 & H6);
    [reflexivity|].
  assert (Happly : VariantsPlugin_apply call fuel (builder this) = Done b').
  { unfold VariantsPlugin_apply. simpl cfg_variants. cbv iota. rewrite Hkeys.
    exact Hloop. }
  assert (Hrun : run_plugins this = Done b').
  { unfold run_plugins.
    change (allPlugins this) with [with_defaults (VariantsPlugin call fuel 0)].
    cbn [run_stage stage with_defaults VariantsPlugin PluginStage_eqb apply].
    cbn [bind]. rewrite Happly. cbn [bind].
    unfold flush. rewrite H5. simpl run_callbacks. cbn [bind].
    cbn [with_fields finalBuildCallbacks]. rewrite H6. simpl. 
    destruct b' as [f p q]. simpl in *. subst. reflexivity. }
  unfold arto. fold this. unfold build. rewrite Hrun. cbn [bind]. do 2 f_equal.
  unfold finalList. rewrite Hflat, H1, H2, H3. simpl. now rewrite app_nil_r.
Qed.

(** The call names 'color' before 'size'; the configuration declares 'size'
    first. *)
Lemma variant_classes_in_declaration_order_witness :
  arto (Ctx := unit) no_callbacks 1 (config_variants sv_size_color None) None []
       pick_red_large
  = Done "btn-lg text-red bold".
Proof.
  apply (@variant_classes_in_declaration_order
           unit no_callbacks 1 sv_size_color None pick_red_large (le_n 1)).
  - repeat constructor; simpl; intuition discriminate.
  - intros k v opts Hk Ho. apply get_In in Hk. apply get_In in Ho.
    simpl in Hk, Ho.
    destruct Hk as [Hk|[Hk|[]]]; injection Hk as <- <-;
      destruct Ho as [Ho|[Ho|[]]]; try discriminate Ho; injection Ho as <-;
      eexists; (split; [reflexivity | discriminate]).
Defined.

(** ** Variant-level states *)

Section MergeStatesFacts.
Variable Ctx : Type.
Variable call : fnid -> option Ctx -> completion.
Variable fuel : nat.
Variable k : string.
Variable act : Js.jsset.
Variable ctx : option Ctx.

Let Builder := ClassNameBuilder Ctx.

Lemma merge_step_reads st e (b b1 : Builder) :
  getActiveStates b = act ->
  mergeVariantStates_step call fuel k act ctx (st, e) b = Done b1 ->
  variant_state_merged call fuel ctx k st e b b1
  /\ (forall k' st', k' <> k \/ st' <> st ->
                     getVariantStateClasses k' st' b1
                     = getVariantStateClasses k' st' b)
  /\ getActiveStates b1 = act.
Proof.
  intros Hact. unfold variant_state_merged, applies. rewrite Hact.
  unfold mergeVariantStates_step.
  assert (Hother : forall k' st',
             k' <> k \/ st' <> st ->
             String.eqb k k' && String.eqb st st' = false).
  { intros k' st' [H|H].
    - assert (E : String.eqb k k' = false) by (apply String.eqb_neq; congruence).
      now rewrite E.
    - assert (E : String.eqb st st' = false) by (apply String.eqb_neq; congruence).
      rewrite E. apply andb_false_r. }
  destruct (StateInput_truthy e) eqn:Et; simpl.
  - destruct e as [c|cfg]; simpl.
    + destruct (isClassNameType c); [|discriminate].
      intros H. apply bind_Done in H as [cls [Hn H]]. injection H as <-.
      split; [|split; [|exact Hact]].
      * exists cls. split; [exact Hn|].
        unfold getVariantStateClasses. simpl.
        now rewrite variant_state_bucket_set, !String.eqb_refl.
      * intros k' st' Hne. unfold getVariantStateClasses. simpl.
        now rewrite variant_state_bucket_set, (Hother k' st' Hne).
    + destruct (checkStateDependencies (sc_dependsOn cfg) act ctx); simpl.
      * intros H. apply bind_Done in H as [cls [Hn H]]. injection H as <-.
        split; [|split; [|exact Hact]].
        -- exists cls. split; [exact Hn|].
           unfold getVariantStateClasses. simpl.
           now rewrite variant_state_bucket_set, !String.eqb_refl.
        -- intros k' st' Hne. unfold getVariantStateClasses. simpl.
           now rewrite variant_state_bucket_set, (Hother k' st' Hne).
      * intros H. injection H as <-. now repeat split.
  - intros H. injection H as <-. now repeat split.
Qed.

Lemma merge_loop_reads entries : forall (b b' : Builder),
    NoDup (map fst entries) ->
    getActiveStates b = act ->
    mergeVariantStates_loop call fuel k act ctx entries b = Done b' ->
    (forall st e, In (st, e) entries ->
                  variant_state_merged call fuel ctx k st e b b')
    /\ (forall k' st', k' <> k \/ ~ In st' (map fst entries) ->
                       getVariantStateClasses k' st' b'
                       = getVariantStateClasses k' st' b).
Proof.
  induction entries as [|[st0 e0] rest IH]; intros b b' Hnd Hact H.
  - injection H as <-. split; [intros st e []|reflexivity].
  - change (mergeVariantStates_loop call fuel k act ctx ((st0, e0) :: rest) b)
      with (let* b1 := mergeVariantStates_step call fuel k act ctx (st0, e0) b in
            mergeVariantStates_loop call fuel k act ctx rest b1) in H.
    apply bind_Done in H as [b1 [H1 H2]].
    simpl in Hnd. apply NoDup_cons_iff in Hnd as [Hnin Hnd'].
    destruct (@merge_step_reads st0 e0 b b1 Hact H1) as (S1 & S2 & S3).
    destruct (IH b1 b' Hnd' S3 H2) as [I1 I2].
    assert (Hrest0 : getVariantStateClasses k st0 b'
                     = getVariantStateClasses k st0 b1)
      by (apply I2; now right).
    split.
    + intros st e [Heq|Hin].
      * injection Heq as <- <-.
        unfold variant_state_merged in *. rewrite Hrest0. exact S1.
      * assert (Hne : st <> st0).
        { intros ->. apply Hnin. apply in_map_iff. now exists (st0, e). }
        pose proof (I1 st e Hin) as HI. unfold variant_state_merged in *.
        unfold getActiveStates in *.
        assert (Hb1 : getVariantStateClasses k st b1 = getVariantStateClasses k st b)
          by (apply S2; now right).
        rewrite S3, <- Hact in HI. rewrite Hact in *.
        now rewrite Hb1 in HI.
    + intros k' st' Hne. rewrite I2.
      * apply S2. destruct Hne as [Hne|Hne]; [now left|].
        right. intros ->. apply Hne. now left.
      * destruct Hne as [Hne|Hne]; [now left|].
        right. intros Hin. apply Hne. now right.
Qed.

End MergeStatesFacts.

(** X17.  [mergeVariantStates] on the states of a variant value: each entry
    that is truthy and whose [dependsOn] holds against the active states gives
    its normalized classes to the bucket of (variant, state), appended for a
    class expression and put in place of the bucket for a state
    configuration, whether the state itself is active or not; every other
    entry leaves its bucket, and so is every bucket of another variant or of a
    state the object does not name. *)
Theorem mergeVariantStates_fills_buckets :
  forall Ctx (call : fnid -> option Ctx -> completion) fuel k
         (statesObj : StatesOptions Ctx) (b b' : ClassNameBuilder Ctx) ctx,
    NoDup (Js.keys statesObj) ->
    mergeVariantStates call fuel k statesObj b ctx = Done b' ->
    (forall st e, Js.get statesObj st = Some e ->
                  variant_state_merged call fuel ctx k st e b b')
    /\ (forall k' st', k' <> k \/ ~ In st' (Js.keys statesObj) ->
                       getVariantStateClasses k' st' b'
                       = getVariantStateClasses k' st' b).
Proof.
  intros Ctx call fuel k statesObj b b' ctx Hnd H.
  unfold mergeVariantStates in H.
  destruct (@merge_loop_reads Ctx call fuel k (getActiveStates b) ctx
                              statesObj b b' Hnd eq_refl H) as [H1 H2].
  split; [|exact H2].
  intros st e Hget. apply H1. now apply get_In.
Qed.

(** 'a' is active, 'disabled' and 'hovered' are not: both buckets of the
    variant 'size' are filled. *)
Lemma mergeVariantStates_fills_buckets_witness :
  exists b',
    mergeVariantStates (Ctx := unit) no_callbacks 1 "size" states_disabled_hovered
      (builder (new_ClassNameBuilder empty_config [] ["a"] None None)) None
    = Done b'
    /\ getVariantStateClasses "size" "disabled" b' = ["d"]
    /\ getVariantStateClasses "size" "hovered" b' = ["h"].
Proof.
  eexists. split; [reflexivity|].
  match goal with
  | |- getVariantStateClasses _ _ ?b' = _ /\ _ =>
      destruct (@mergeVariantStates_fills_buckets
                  unit no_callbacks 1 "size" states_disabled_hovered
                  (builder (new_ClassNameBuilder empty_config [] ["a"] None None))
                  b' None) as [H _]
  end.
  - repeat constructor; simpl; intuition discriminate.
  - reflexivity.
  - split.
    + destruct (H "disabled" _ eq_refl) as [cls [Hn Hb]].
      injection Hn as <-. exact Hb.
    + destruct (H "hovered" _ eq_refl) as [cls [Hn Hb]].
      injection Hn as <-. exact Hb.
Defined.

(** ** The plugins of a call *)

Lemma same_keys_with_defaults Ctx s o (p : Plugin Ctx) :
  same_keys s o (with_defaults p) = same_keys s o p.
Proof.
  unfold same_keys, stage_of, order_of. simpl.
  now destruct (stage p), (order p).
Qed.

Lemma filter_same_keys_defaults Ctx s o (l : list (Plugin Ctx)) :
  filter (same_keys s o) (map (@with_defaults Ctx) l)
  = map (@with_defaults Ctx) (filter (same_keys s o) l).
Proof.
  induction l as [|p l IH]; simpl; [reflexivity|].
  rewrite same_keys_with_defaults. destruct (same_keys s o p); simpl; now rewrite IH.
Qed.

(** X18.  Among the plugins of one stage and one priority, [arto] runs those
    given with the configuration first, then those of the registry, then its
    own: for stage 'core' and priority 0 the base, variants and states
    plugins, in this order, and for priority 3 the rules plugin; each group
    keeps the order in which it was given. *)
Theorem arto_orders_equal_priority_plugins :
  forall Ctx (call : fnid -> option Ctx -> completion) fuel
         (config : ArtoConfig Ctx) locals hub options s o,
    filter (same_keys s o)
           (allPlugins (arto_builder call fuel config (Some locals) hub options))
    = map (@with_defaults Ctx)
          (filter (same_keys s o) locals
           ++ filter (same_keys s o) hub
           ++ filter (same_keys s o) (builtin_order0 call fuel config)
           ++ filter (same_keys s o) (builtin_rules call fuel config))
    /\ filter (same_keys core 0) (builtin_order0 call fuel config)
       = builtin_order0 call fuel config
    /\ filter (same_keys core 3) (builtin_rules call fuel config)
       = builtin_rules call fuel config
    /\ filter (same_keys core 3) (builtin_order0 call fuel config) = []
    /\ filter (same_keys core 0) (builtin_rules call fuel config) = [].
Proof.
  intros Ctx call fuel config locals hub options s o. split.
  - unfold arto_builder. rewrite allPlugins_stable, filter_same_keys_defaults.
    f_equal. unfold builtin_order0, builtin_rules.
    rewrite !filter_app. now rewrite <- !app_assoc.
  - unfold builtin_order0, builtin_rules.
    destruct (truthy_opt (cfg_className config)), (cfg_variants config),
      (cfg_states config), (cfg_rules config) as [rules|];
      try destruct (0 <? List.length rules)%nat; now repeat split.
Qed.

